(** * Vox forecasting committee: orchestration, aggregation and response cache

    A shallow embedding of the committee engine of the Vox forecasting bot
    ([bot/utils.py], [bot/agents.py], [bot/forecaster.py],
    [models/schemas.py] and the [ResponseCache] of
    [research/adj_client.py]), followed by the properties of that code.

    Conventions of the embedding.
    - A Python [float] is an exact rational ([Q]) wherever the code only
      adds, multiplies, divides and compares, and a real number ([R]) where
      it goes through [np.log] and [np.exp]; rounding, infinities and NaN
      are outside the model.
    - A Python [str] is a [string] of 8-bit characters; the regular
      expressions of [bot/utils.py] are run by a small backtracking matcher
      with the search order of Python's [re] module.
    - A function that can raise returns [Err A]; the remote completion call
      is a parameter of the functions that perform it. *)

From Stdlib Require Import List String Ascii Bool Arith ZArith NArith QArith Lia.
From Stdlib Require Import Qround Qabs DecimalString.
From Stdlib Require Import Reals Qreals Lra Psatz Permutation.
Import ListNotations.

Set Implicit Arguments.

(* ================================================================== *)
(** * Python values and exceptions *)
(* ================================================================== *)

Module Py.

(** The exceptions the modelled code can raise. *)
Inductive exn : Type :=
| ValueError
| TypeError
| IndexError
| RuntimeError
| ValidationError.

Inductive Err (A : Type) : Type :=
| Ok (a : A)
| Raise (e : exn).

Arguments Ok {A} a.
Arguments Raise {A} e.

Definition bind {A B : Type} (m : Err A) (k : A -> Err B) : Err B :=
  match m with
  | Ok a => k a
  | Raise e => Raise e
  end.

Definition is_ok {A : Type} (m : Err A) : bool :=
  match m with Ok _ => true | Raise _ => false end.

(** [for x in xs: ys.append(f(x))] with a body that can raise. *)
Fixpoint mapM {A B : Type} (f : A -> Err B) (xs : list A) : Err (list B) :=
  match xs with
  | [] => Ok []
  | x :: xs' =>
      bind (f x) (fun y => bind (mapM f xs') (fun ys => Ok (y :: ys)))
  end.

(** [enumerate(xs)], counting from [i]. *)
Fixpoint enumerate_from {A : Type} (i : nat) (xs : list A) : list (nat * A) :=
  match xs with
  | [] => []
  | x :: xs' => (i, x) :: enumerate_from (S i) xs'
  end.

Definition enumerate {A : Type} (xs : list A) : list (nat * A) :=
  enumerate_from 0 xs.

(** [xs[i]] for a non-negative index: [IndexError] out of range. *)
Definition index {A : Type} (xs : list A) (i : nat) : Err A :=
  match nth_error xs i with
  | Some x => Ok x
  | None => Raise IndexError
  end.

(** [zip(xs, ys, zs)]: stops at the shortest argument. *)
Fixpoint zip3 {A B C : Type} (xs : list A) (ys : list B) (zs : list C)
  : list (A * B * C) :=
  match xs, ys, zs with
  | x :: xs', y :: ys', z :: zs' => (x, y, z) :: zip3 xs' ys' zs'
  | _, _, _ => []
  end.

(** [a or b] on an [Optional[float]] left operand: [None] and [0.0] are
    falsy, every other float is truthy. *)
Definition truthy (x : option Q) : bool :=
  match x with
  | None => false
  | Some q => negb (Qeq_bool q 0)
  end.

Definition or_else (x : option Q) (d : Q) : Q :=
  match x with
  | Some q => if Qeq_bool q 0 then d else q
  | None => d
  end.

Definition or_else_opt (x y : option Q) : option Q :=
  if truthy x then x else y.

(** [max(a, b)] keeps its first argument unless the second is strictly
    larger; [min(a, b)] unless the second is strictly smaller. *)
Definition max (a b : Q) : Q := if Qlt_le_dec a b then b else a.
Definition min (a b : Q) : Q := if Qlt_le_dec b a then b else a.

(** [sum(xs)] on floats. *)
Definition sum (xs : list Q) : Q := fold_left Qplus xs 0.

End Py.

Import Py.

Declare Scope err_scope.
Delimit Scope err_scope with err.
Notation "x <- m ;; k" := (Py.bind m (fun x => k))
  (at level 61, m at next level, right associativity) : err_scope.
Open Scope err_scope.

(* ================================================================== *)
(** * The regular expressions of [bot/utils.py] *)
(* ================================================================== *)

Module Re.

Definition text := list ascii.

(** A character is a code point below 256; the character classes are
    those of Python's [re] and [str] on that range. *)
Definition code (c : ascii) : N := N_of_ascii c.

Definition is_digit (c : ascii) : bool :=
  (48 <=? code c)%N && (code c <=? 57)%N.

(** [\s] on a [str] pattern, and what [str.strip] removes: tab, line
    feed, vertical tab, form feed, carriage return, the four separators
    0x1c-0x1f, the space, next line (0x85) and the no-break space
    (0xa0). *)
Definition is_space (c : ascii) : bool :=
  ((9 <=? code c)%N && (code c <=? 13)%N)
  || ((28 <=? code c)%N && (code c <=? 32)%N)
  || (code c =? 133)%N || (code c =? 160)%N.

Definition is_dot (c : ascii) : bool := (code c =? 46)%N.

(** [[\d.]] *)
Definition is_digit_or_dot (c : ascii) : bool := is_digit c || is_dot c.

(** [.] without [re.DOTALL], and with it. *)
Definition not_newline (c : ascii) : bool := negb (code c =? 10)%N.
Definition any_char (_ : ascii) : bool := true.

(** The case folding of [re.IGNORECASE] on a [str] pattern, below code
    point 256: [A]-[Z] and the accented capitals 0xc0-0xde, the
    multiplication sign 0xd7 apart, go to the letter 32 places up. *)
Definition lower (c : ascii) : ascii :=
  if ((65 <=? code c)%N && (code c <=? 90)%N)
     || ((192 <=? code c)%N && (code c <=? 222)%N
         && negb (code c =? 215)%N)
  then ascii_of_N (code c + 32) else c.

(** A literal character under [re.IGNORECASE], and without it. *)
Definition chr_i (c : ascii) : ascii -> bool :=
  fun d => Ascii.eqb (lower c) (lower d).
Definition chr_s (c : ascii) : ascii -> bool :=
  fun d => Ascii.eqb c d.

(** The fragment of the pattern language the source uses.  Repetition
    is only ever applied to a character class. *)
Inductive regex : Type :=
| Eps
| Chr (p : ascii -> bool)
| Seq (r1 r2 : regex)
| Alt (r1 r2 : regex)
| Many (greedy : bool) (p : ascii -> bool)
| Group (n : nat) (r : regex)
| Look (r : regex)
| Eos.

(** [p+], [r?] and literals. *)
Definition plus (p : ascii -> bool) : regex := Seq (Chr p) (Many true p).
Definition opt (r : regex) : regex := Alt r Eps.

Fixpoint lit_i (s : string) : regex :=
  match s with
  | EmptyString => Eps
  | String c s' => Seq (Chr (chr_i c)) (lit_i s')
  end.

Fixpoint lit_s (s : string) : regex :=
  match s with
  | EmptyString => Eps
  | String c s' => Seq (Chr (chr_s c)) (lit_s s')
  end.

(** Captured groups, most recent binding first. *)
Definition caps := list (nat * text).

Fixpoint group (n : nat) (cs : caps) : option text :=
  match cs with
  | [] => None
  | (m, t) :: cs' => if Nat.eqb n m then Some t else group n cs'
  end.

Section Matcher.
Variable A : Type.

(** Greedy [p*]: the longest run first, then shorter ones. *)
Fixpoint many_greedy (p : ascii -> bool) (s : text)
         (k : text -> option A) : option A :=
  match s with
  | c :: s' =>
      if p c
      then match many_greedy p s' k with
           | Some a => Some a
           | None => k s
           end
      else k s
  | [] => k s
  end.

(** Lazy [p*?]: the empty run first, then longer ones. *)
Fixpoint many_lazy (p : ascii -> bool) (s : text)
         (k : text -> option A) : option A :=
  match k s with
  | Some a => Some a
  | None =>
      match s with
      | c :: s' => if p c then many_lazy p s' k else None
      | [] => None
      end
  end.

(** Backtracking match of [r] at the head of [s], continuing with [k]
    on the rest; alternatives are tried left to right.  A lookahead
    consumes nothing and, holding no group in the source's patterns,
    binds nothing. *)
Fixpoint rmatch (r : regex) (s : text) (cs : caps)
         (k : text -> caps -> option A) : option A :=
  match r with
  | Eps => k s cs
  | Chr p =>
      match s with
      | c :: s' => if p c then k s' cs else None
      | [] => None
      end
  | Seq r1 r2 => rmatch r1 s cs (fun s' cs' => rmatch r2 s' cs' k)
  | Alt r1 r2 =>
      match rmatch r1 s cs k with
      | Some a => Some a
      | None => rmatch r2 s cs k
      end
  | Many true p => many_greedy p s (fun s' => k s' cs)
  | Many false p => many_lazy p s (fun s' => k s' cs)
  | Group n r1 =>
      rmatch r1 s cs
        (fun s' cs' =>
           k s' ((n, firstn (List.length s - List.length s') s) :: cs'))
  | Look r1 => rmatch r1 s cs (fun _ _ => k s cs)
  | Eos =>
      match s with
      | [] => k s cs
      | [c] => if (code c =? 10)%N then k s cs else None
      | _ => None
      end
  end.
End Matcher.

(** [re.search]: the match at the leftmost position where one exists. *)
Fixpoint search_from (r : regex) (s : text) : option caps :=
  match rmatch r s [] (fun _ cs => Some cs) with
  | Some cs => Some cs
  | None =>
      match s with
      | [] => None
      | _ :: s' => search_from r s'
      end
  end.

Definition search (r : regex) (s : string) : option caps :=
  search_from r (list_ascii_of_string s).

(** [match.group(n)] of a group that took part in the match. *)
Definition group_str (n : nat) (cs : caps) : string :=
  match group n cs with
  | Some t => string_of_list_ascii t
  | None => EmptyString
  end.

End Re.

(* ================================================================== *)
(** * [bot/utils.py] *)
(* ================================================================== *)

Module Utils.

Import Re.

(** ** Number literals *)

Definition digit_val (c : ascii) : N := (code c - 48)%N.

Definition digits_val (t : text) : N :=
  fold_left (fun acc c => (acc * 10 + digit_val c)%N) t 0%N.

(** The text before the first dot, and the text after it if there is
    a dot. *)
Fixpoint split_dot (t : text) : text * option text :=
  match t with
  | [] => ([], None)
  | c :: t' =>
      if is_dot c then ([], Some t')
      else let (a, b) := split_dot t' in (c :: a, b)
  end.

(** [float(s)] on the texts the patterns can capture (digits and dots):
    digits with at most one dot and at least one digit, else
    [ValueError]. *)
Definition float (s : string) : Err Q :=
  let (ip, fp) := split_dot (list_ascii_of_string s) in
  let fp' := match fp with Some f => f | None => [] end in
  if forallb is_digit ip && forallb is_digit fp'
     && negb (Nat.eqb (List.length ip + List.length fp') 0)
  then Ok (Qred (Z.of_N (digits_val (ip ++ fp'))
                 # Z.to_pos (10 ^ Z.of_nat (List.length fp'))))
  else Raise ValueError.

(** ** Patterns *)

(** [\d+(?:\.\d+)?] *)
Definition number : regex :=
  Seq (plus is_digit) (opt (Seq (Chr is_dot) (plus is_digit))).

(** [PROBABILITY:\s*([\d.]+)], ignoring case. *)
Definition re_probability : regex :=
  Seq (lit_i "PROBABILITY:")
      (Seq (Many true is_space) (Group 1 (plus is_digit_or_dot))).

(** [(\d+(?:\.\d+)?)\s*%] *)
Definition re_percent : regex :=
  Seq (Group 1 number) (Seq (Many true is_space) (Chr (chr_s "%"))).

(** [(\d+(?:\.\d+)?)\s*(?:in|out of)\s*(\d+)], ignoring case. *)
Definition re_ratio : regex :=
  Seq (Group 1 number)
      (Seq (Many true is_space)
           (Seq (Alt (lit_i "in") (lit_i "out of"))
                (Seq (Many true is_space) (Group 2 (plus is_digit))))).

(** [(?:odds|chance|likelihood).*?(\d+(?:\.\d+)?)], ignoring case. *)
Definition re_chance : regex :=
  Seq (Alt (lit_i "odds") (Alt (lit_i "chance") (lit_i "likelihood")))
      (Seq (Many false not_newline) (Group 1 number)).

(** [MEDIAN:\s*([\d.]+)], ignoring case. *)
Definition re_median : regex :=
  Seq (lit_i "MEDIAN:")
      (Seq (Many true is_space) (Group 1 (plus is_digit_or_dot))).

(** [{label}:\s*([\d.]+)], ignoring case, for an escaped literal
    [label]. *)
Definition re_labelled (label : string) : regex :=
  Seq (lit_i label)
      (Seq (Chr (chr_i ":"))
           (Seq (Many true is_space) (Group 1 (plus is_digit_or_dot)))).

(** [REASONING:\s*(.*?)(?=PROBABILITY:|MEDIAN:|PROBABILITIES:|$)], with
    [re.DOTALL] and ignoring case. *)
Definition re_reasoning : regex :=
  Seq (lit_i "REASONING:")
      (Seq (Many true is_space)
           (Seq (Group 1 (Many false any_char))
                (Look (Alt (lit_i "PROBABILITY:")
                           (Alt (lit_i "MEDIAN:")
                                (Alt (lit_i "PROBABILITIES:") Eos)))))).

(** ** Probabilities *)

Definition normalize_probability (prob : Q) : Q :=
  Py.max (1 # 100) (Py.min (99 # 100) prob).

(** The last attempt of [parse_probability]: the chance phrase. *)
Definition parse_probability_chance (text : string) : Err (option Q) :=
  match search re_chance text with
  | Some m =>
      prob <- float (group_str 1 m) ;;
      let prob := if Qlt_le_dec 1 prob then prob / 100 else prob in
      Ok (Some (normalize_probability prob))
  | None => Ok None
  end.

Definition parse_probability (text : string) : Err (option Q) :=
  match search re_probability text with
  | Some m =>
      prob <- float (group_str 1 m) ;;
      Ok (Some (normalize_probability prob))
  | None =>
      match search re_percent text with
      | Some m =>
          g <- float (group_str 1 m) ;;
          let prob := g / 100 in
          Ok (Some (normalize_probability prob))
      | None =>
          match search re_ratio text with
          | Some m =>
              num <- float (group_str 1 m) ;;
              denom <- float (group_str 2 m) ;;
              if Qlt_le_dec 0 denom
              then Ok (Some (normalize_probability (num / denom)))
              else parse_probability_chance text
          | None => parse_probability_chance text
          end
      end
  end.

(** ** Weighted mean (used on log-odds) *)

Definition sumR (xs : list R) : R := fold_left Rplus xs 0%R.

Definition weighted_average (probabilities weights : list R) : Err R :=
  match probabilities, weights with
  | [], _ | _, [] => Ok (1 / 2)%R
  | _, _ =>
      if negb (Nat.eqb (List.length probabilities) (List.length weights))
      then Raise ValueError
      else
        let total_weight := sumR weights in
        if Req_dec_T total_weight 0%R then Ok (1 / 2)%R
        else
          let weighted_sum :=
            sumR (map (fun pw => (fst pw * snd pw)%R)
                      (combine probabilities weights)) in
          Ok (weighted_sum / total_weight)%R
  end.

Definition logit (p : R) : R :=
  let p := Rmax (1 / 10000) (Rmin (9999 / 10000) p) in
  ln (p / (1 - p)).

Definition inv_logit (x : R) : R := (1 / (1 + exp (- x)))%R.

Definition aggregate_logit_space (probabilities weights : list R) : Err R :=
  let logits := map logit probabilities in
  avg_logit <- weighted_average logits weights ;;
  Ok (inv_logit avg_logit).

(** ** Numeric answers *)

(** A [dict] in insertion order; [d[k] = v] overwrites in place or
    appends. *)
Definition dict (K V : Type) : Type := list (K * V).

Fixpoint dict_set {K V : Type} (eqb : K -> K -> bool) (k : K) (v : V)
         (d : dict K V) : dict K V :=
  match d with
  | [] => [(k, v)]
  | (k', v') :: d' =>
      if eqb k k' then (k, v) :: d' else (k', v') :: dict_set eqb k v d'
  end.

(** [str(n)] for a non-negative integer. *)
Definition str_N (n : N) : string :=
  DecimalString.NilEmpty.string_of_uint (N.to_uint n).

Definition percentile_levels : list N := [10; 20; 30; 40; 50; 60; 70; 80; 90]%N.

Fixpoint parse_percentiles_loop (text : string) (ps : list N)
         (percentiles : dict Z Q) : Err (dict Z Q) :=
  match ps with
  | [] => Ok percentiles
  | p :: ps' =>
      match search (re_labelled (String "p" (str_N p))) text with
      | Some m =>
          v <- float (group_str 1 m) ;;
          parse_percentiles_loop text ps'
            (dict_set Z.eqb (Z.of_N p) v percentiles)
      | None => parse_percentiles_loop text ps' percentiles
      end
  end.

Definition parse_percentiles (text : string) : Err (dict Z Q) :=
  parse_percentiles_loop text percentile_levels [].

Definition parse_median (text : string) : Err (option Q) :=
  match search re_median text with
  | Some m => v <- float (group_str 1 m) ;; Ok (Some v)
  | None => Ok None
  end.

Fixpoint parse_option_probabilities_loop (text : string)
         (options : list string) (probs : dict string Q)
  : Err (dict string Q) :=
  match options with
  | [] => Ok probs
  | option :: options' =>
      match search (re_labelled option) text with
      | Some m =>
          v <- float (group_str 1 m) ;;
          parse_option_probabilities_loop text options'
            (dict_set String.eqb option v probs)
      | None => parse_option_probabilities_loop text options' probs
      end
  end.

Definition parse_option_probabilities (text : string)
           (options : list string) : Err (dict string Q) :=
  parse_option_probabilities_loop text options [].

(** [s.strip()] *)
Fixpoint lstrip (t : text) : text :=
  match t with
  | c :: t' => if is_space c then lstrip t' else t
  | [] => []
  end.

Definition strip (s : string) : string :=
  string_of_list_ascii
    (rev (lstrip (rev (lstrip (list_ascii_of_string s))))).

Definition extract_reasoning (text : string) : string :=
  match search re_reasoning text with
  | Some m => strip (group_str 1 m)
  | None => strip text
  end.

(** ** Percentiles to a 201-point CDF *)

(** Tuple order on [(p, val)] items, as [sorted] compares them. *)
Definition item_lt (a b : Z * Q) : bool :=
  (fst a <? fst b)%Z
  || ((fst a =? fst b)%Z && if Qlt_le_dec (snd a) (snd b) then true else false).

(** [sorted(items)]: a stable insertion sort. *)
Fixpoint insert_sorted (a : Z * Q) (xs : list (Z * Q)) : list (Z * Q) :=
  match xs with
  | [] => [a]
  | b :: xs' => if item_lt a b then a :: xs else b :: insert_sorted a xs'
  end.

Definition sorted (items : list (Z * Q)) : list (Z * Q) :=
  fold_left (fun acc a => insert_sorted a acc) items [].

(** The inner [for j, (p, val) in enumerate(sorted_p)] loop at abscissa
    [x]; [prev] is [sorted_p[j - 1]], absent when [j == 0].  Running off
    the end of the list is the loop's [else] branch. *)
Fixpoint cdf_at (x lower : Q) (prev : option (Z * Q)) (sorted_p : list (Z * Q))
  : Q :=
  match sorted_p with
  | [] => 1
  | (p, val) :: rest =>
      if Qlt_le_dec x val then
        match prev with
        | None =>
            if Qeq_bool val lower then 0
            else inject_Z p / 100 * (x - lower) / (val - lower)
        | Some (prev_p, prev_val) =>
            let t := if Qeq_bool val prev_val then 0
                     else (x - prev_val) / (val - prev_val) in
            (inject_Z prev_p + t * (inject_Z p - inject_Z prev_p)) / 100
        end
      else cdf_at x lower (Some (p, val)) rest
  end.

(** [xs[i] = v] for an index in range. *)
Fixpoint assign (i : nat) (v : Q) (xs : list Q) : list Q :=
  match xs, i with
  | [], _ => []
  | _ :: xs', O => v :: xs'
  | x :: xs', S i' => x :: assign i' v xs'
  end.

(** [for i in range(1, len): cdf[i] = max(cdf[i], cdf[i - 1])], with
    [prev] the already updated [cdf[i - 1]]. *)
Fixpoint max_scan (prev : Q) (rest : list Q) : list Q :=
  match rest with
  | [] => []
  | c :: rest' => let m := Py.max c prev in m :: max_scan m rest'
  end.

Definition forward_max (cdf : list Q) : list Q :=
  match cdf with
  | [] => []
  | c0 :: rest => c0 :: max_scan c0 rest
  end.

Definition grid_point (lower upper : Q) (i : nat) : Q :=
  lower + (upper - lower) * inject_Z (Z.of_nat i) / 200.

Definition cdf_from_percentiles (percentiles : dict Z Q) (lower upper : Q)
  : list Q :=
  let sorted_p := sorted percentiles in
  let cdf :=
    map (fun i => cdf_at (grid_point lower upper i) lower None sorted_p)
        (seq 0 201) in
  let cdf := assign 0 0 cdf in
  let cdf := assign (List.length cdf - 1) 1 cdf in
  forward_max cdf.

End Utils.

(* ================================================================== *)
(** * [models/schemas.py] *)
(* ================================================================== *)

Module Schemas.

Local Open Scope string_scope.

Definition nl : string := String (ascii_of_nat 10) EmptyString.

(** [sep.join(parts)] *)
Fixpoint join (sep : string) (parts : list string) : string :=
  match parts with
  | [] => EmptyString
  | [p] => p
  | p :: rest => p ++ sep ++ join sep rest
  end.

Record ResearchContext : Type := {
  question_text : string;
  adj_prior_section : string;
  asknews_summary : string;
  perplexity_research : string
}.

Definition nonempty (s : string) : bool :=
  match s with EmptyString => false | _ => true end.

(** [if body: sections.append(title + newline + body)] *)
Definition append_section (sections : list string) (title body : string)
  : list string :=
  if nonempty body then List.app sections [title ++ nl ++ body]
  else sections.

Definition to_prompt_section (self : ResearchContext) : string :=
  let sections := [] in
  let sections :=
    append_section sections "### Prediction Market Data"
                   (adj_prior_section self) in
  let sections :=
    append_section sections "### Recent News" (asknews_summary self) in
  let sections :=
    append_section sections "### Deep Research" (perplexity_research self) in
  join (nl ++ nl) sections.

Record AgentForecast : Type := {
  agent_name : string;
  weight : Q;
  initial_reasoning : string;
  initial_probability : option Q;
  peer_critique : string;
  final_probability : Q;
  final_reasoning : string
}.

Inductive QuestionType : Type := binary | numeric | multiple_choice.

Record CommitteeResult : Type := {
  question_id : Z;
  cr_question_text : string;
  question_type : QuestionType;
  research_context : string;
  agent_forecasts : list AgentForecast;
  cr_final_probability : R;
  final_cdf : option (list Q);
  final_option_probs : option (Utils.dict string Q);
  reasoning_summary : string
}.

End Schemas.

(* ================================================================== *)
(** * [bot/prompts.py] *)
(* ================================================================== *)

Module Prompts.

Import Schemas.
Local Open Scope string_scope.

(** A text given line by line. *)
Definition lines (ls : list string) : string := join nl ls.

Definition BASE_RATE_ANALYST_SYSTEM : string :=
  lines
    [ "You are a rigorous base-rate analyst. Your approach:";
      "1. Start with historical frequency - how often has this type of event happened before?";
      "2. Reference class forecasting: find the most appropriate reference class";
      "3. Adjust from base rate only with strong evidence";
      "4. Avoid anchoring on recent news or vivid examples";
      "5. Explicitly state your base rate and adjustments";
      "";
      "Always provide:";
      "- Reference class used";
      "- Historical base rate (with source or estimate)";
      "- Adjustments made (if any)";
      "- Final probability with confidence level" ].

Definition MARKET_PRIOR_SYSTEM : string :=
  lines
    [ "You are a market-savvy forecaster who treats prediction markets as Bayesian priors.";
      "Your approach:";
      "1. If prediction markets exist for this question, use market price as starting prior";
      "2. Markets aggregate information efficiently - respect the wisdom of crowds";
      "3. Only deviate from market price with strong contrarian evidence";
      "4. Consider market liquidity and volume when weighting market signal";
      "5. Cross-reference multiple platforms when available";
      "";
      "Always provide:";
      "- Market prices found (with platforms and liquidity)";
      "- Your interpretation of market signal";
      "- Reasons for deviation (if any)";
      "- Final probability with confidence level" ].

Definition STATUS_QUO_ANCHOR_SYSTEM : string :=
  lines
    [ "You are a conservative status-quo anchor. Your approach:";
      "1. Default prediction: things continue as they are";
      "2. Require strong evidence to predict change";
      "3. Consider regression to the mean";
      "4. Be skeptical of claimed breakthroughs or turning points";
      "5. Weight continuity and inertia heavily";
      "";
      "Always provide:";
      "- Current state/status quo";
      "- Force required to change status quo";
      "- Evidence for change (if any)";
      "- Final probability with confidence level" ].

Definition DEVILS_ADVOCATE_SYSTEM : string :=
  lines
    [ "You are a devil's advocate forecaster. Your approach:";
      "1. Challenge the consensus view";
      "2. Find reasons the obvious answer might be wrong";
      "3. Consider tail risks and black swans";
      "4. Look for cognitive biases in others' reasoning";
      "5. Explicitly argue the counter-position";
      "";
      "Always provide:";
      "- The consensus view you're challenging";
      "- Arguments against consensus";
      "- Overlooked factors or risks";
      "- Final probability with confidence level" ].

Definition SYNTHESIZER_SYSTEM : string :=
  lines
    [ "You are a synthesis forecaster who combines multiple perspectives. Your approach:";
      "1. Consider all agent perspectives without bias";
      "2. Weight by historical accuracy and confidence";
      "3. Identify where agents agree and disagree";
      "4. Resolve disagreements by finding the strongest arguments on each side";
      "5. Produce a well-calibrated final forecast";
      "";
      "Always provide:";
      "- Summary of key disagreements";
      "- Resolution of conflicts";
      "- Final probability with confidence level";
      "- Key uncertainties that could shift forecast" ].

(** [FORECAST_TEMPLATE.format(...)] *)
Definition FORECAST_TEMPLATE_format
           (question_text resolution_criteria research_section : string) : string :=
  lines
    [ "## Question";
      question_text;
      "";
      "## Resolution Criteria";
      resolution_criteria;
      "";
      research_section;
      "";
      "## Your Task";
      "Provide your probability forecast for this question. Format your response as:";
      "";
      "REASONING:";
      "[Your detailed reasoning following your persona's approach]";
      "";
      "PROBABILITY: [X.XX]";
      "";
      "Your probability should be between 0.01 and 0.99 for binary questions." ].

(** [PEER_REVIEW_TEMPLATE.format(...)]; [initial_probability] arrives already
    rendered by its [.2%] format. *)
Definition PEER_REVIEW_TEMPLATE_format
           (question_text initial_probability initial_reasoning
            peer_critique : string) : string :=
  lines
    [ "## Original Question";
      question_text;
      "";
      "## Your Previous Forecast";
      "You previously forecast: " ++ initial_probability;
      "Reasoning: " ++ initial_reasoning;
      "";
      "## Peer Analysis";
      "A fellow forecaster provided this critique:";
      "";
      peer_critique;
      "";
      "## Your Task";
      "Consider this feedback and provide your final forecast. You may:";
      "1. Maintain your original forecast if you disagree with the critique";
      "2. Adjust based on valid points raised";
      "3. Provide additional reasoning to support your position";
      "";
      "Format your response as:";
      "";
      "REASONING:";
      "[Your updated reasoning considering the peer feedback]";
      "";
      "PROBABILITY: [X.XX]" ].

(** [NUMERIC_FORECAST_TEMPLATE.format(...)], the numbers and flags already
    rendered. *)
Definition NUMERIC_FORECAST_TEMPLATE_format
           (question_text resolution_criteria lower_bound upper_bound
            open_lower open_upper research_section : string) : string :=
  lines
    [ "## Question";
      question_text;
      "";
      "## Resolution Criteria";
      resolution_criteria;
      "";
      "## Question Type: Numeric";
      "Lower bound: " ++ lower_bound;
      "Upper bound: " ++ upper_bound;
      "Open lower: " ++ open_lower;
      "Open upper: " ++ open_upper;
      "";
      research_section;
      "";
      "## Your Task";
      "Provide your forecast as a probability distribution over the possible range.";
      "Format your response as:";
      "";
      "REASONING:";
      "[Your detailed reasoning]";
      "";
      "MEDIAN: [your median estimate]";
      "PERCENTILES:";
      "p10: [value at 10th percentile]";
      "p20: [value at 20th percentile]";
      "p30: [value at 30th percentile]";
      "p40: [value at 40th percentile]";
      "p50: [value at 50th percentile - should equal MEDIAN]";
      "p60: [value at 60th percentile]";
      "p70: [value at 70th percentile]";
      "p80: [value at 80th percentile]";
      "p90: [value at 90th percentile]" ].

(** [MULTIPLE_CHOICE_TEMPLATE.format(...)] *)
Definition MULTIPLE_CHOICE_TEMPLATE_format
           (question_text resolution_criteria options_list research_section
            option_prob_format : string) : string :=
  lines
    [ "## Question";
      question_text;
      "";
      "## Resolution Criteria";
      resolution_criteria;
      "";
      "## Options";
      options_list;
      "";
      research_section;
      "";
      "## Your Task";
      "Provide your probability forecast for EACH option. Probabilities must sum to 1.0.";
      "";
      "Format your response as:";
      "";
      "REASONING:";
      "[Your detailed reasoning]";
      "";
      "PROBABILITIES:";
      option_prob_format ].

End Prompts.

(* ================================================================== *)
(** * [bot/agents.py] *)
(* ================================================================== *)

Module AgentConfig.
Record t : Type := { name : string; system_prompt : string; weight : Q }.
End AgentConfig.

Module LLMAgent.
(** The proxy address and the timeout of an agent belong to the
    transport and are not kept here. *)
Record t : Type := { name : string; system_prompt : string; weight : Q }.
End LLMAgent.

Module Agents.

Import Schemas Prompts Utils.
Local Open Scope string_scope.

Definition AGENT_CONFIGS : dict string AgentConfig.t :=
  [ ("base_rate_analyst",
     {| AgentConfig.name := "base_rate_analyst";
        AgentConfig.system_prompt := BASE_RATE_ANALYST_SYSTEM;
        AgentConfig.weight := 1 |});
    ("market_prior",
     {| AgentConfig.name := "market_prior";
        AgentConfig.system_prompt := MARKET_PRIOR_SYSTEM;
        AgentConfig.weight := 3 # 2 |});
    ("status_quo_anchor",
     {| AgentConfig.name := "status_quo_anchor";
        AgentConfig.system_prompt := STATUS_QUO_ANCHOR_SYSTEM;
        AgentConfig.weight := 1 |});
    ("devils_advocate",
     {| AgentConfig.name := "devils_advocate";
        AgentConfig.system_prompt := DEVILS_ADVOCATE_SYSTEM;
        AgentConfig.weight := 1 |});
    ("synthesizer",
     {| AgentConfig.name := "synthesizer";
        AgentConfig.system_prompt := SYNTHESIZER_SYSTEM;
        AgentConfig.weight := 3 # 2 |}) ].

Fixpoint dict_get {V : Type} (k : string) (d : dict string V) : option V :=
  match d with
  | [] => None
  | (k', v) :: d' => if String.eqb k k' then Some v else dict_get k d'
  end.

(** [LLMAgent.__init__] *)
Definition new_agent (agent_config : AgentConfig.t) : LLMAgent.t :=
  {| LLMAgent.name := AgentConfig.name agent_config;
     LLMAgent.system_prompt := AgentConfig.system_prompt agent_config;
     LLMAgent.weight := AgentConfig.weight agent_config |}.

Fixpoint create_committee_loop (agent_names : list string)
  : list LLMAgent.t :=
  match agent_names with
  | [] => []
  | name :: rest =>
      match dict_get name AGENT_CONFIGS with
      | Some c => new_agent c :: create_committee_loop rest
      | None => create_committee_loop rest
      end
  end.

Definition create_committee (agent_names : option (list string))
  : list LLMAgent.t :=
  let agent_names :=
    match agent_names with
    | Some names => names
    | None => map fst AGENT_CONFIGS
    end in
  create_committee_loop agent_names.

(** ** Rendering of a probability by the [.2%] format *)

Definition round_half_even (q : Q) : Z :=
  let f := Qfloor q in
  match (q - inject_Z f ?= 1 # 2)%Q with
  | Lt => f
  | Gt => (f + 1)%Z
  | Eq => if Z.even f then f else (f + 1)%Z
  end.

Definition two_digits (n : Z) : string :=
  if (n <? 10)%Z then "0" ++ str_N (Z.to_N n) else str_N (Z.to_N n).

(** [format(x, ".2%")], rounding the exact value. *)
Definition format_percent2 (x : Q) : string :=
  let m := round_half_even (Qabs x * 10000) in
  (if Qlt_le_dec x 0 then "-" else "")
  ++ str_N (Z.to_N (m / 100)) ++ "." ++ two_digits (m mod 100) ++ "%".

(** ** The remote call *)

Record Message : Type := { role : string; content : string }.

Record Payload : Type := {
  model : string;
  max_tokens : nat;
  system : string;
  messages : list Message
}.

(** One HTTP exchange with the completion proxy: the text of the reply
    to a payload at a given attempt, or [None] when the exchange raises
    (network failure, non-2xx status, malformed body). *)
Definition Transport : Type := Payload -> nat -> option string.

Section Calls.

Variable post : Transport.
(** [config.agent_max_retries] *)
Variable agent_max_retries : nat.

(** The body of [for attempt in range(config.agent_max_retries)];
    the pause between attempts has no effect on the result. *)
Fixpoint _call_llm_loop (payload : Payload) (attempts : list nat)
  : Err string :=
  match attempts with
  | [] => Ok ""
  | attempt :: rest =>
      match post payload attempt with
      | Some text => Ok text
      | None =>
          if Nat.eqb attempt (agent_max_retries - 1)
          then Raise RuntimeError
          else _call_llm_loop payload rest
      end
  end.

Definition _call_llm (self : LLMAgent.t) (messages : list Message)
           (model : string) : Err string :=
  let payload :=
    {| Agents.model := model;
       max_tokens := 2000;
       system := LLMAgent.system_prompt self;
       Agents.messages := messages |} in
  _call_llm_loop payload (seq 0 agent_max_retries).

Definition user (content : string) : list Message :=
  [ {| role := "user"; content := content |} ].

Definition forecast (self : LLMAgent.t)
           (question_text resolution_criteria : string)
           (research_context : ResearchContext) (model : string)
  : Err AgentForecast :=
  let research_section := to_prompt_section research_context in
  let user_message :=
    FORECAST_TEMPLATE_format question_text resolution_criteria
                             research_section in
  response <- _call_llm self (user user_message) model ;;
  parsed <- parse_probability response ;;
  let probability := Py.or_else parsed (1 # 2) in
  let reasoning := extract_reasoning response in
  Ok {| agent_name := LLMAgent.name self;
        weight := LLMAgent.weight self;
        initial_reasoning := reasoning;
        initial_probability := Some probability;
        peer_critique := "";
        final_probability := probability;
        final_reasoning := reasoning |}.

Definition peer_review_message (question_text : string)
           (other_agent : AgentForecast) : string :=
  lines
    [ "## Question";
      question_text;
      "";
      "## Another Agent's Forecast";
      "Agent: " ++ agent_name other_agent;
      "Probability: " ++ format_percent2 (final_probability other_agent);
      "Reasoning: " ++ final_reasoning other_agent;
      "";
      "## Your Task";
      "Provide a brief critique of this forecast. Consider:";
      "1. Are there weaknesses in the reasoning?";
      "2. What factors might they be missing?";
      "3. Is their probability well-calibrated?";
      "";
      "Keep your critique constructive and under 200 words." ].

Definition peer_review (self : LLMAgent.t) (question_text : string)
           (other_agent : AgentForecast) (model : string) : Err string :=
  let user_message := peer_review_message question_text other_agent in
  response <- _call_llm self (user user_message) model ;;
  Ok response.

Definition revise_forecast (self : LLMAgent.t) (question_text : string)
           (initial_forecast : AgentForecast) (peer_critique : string)
           (model : string) : Err AgentForecast :=
  rendered <-
    match initial_probability initial_forecast with
    | Some p => Ok (format_percent2 p)
    | None => Raise TypeError
    end ;;
  let user_message :=
    PEER_REVIEW_TEMPLATE_format question_text rendered
      (initial_reasoning initial_forecast) peer_critique in
  response <- _call_llm self (user user_message) model ;;
  parsed <- parse_probability response ;;
  let probability :=
    Py.or_else_opt parsed (initial_probability initial_forecast) in
  let reasoning := extract_reasoning response in
  match probability with
  | Some probability =>
      Ok {| agent_name := LLMAgent.name self;
            weight := LLMAgent.weight self;
            initial_reasoning := initial_reasoning initial_forecast;
            initial_probability := initial_probability initial_forecast;
            peer_critique := peer_critique;
            final_probability := probability;
            final_reasoning := reasoning |}
  | None => Raise ValidationError
  end.

(** [asyncio.gather] over the tasks: the results in task order. *)
Definition gather {A : Type} (tasks : list (Err A)) : Err (list A) :=
  mapM (fun t => t) tasks.

Definition run_initial_forecasts (agents : list LLMAgent.t)
           (question_text resolution_criteria : string)
           (research_context : ResearchContext) (model : string)
  : Err (list AgentForecast) :=
  let tasks :=
    map (fun agent =>
           forecast agent question_text resolution_criteria
                    research_context model)
        agents in
  gather tasks.

(** [reviewed_idx = (i + 1) % n] *)
Definition reviewed_idx (n i : nat) : nat := (i + 1) mod n.

(** The body of [for i, agent in enumerate(agents)], [critiques]
    being the list built so far. *)
Fixpoint run_peer_reviews_loop (n : nat) (forecasts : list AgentForecast)
         (question_text model : string)
         (todo : list (nat * LLMAgent.t)) (critiques : list string)
  : Err (list string) :=
  match todo with
  | [] => Ok critiques
  | (i, agent) :: rest =>
      reviewed <- index forecasts (reviewed_idx n i) ;;
      critique <- peer_review agent question_text reviewed model ;;
      run_peer_reviews_loop n forecasts question_text model rest
                            (List.app critiques [critique])
  end.

Definition run_peer_reviews (agents : list LLMAgent.t)
           (forecasts : list AgentForecast)
           (question_text model : string) : Err (list string) :=
  let n := List.length agents in
  run_peer_reviews_loop n forecasts question_text model
                        (enumerate agents) [].

(** The argument triples of the revision tasks:
    [zip(agents, forecasts, critiques)]. *)
Definition revision_calls (agents : list LLMAgent.t)
           (forecasts : list AgentForecast) (critiques : list string)
  : list (LLMAgent.t * AgentForecast * string) :=
  zip3 agents forecasts critiques.

Definition run_revisions (agents : list LLMAgent.t)
           (forecasts : list AgentForecast) (critiques : list string)
           (question_text model : string) : Err (list AgentForecast) :=
  let tasks :=
    map (fun '(agent, forecast, critique) =>
           revise_forecast agent question_text forecast critique model)
        (revision_calls agents forecasts critiques) in
  gather tasks.

End Calls.

End Agents.

(* ================================================================== *)
(** * [bot/forecaster.py] *)
(* ================================================================== *)

Module Forecaster.

Import Schemas Prompts Utils Agents.
Local Open Scope string_scope.

Record t : Type := {
  agents : list LLMAgent.t;
  model : string;
  use_peer_review : bool
}.

(** [Forecaster.__init__] *)
Definition new (agent_names : option (list string)) (model : string)
           (use_peer_review : bool) : t :=
  {| agents := create_committee agent_names;
     model := model;
     use_peer_review := use_peer_review |}.

(** ** Aggregation *)

Definition _aggregate_forecasts (forecasts : list AgentForecast) : Err R :=
  let probabilities := map (fun f => Q2R (final_probability f)) forecasts in
  let weights := map (fun f => Q2R (weight f)) forecasts in
  aggregate_logit_space probabilities weights.

Definition _aggregate_cdfs (forecasts : list AgentForecast) (lower upper : Q)
  : list Q :=
  let weights := map weight forecasts in
  let total_weight := Py.sum weights in
  let aggregated := repeat 0 201 in
  (* for forecast in forecasts: pass *)
  let aggregated := fold_left (fun agg _ => agg) forecasts aggregated in
  aggregated.

Definition _aggregate_multiple_choice (forecasts : list AgentForecast)
           (options : list string) : dict string Q :=
  fold_left
    (fun d opt =>
       dict_set String.eqb opt (1 / inject_Z (Z.of_nat (List.length options))) d)
    options [].

Definition _summarize_reasoning (forecasts : list AgentForecast) : string :=
  let sections :=
    map (fun f =>
           "**" ++ agent_name f ++ "**: "
           ++ substring 0 200 (final_reasoning f) ++ "...")
        forecasts in
  join (nl ++ nl) sections.

Definition str_bool (b : bool) : string := if b then "True" else "False".

Section Workflow.

Variable post : Transport.
Variable agent_max_retries : nat.
(** The research layer: question, [include_asknews],
    [include_perplexity] to a compiled text. *)
Variable integrated_research : string -> bool -> bool -> string.
(** [str(x)] of a float, as the numeric template renders the bounds. *)
Variable str_float : Q -> string.

Definition research_of (question_text : string)
           (use_asknews use_perplexity : bool) : ResearchContext :=
  let research_str :=
    integrated_research question_text use_asknews use_perplexity in
  {| question_text := question_text;
     adj_prior_section := research_str;
     asknews_summary := "";
     perplexity_research := "" |}.

Definition forecast_binary (self : t) (question_id : Z)
           (question_text resolution_criteria : string)
           (use_asknews use_perplexity : bool) : Err CommitteeResult :=
  let research := research_of question_text use_asknews use_perplexity in
  forecasts <-
    run_initial_forecasts post agent_max_retries (agents self)
      question_text resolution_criteria research (model self) ;;
  forecasts <-
    (if use_peer_review self
     then
       critiques <-
         run_peer_reviews post agent_max_retries (agents self) forecasts
                          question_text (model self) ;;
       run_revisions post agent_max_retries (agents self) forecasts
                     critiques question_text (model self)
     else Ok forecasts) ;;
  final_prob <- _aggregate_forecasts forecasts ;;
  let reasoning := _summarize_reasoning forecasts in
  Ok {| question_id := question_id;
        cr_question_text := question_text;
        question_type := binary;
        research_context := to_prompt_section research;
        agent_forecasts := forecasts;
        cr_final_probability := final_prob;
        final_cdf := None;
        final_option_probs := None;
        reasoning_summary := reasoning |}.

Definition _forecast_numeric_agent (self : t) (agent : LLMAgent.t)
           (question_text resolution_criteria : string)
           (research : ResearchContext) (lower_bound upper_bound : Q)
           (open_lower open_upper : bool) : Err AgentForecast :=
  let user_message :=
    NUMERIC_FORECAST_TEMPLATE_format question_text resolution_criteria
      (str_float lower_bound) (str_float upper_bound)
      (str_bool open_lower) (str_bool open_upper)
      (to_prompt_section research) in
  response <-
    _call_llm post agent_max_retries agent (user user_message)
              (model self) ;;
  percentiles <- parse_percentiles response ;;
  median <- parse_median response ;;
  let reasoning := extract_reasoning response in
  Ok {| agent_name := LLMAgent.name agent;
        weight := LLMAgent.weight agent;
        initial_reasoning := "";
        initial_probability := None;
        peer_critique := "";
        final_probability :=
          Py.or_else median ((lower_bound + upper_bound) / 2);
        final_reasoning := reasoning |}.

Definition forecast_numeric (self : t) (question_id : Z)
           (question_text resolution_criteria : string)
           (lower_bound upper_bound : Q) (open_lower open_upper : bool)
           (use_asknews use_perplexity : bool) : Err CommitteeResult :=
  let research := research_of question_text use_asknews use_perplexity in
  forecasts <-
    mapM (fun agent =>
            _forecast_numeric_agent self agent question_text
              resolution_criteria research lower_bound upper_bound
              open_lower open_upper)
         (agents self) ;;
  let final_cdf := _aggregate_cdfs forecasts lower_bound upper_bound in
  let reasoning := _summarize_reasoning forecasts in
  Ok {| question_id := question_id;
        cr_question_text := question_text;
        question_type := numeric;
        research_context := to_prompt_section research;
        agent_forecasts := forecasts;
        cr_final_probability := (1 / 2)%R;
        final_cdf := Some final_cdf;
        final_option_probs := None;
        reasoning_summary := reasoning |}.

(** The per-agent renormalisation of [forecast_multiple_choice]:
    [{k: v / total}] when [total > 0], the parsed map otherwise. *)
Definition renormalize (option_probs : dict string Q) : dict string Q :=
  let total := Py.sum (map snd option_probs) in
  if Qlt_le_dec 0 total
  then map (fun kv => (fst kv, snd kv / total)) option_probs
  else option_probs.

(** One turn of [for agent in self.agents] in
    [forecast_multiple_choice]; the renormalised map is computed and
    then dropped, the forecast keeps the raw response only. *)
Definition forecast_multiple_choice_agent (self : t) (agent : LLMAgent.t)
           (question_text resolution_criteria : string)
           (options : list string) (research : ResearchContext)
  : Err AgentForecast :=
  let user_message :=
    MULTIPLE_CHOICE_TEMPLATE_format question_text resolution_criteria
      (join nl (map (fun opt => "- " ++ opt) options))
      (to_prompt_section research)
      (join nl (map (fun opt => opt ++ ": [probability]") options)) in
  response <-
    _call_llm post agent_max_retries agent (user user_message)
              (model self) ;;
  option_probs <- parse_option_probabilities response options ;;
  let option_probs := renormalize option_probs in
  Ok {| agent_name := LLMAgent.name agent;
        weight := LLMAgent.weight agent;
        initial_reasoning := "";
        initial_probability := None;
        peer_critique := "";
        final_probability := 1 # 2;
        final_reasoning := response |}.

Definition forecast_multiple_choice (self : t) (question_id : Z)
           (question_text resolution_criteria : string)
           (options : list string) (use_asknews use_perplexity : bool)
  : Err CommitteeResult :=
  let research := research_of question_text use_asknews use_perplexity in
  forecasts <-
    mapM (fun agent =>
            forecast_multiple_choice_agent self agent question_text
              resolution_criteria options research)
         (agents self) ;;
  let final_probs := _aggregate_multiple_choice forecasts options in
  let reasoning := _summarize_reasoning forecasts in
  Ok {| question_id := question_id;
        cr_question_text := question_text;
        question_type := multiple_choice;
        research_context := to_prompt_section research;
        agent_forecasts := forecasts;
        cr_final_probability := (1 / 2)%R;
        final_cdf := None;
        final_option_probs := Some final_probs;
        reasoning_summary := reasoning |}.

End Workflow.

End Forecaster.

(* ================================================================== *)
(** * [hashlib.md5], as the cache hashes its keys *)
(* ================================================================== *)

Module Hashlib.

Local Open Scope Z_scope.

Definition w32 (x : Z) : Z := x mod 2 ^ 32.

Definition rotl (x c : Z) : Z :=
  w32 (Z.lor (Z.shiftl x c) (Z.shiftr (w32 x) (32 - c))).

Definition lnot32 (x : Z) : Z := Z.lxor (w32 x) 0xffffffff.

(** [floor(2^32 * abs(sin(i + 1)))] for [i] from 0 to 63. *)
Definition K : list Z :=
  [ 0xd76aa478; 0xe8c7b756; 0x242070db; 0xc1bdceee;
    0xf57c0faf; 0x4787c62a; 0xa8304613; 0xfd469501;
    0x698098d8; 0x8b44f7af; 0xffff5bb1; 0x895cd7be;
    0x6b901122; 0xfd987193; 0xa679438e; 0x49b40821;
    0xf61e2562; 0xc040b340; 0x265e5a51; 0xe9b6c7aa;
    0xd62f105d; 0x02441453; 0xd8a1e681; 0xe7d3fbc8;
    0x21e1cde6; 0xc33707d6; 0xf4d50d87; 0x455a14ed;
    0xa9e3e905; 0xfcefa3f8; 0x676f02d9; 0x8d2a4c8a;
    0xfffa3942; 0x8771f681; 0x6d9d6122; 0xfde5380c;
    0xa4beea44; 0x4bdecfa9; 0xf6bb4b60; 0xbebfbc70;
    0x289b7ec6; 0xeaa127fa; 0xd4ef3085; 0x04881d05;
    0xd9d4d039; 0xe6db99e5; 0x1fa27cf8; 0xc4ac5665;
    0xf4292244; 0x432aff97; 0xab9423a7; 0xfc93a039;
    0x655b59c3; 0x8f0ccc92; 0xffeff47d; 0x85845dd1;
    0x6fa87e4f; 0xfe2ce6e0; 0xa3014314; 0x4e0811a1;
    0xf7537e82; 0xbd3af235; 0x2ad7d2bb; 0xeb86d391 ].

Definition shifts : list Z :=
  [ 7; 12; 17; 22; 7; 12; 17; 22; 7; 12; 17; 22; 7; 12; 17; 22;
    5; 9; 14; 20; 5; 9; 14; 20; 5; 9; 14; 20; 5; 9; 14; 20;
    4; 11; 16; 23; 4; 11; 16; 23; 4; 11; 16; 23; 4; 11; 16; 23;
    6; 10; 15; 21; 6; 10; 15; 21; 6; 10; 15; 21; 6; 10; 15; 21 ].

(** [str.encode()]: UTF-8 of code points below 256. *)
Definition utf8 (c : ascii) : list Z :=
  let n := Z.of_N (N_of_ascii c) in
  if n <? 128 then [n]
  else [Z.lor 0xc0 (Z.shiftr n 6); Z.lor 0x80 (Z.land n 0x3f)].

Definition encode (s : string) : list Z :=
  flat_map utf8 (list_ascii_of_string s).

(** Little-endian bytes of a word, and back. *)
Definition le_bytes (n : nat) (x : Z) : list Z :=
  map (fun i => Z.land (Z.shiftr x (8 * Z.of_nat i)) 0xff) (seq 0 n).

Fixpoint le_word (bs : list Z) : Z :=
  match bs with
  | [] => 0
  | b :: bs' => b + 256 * le_word bs'
  end.

(** The message followed by 0x80, zeros up to 56 modulo 64, and the
    bit length on eight bytes. *)
Definition pad (msg : list Z) : list Z :=
  let len := Z.of_nat (List.length msg) in
  let zeros := Z.to_nat ((55 - len) mod 64) in
  (msg ++ [0x80] ++ repeat 0 zeros ++ le_bytes 8 (w32 (8 * len) + 2 ^ 32 * w32 (Z.shiftr (8 * len) 32)))%list.

(** The sixteen words of each 64-byte block. *)
Fixpoint words (fuel : nat) (bs : list Z) : list Z :=
  match fuel, bs with
  | O, _ | _, [] => []
  | S fuel', _ => le_word (firstn 4 bs) :: words fuel' (skipn 4 bs)
  end.

Fixpoint blocks (fuel : nat) (ws : list Z) : list (list Z) :=
  match fuel, ws with
  | O, _ | _, [] => []
  | S fuel', _ => firstn 16 ws :: blocks fuel' (skipn 16 ws)
  end.

Definition state : Type := (Z * Z * Z * Z)%type.

Definition step (M : list Z) (st : state) (i : nat) : state :=
  let '(A, B, C, D) := st in
  let iz := Z.of_nat i in
  let '(F, g) :=
    if iz <? 16 then (Z.lor (Z.land B C) (Z.land (lnot32 B) D), iz)
    else if iz <? 32
         then (Z.lor (Z.land D B) (Z.land (lnot32 D) C), (5 * iz + 1) mod 16)
    else if iz <? 48 then (Z.lxor B (Z.lxor C D), (3 * iz + 5) mod 16)
    else (Z.lxor C (Z.lor B (lnot32 D)), (7 * iz) mod 16) in
  let F := w32 (F + A + nth i K 0 + nth (Z.to_nat g) M 0) in
  (D, w32 (B + rotl F (nth i shifts 0)), B, C).

Definition compress (st : state) (M : list Z) : state :=
  let '(a0, b0, c0, d0) := st in
  let '(A, B, C, D) := fold_left (step M) (seq 0 64) st in
  (w32 (a0 + A), w32 (b0 + B), w32 (c0 + C), w32 (d0 + D)).

Definition hex_digit (n : Z) : ascii :=
  if n <? 10 then ascii_of_N (Z.to_N (48 + n)) else ascii_of_N (Z.to_N (87 + n)).

Definition hex_byte (b : Z) : list ascii :=
  [hex_digit (b / 16); hex_digit (b mod 16)].

(** [hashlib.md5(data).hexdigest()] *)
Definition md5_hexdigest (data : list Z) : string :=
  let padded := pad data in
  let ws := words (List.length padded) padded in
  let '(a, b, c, d) :=
    fold_left compress (blocks (List.length ws) ws)
              (0x67452301, 0xefcdab89, 0x98badcfe, 0x10325476) in
  string_of_list_ascii
    (flat_map hex_byte
       (le_bytes 4 a ++ le_bytes 4 b ++ le_bytes 4 c ++ le_bytes 4 d)%list).

End Hashlib.

(* ================================================================== *)
(** * [research/adj_client.py]: the response cache *)
(* ================================================================== *)

Module ResponseCache.

Import Utils.

Section Cache.

(** The cached payloads. *)
Variable V : Type.

Record entry : Type := { data : V; timestamp : Q }.

(** The store is a [dict] in insertion order; the lock makes every
    operation atomic, and the clock reading [now] of an operation is
    an argument. *)
Record t : Type := {
  cache : dict string entry;
  ttl : Q;
  max_size : Z
}.

Definition new (ttl_seconds : Q) (max_size : Z) : t :=
  {| cache := []; ttl := ttl_seconds; max_size := max_size |}.

Definition _hash (key : string) : string :=
  Hashlib.md5_hexdigest (Hashlib.encode key).

Fixpoint lookup (k : string) (d : dict string entry) : option entry :=
  match d with
  | [] => None
  | (k', e) :: d' => if String.eqb k k' then Some e else lookup k d'
  end.

(** [del d[k]] *)
Fixpoint dict_del (k : string) (d : dict string entry)
  : dict string entry :=
  match d with
  | [] => []
  | (k', e) :: d' => if String.eqb k k' then d' else (k', e) :: dict_del k d'
  end.

Definition with_cache (self : t) (c : dict string entry) : t :=
  {| cache := c; ttl := ttl self; max_size := max_size self |}.

Definition get (self : t) (key : string) (now : Q) : option V * t :=
  let hashed := _hash key in
  match lookup hashed (cache self) with
  | Some e =>
      if Qlt_le_dec (now - timestamp e) (ttl self)
      then (Some (data e), self)
      else (None, with_cache self (dict_del hashed (cache self)))
  | None => (None, self)
  end.

(** [d.keys()] *)
Definition keys (d : dict string entry) : list string := map fst d.

(** [sorted(cache.keys(), key=timestamp)]: stable, oldest first. *)
Fixpoint insert_by_timestamp (a : string * entry)
         (xs : list (string * entry)) : list (string * entry) :=
  match xs with
  | [] => [a]
  | b :: xs' =>
      if Qlt_le_dec (timestamp (snd a)) (timestamp (snd b))
      then a :: xs
      else b :: insert_by_timestamp a xs'
  end.

Definition sorted_keys (d : dict string entry) : list string :=
  map fst (fold_left (fun acc a => insert_by_timestamp a acc) d []).

(** The eviction of [set]: the first [len // 4] keys, oldest first. *)
Definition evict (d : dict string entry) : dict string entry :=
  fold_left (fun c old_key => dict_del old_key c)
            (firstn (List.length d / 4) (sorted_keys d)) d.

Definition set (self : t) (key : string) (value : V) (now : Q) : t :=
  let c :=
    if (max_size self <=? Z.of_nat (List.length (cache self)))%Z
    then evict (cache self)
    else cache self in
  let hashed := _hash key in
  with_cache self
    (dict_set String.eqb hashed {| data := value; timestamp := now |} c).

Definition clear (self : t) : t := with_cache self [].

(** A run of [set] calls, each with its key, value and clock. *)
Definition set_all (self : t) (ops : list (string * V * Q)) : t :=
  fold_left (fun c op => set c (fst (fst op)) (snd (fst op)) (snd op))
            ops self.

Definition size (self : t) : nat := List.length (cache self).

(** The store holds each key once and at most [max_size] entries. *)
Definition within_bound (self : t) : Prop :=
  NoDup (keys (cache self))
  /\ (Z.of_nat (size self) <= max_size self)%Z.

End Cache.

End ResponseCache.

(* ================================================================== *)
(** * The aggregation rules as the design document words them *)
(* ================================================================== *)

Module Design.

Import Schemas Utils.

(** Weights normalised to sum to 1. *)
Definition normalized (weights : list Q) : list Q :=
  map (fun w => w / Py.sum weights) weights.

(** The weighted mean at grid point [j] of the agents' CDF vectors. *)
Definition weighted_mean_at (cdfs : list (list Q)) (weights : list Q)
           (j : nat) : Q :=
  Py.sum (map (fun cw => snd cw * nth j (fst cw) 0)
              (combine cdfs (normalized weights))).

(** Grid-point-wise weighted mean of the per-agent 201-point CDFs. *)
Definition weighted_mean_cdf (cdfs : list (list Q)) (weights : list Q)
  : list Q :=
  map (weighted_mean_at cdfs weights) (seq 0 201).

(** A per-agent option distribution: renormalised when its raw sum is
    positive, uniform over the options otherwise. *)
Definition agent_distribution (options : list string)
           (raw : dict string Q) (opt : string) : Q :=
  let value :=
    match Agents.dict_get opt raw with Some v => v | None => 0 end in
  let total := Py.sum (map snd raw) in
  if Qlt_le_dec 0 total then value / total
  else 1 / inject_Z (Z.of_nat (List.length options)).

(** The weight-averaged per-agent distributions, renormalised once
    more. *)
Definition pooled_option (options : list string)
           (raws : list (dict string Q)) (weights : list Q) (opt : string)
  : Q :=
  Py.sum (map (fun rw => snd rw * agent_distribution options (fst rw) opt)
              (combine raws (normalized weights))).

Definition weighted_mean_options (options : list string)
           (raws : list (dict string Q)) (weights : list Q)
  : dict string Q :=
  let pooled := map (fun opt => (opt, pooled_option options raws weights opt))
                    options in
  let total := Py.sum (map snd pooled) in
  map (fun kv => (fst kv, snd kv / total)) pooled.

(** The uniform-weight mean of binary forecasts: the same log-odds
    pooling with every weight equal to 1. *)
Definition uniform_weight_mean (probabilities : list R) : Err R :=
  aggregate_logit_space probabilities (map (fun _ => 1%R) probabilities).

(** The pooled log-odds of 0.6 (weight 1) and 0.8 (weight 2). *)
Definition pooled_logit : R :=
  ((1 * ln (6 / 10 / (1 - 6 / 10)) + 2 * ln (8 / 10 / (1 - 8 / 10))) / 3)%R.

(** The value each probability pattern states, when it matches. *)
Definition ok {A : Type} (m : Err A) : option A :=
  match m with Ok a => Some a | Raise _ => None end.

Definition stated_probability (text : string) : option Q :=
  match Re.search re_probability text with
  | Some m => ok (float (Re.group_str 1 m))
  | None => None
  end.

Definition stated_percent (text : string) : option Q :=
  match Re.search re_percent text with
  | Some m => option_map (fun v => v / 100) (ok (float (Re.group_str 1 m)))
  | None => None
  end.

Definition stated_ratio (text : string) : option Q :=
  match Re.search re_ratio text with
  | Some m =>
      match ok (float (Re.group_str 1 m)), ok (float (Re.group_str 2 m)) with
      | Some a, Some b => if Qlt_le_dec 0 b then Some (a / b) else None
      | _, _ => None
      end
  | None => None
  end.

Definition stated_chance (text : string) : option Q :=
  match Re.search re_chance text with
  | Some m =>
      option_map (fun v => if Qlt_le_dec 1 v then v / 100 else v)
                 (ok (float (Re.group_str 1 m)))
  | None => None
  end.

(** What agent [i] does in the critique phase of a committee of [n]:
    review the forecast at position [(i + 1) mod n]. *)
Definition critique_of (post : Agents.Transport) (retries : nat)
           (question model : string) (n : nat)
           (forecasts : list AgentForecast) (ia : nat * LLMAgent.t)
  : Err string :=
  reviewed <- index forecasts (Agents.reviewed_idx n (fst ia)) ;;
  Agents.peer_review post retries (snd ia) question reviewed model.

Definition no_match (r : Re.regex) (text : string) : Prop :=
  Re.search r text = None.

(** [v] is the value of the first pattern, in the order labelled
    probability, percentage, odds phrase, chance phrase, that matches
    [text]. *)
Definition first_match (text : string) (v : Q) : Prop :=
  stated_probability text = Some v
  \/ (no_match re_probability text /\ stated_percent text = Some v)
  \/ (no_match re_probability text /\ no_match re_percent text
      /\ stated_ratio text = Some v)
  \/ (no_match re_probability text /\ no_match re_percent text
      /\ no_match re_ratio text /\ stated_chance text = Some v).

Definition no_pattern (text : string) : Prop :=
  no_match re_probability text /\ no_match re_percent text
  /\ no_match re_ratio text /\ no_match re_chance text.

(** Where the [PROBABILITY:] label matches, what follows it is a
    number. *)
Definition well_labelled (text : string) : Prop :=
  forall m, Re.search re_probability text = Some m ->
            exists v, float (Re.group_str 1 m) = Ok v.

(** The value of the first pattern, in the order labelled probability,
    percentage, odds phrase, chance phrase, that yields one on [text];
    an odds phrase [A in B] yields [A / B] when [B > 0] and nothing
    otherwise. *)
Definition first_value (text : string) : option Q :=
  match stated_probability text with
  | Some v => Some v
  | None =>
      match stated_percent text with
      | Some v => Some v
      | None =>
          match stated_ratio text with
          | Some v => Some v
          | None => stated_chance text
          end
      end
  end.

(** A percentile level lies between 0 and 100. *)
Definition is_percentile (p : Z) : Prop := (0 <= p <= 100)%Z.

(** What the inner loop of [cdf_from_percentiles] knows about the item
    before the current one at abscissa [x]: its level is at most 100 and
    its value was not above [x]. *)
Definition prev_ok (x : Q) (prev : option (Z * Q)) : Prop :=
  match prev with
  | None => True
  | Some (pp, pv) => (pp <= 100)%Z /\ pv <= x
  end.

End Design.

(* ================================================================== *)
(** * Sample committees, transports and questions *)
(* ================================================================== *)

Module Examples.

Import Schemas Utils Agents.
Local Open Scope string_scope.

(** A completion service that answers with the persona and the request
    it was given. *)
Definition echo : Transport :=
  fun payload _ =>
    Some (system payload ++ nl ++ join nl (map content (messages payload))).

(** A completion service that always answers [reply]. *)
Definition always (reply : string) : Transport :=
  fun _ _ => Some reply.

Definition rain : string := "Will it rain in Lisbon tomorrow?".
Definition rain_criteria : string := "Resolves YES on any measurable rain.".

Definition no_research : ResearchContext :=
  {| question_text := rain;
     adj_prior_section := "";
     asknews_summary := "";
     perplexity_research := "" |}.

Definition sonnet : string := "claude-sonnet-4-20250514".

Definition solo : list LLMAgent.t :=
  create_committee (Some ["synthesizer"]).

Definition pair : list LLMAgent.t :=
  create_committee (Some ["base_rate_analyst"; "market_prior"]).

(** The first-round forecasts of [pair] under [echo]. *)
Definition pair_forecasts : list AgentForecast :=
  match run_initial_forecasts echo 3 pair rain rain_criteria no_research
                              sonnet with
  | Ok fs => fs
  | Raise _ => []
  end.

Definition analyst : LLMAgent.t :=
  new_agent {| AgentConfig.name := "base_rate_analyst";
               AgentConfig.system_prompt := Prompts.BASE_RATE_ANALYST_SYSTEM;
               AgentConfig.weight := 1 |}.

(** A first-round forecast of 0.7. *)
Definition seventy : AgentForecast :=
  {| agent_name := "base_rate_analyst";
     weight := 1;
     initial_reasoning := "Seven wet days in ten at this time of year.";
     initial_probability := Some (7 # 10);
     peer_critique := "";
     final_probability := 7 # 10;
     final_reasoning := "Seven wet days in ten at this time of year." |}.

Definition undecided : string := "I stand by my earlier view.".

(** [str(x)] for a whole, non-negative float: [0.0], [100.0]. *)
Definition str_whole (x : Q) : string :=
  str_N (Z.to_N (Qfloor x)) ++ ".0".

Definition committee : Forecaster.t := Forecaster.new None sonnet true.

Definition solo_committee : Forecaster.t :=
  Forecaster.new (Some ["synthesizer"]) sonnet true.

(** A research layer that finds nothing. *)
Definition no_search : string -> bool -> bool -> string :=
  fun _ _ _ => "".

Definition numeric_reply : string := "MEDIAN: 5 p10: 2 p50: 5 p90: 8".

Definition yes_no : list string := ["Yes"; "No"].
Definition choice_reply : string := "Yes: 0.9 No: 0.1".

(** Final binary forecasts of 0.6 and 0.8 with weights 1 and 2. *)
Definition sixty : AgentForecast :=
  {| agent_name := "base_rate_analyst";
     weight := 1;
     initial_reasoning := "";
     initial_probability := Some (6 # 10);
     peer_critique := "";
     final_probability := 6 # 10;
     final_reasoning := "" |}.

Definition eighty : AgentForecast :=
  {| agent_name := "market_prior";
     weight := 2;
     initial_reasoning := "";
     initial_probability := Some (8 # 10);
     peer_critique := "";
     final_probability := 8 # 10;
     final_reasoning := "" |}.

(** An even forecast from an agent of weight zero. *)
Definition muted : AgentForecast :=
  {| agent_name := "status_quo_anchor";
     weight := 0;
     initial_reasoning := "";
     initial_probability := Some (1 # 2);
     peer_critique := "";
     final_probability := 1 # 2;
     final_reasoning := "" |}.

(** Percentiles as an agent may state them, in any order. *)
Definition spread : dict Z Q := [(90%Z, 8); (10%Z, 2); (50%Z, 5)].

(** The critiques [pair] writes about them. *)
Definition pair_critiques : list string :=
  match run_peer_reviews echo 3 pair pair_forecasts rain sonnet with
  | Ok cs => cs
  | Raise _ => []
  end.

End Examples.

(* ================================================================== *)
(** * What a pattern can consume and capture *)
(* ================================================================== *)

Module ReSem.

Import Re.

(** The texts a pattern can consume at the head of its input. *)
Fixpoint lang (r : regex) (t : text) : Prop :=
  match r with
  | Eps => t = []
  | Chr p => exists c, t = [c] /\ p c = true
  | Seq r1 r2 => exists t1 t2, t = t1 ++ t2 /\ lang r1 t1 /\ lang r2 t2
  | Alt r1 r2 => lang r1 t \/ lang r2 t
  | Many _ p => forallb p t = true
  | Group _ r1 => lang r1 t
  | Look _ => t = []
  | Eos => t = []
  end.

(** The groups that every match of a pattern binds. *)
Fixpoint binds (r : regex) (n : nat) : Prop :=
  match r with
  | Seq r1 r2 => binds r1 n \/ binds r2 n
  | Alt r1 r2 => binds r1 n /\ binds r2 n
  | Group m r1 => n = m \/ binds r1 n
  | _ => False
  end.

(** Whatever group [n] of the pattern can capture satisfies [G n]. *)
Fixpoint groups_ok (G : nat -> text -> Prop) (r : regex) : Prop :=
  match r with
  | Seq r1 r2 | Alt r1 r2 => groups_ok G r1 /\ groups_ok G r2
  | Group n r1 => (forall t, lang r1 t -> G n t) /\ groups_ok G r1
  | Look r1 => groups_ok G r1
  | _ => True
  end.

(** The groups in [B] are bound and every bound group satisfies [G]. *)
Definition caps_ok (G : nat -> text -> Prop) (B : nat -> Prop) (cs : caps)
  : Prop :=
  (forall n, B n -> exists t, group n cs = Some t)
  /\ (forall n t, group n cs = Some t -> G n t).

(** Digits, optionally followed by a dot and digits: what
    [\d+(?:\.\d+)?] consumes. *)
Definition is_decimal (t : text) : Prop :=
  exists d1,
    d1 <> [] /\ forallb is_digit d1 = true
    /\ (t = d1
        \/ exists d2,
            d2 <> [] /\ forallb is_digit d2 = true
            /\ t = d1 ++ "."%char :: d2).

End ReSem.

(* ================================================================== *)
(** * Notions used to state the properties of the weighted mean *)
(* ================================================================== *)

Module Means.

(** The terms [p * w] of the weighted sum. *)
Definition products (ps ws : list R) : list R :=
  map (fun pw => (fst pw * snd pw)%R) (combine ps ws).

(** [max(0.0001, min(0.9999, p))], the clamp inside [logit]. *)
Definition clamp (p : R) : R := Rmax (1 / 10000) (Rmin (9999 / 10000) p).

End Means.

(* ================================================================== *)
(** * Notions used to state the properties of the committee *)
(* ================================================================== *)

Module Roster.

Import Schemas Agents.

(** [name in AGENT_CONFIGS] *)
Definition configured (name : string) : bool :=
  match dict_get name AGENT_CONFIGS with
  | Some _ => true
  | None => false
  end.

(** The request [_call_llm] sends for an agent. *)
Definition payload_of (self : LLMAgent.t) (messages : list Message)
           (model : string) : Payload :=
  {| Agents.model := model;
     max_tokens := 2000;
     system := LLMAgent.system_prompt self;
     Agents.messages := messages |}.

(** A forecast carries the name and the weight of its agent and a final
    probability in [0.01, 0.99]. *)
Definition forecast_of (agent : LLMAgent.t) (f : AgentForecast) : Prop :=
  agent_name f = LLMAgent.name agent
  /\ weight f = LLMAgent.weight agent
  /\ 1 # 100 <= final_probability f <= 99 # 100.

End Roster.

(* ================================================================== *)
(** * Runs of cache operations *)
(* ================================================================== *)

Module CacheOps.

Import Utils ResponseCache.

Section Ops.

Variable V : Type.

(** One call on the cache, with the clock reading it sees. *)
Inductive op : Type :=
| op_set (key : string) (value : V) (now : Q)
| op_get (key : string) (now : Q)
| op_clear.

Definition apply (self : t V) (o : op) : t V :=
  match o with
  | op_set key value now => set self key value now
  | op_get key now => snd (get self key now)
  | op_clear => clear self
  end.

Definition run (self : t V) (ops : list op) : t V :=
  fold_left apply ops self.

(** The entries in timestamp order, as [set] sorts them. *)
Definition by_timestamp (d : dict string (entry V))
  : list (string * entry V) :=
  fold_left (fun acc a => insert_by_timestamp a acc) d [].

Definition not_newer (a b : string * entry V) : Prop :=
  timestamp (snd a) <= timestamp (snd b).

(** Every item is no newer than the items after it. *)
Fixpoint oldest_first (xs : list (string * entry V)) : Prop :=
  match xs with
  | [] => True
  | a :: xs' => Forall (not_newer a) xs' /\ oldest_first xs'
  end.

(** [for old_key in ks: del d[old_key]] *)
Definition delete_all (ks : list string) (d : dict string (entry V))
  : dict string (entry V) :=
  fold_left (fun c old_key => dict_del old_key c) ks d.

End Ops.

Arguments op_set {V} key value now.
Arguments op_get {V} key now.
Arguments op_clear {V}.

End CacheOps.

(* ================================================================== *)
(** * [research/adj_client.py]: requests through the cache *)
(* ================================================================== *)

Module AdjClient.

Import Utils ResponseCache.
Local Open Scope string_scope.

Section Client.

(** A decoded JSON body other than [null]; [None] is Python's [None]. *)
Variable J : Type.

Record request : Type := {
  method : string;
  endpoint : string;
  (** [str(params)] and [str(json_data)], as the cache key renders
      them. *)
  params : string;
  json_data : string
}.

(** What [session.request] gives back: a response with its status, the
    outcome of [response.json()] ([None] when decoding raises) and
    [response.text()], or one of the two errors the method handles. *)
Inductive reply : Type :=
| response (status : Z) (json : option (option J)) (text : string)
| timeout_error
| client_error.

Inductive error : Type :=
| ApiError (status : Z) (text : string)
| TimeoutError
| ClientError
| DecodeError.

Inductive outcome : Type :=
| returned (data : option J)
| raised (e : error).

Definition cache_key (r : request) : string :=
  method r ++ ":" ++ endpoint r ++ ":" ++ params r ++ ":" ++ json_data r.

(** [AdjClient._request]: [send] is the session with the URL and the
    headers of the client; [checked] and [stored] are the clock readings
    of the cache lookup and of the cache write. *)
Definition _request (send : request -> reply) (self : t (option J))
           (r : request) (use_cache : bool) (checked stored : Q)
  : outcome * t (option J) :=
  let key := cache_key r in
  let (cached, self) :=
    if use_cache then get self key checked else (None, self) in
  match cached with
  | Some (Some data) => (returned (Some data), self)
  | _ =>
      match send r with
      | response status json text =>
          if (status =? 200)%Z then
            match json with
            | Some data =>
                (returned data,
                 if use_cache then set self key data stored else self)
            | None => (raised DecodeError, self)
            end
          else if (status =? 404)%Z then (returned None, self)
          else (raised (ApiError status (substring 0 200 text)), self)
      | timeout_error => (raised TimeoutError, self)
      | client_error => (raised ClientError, self)
      end
  end.

End Client.

Arguments timeout_error {J}.
Arguments client_error {J}.

End AdjClient.

(* ================================================================== *)
(** * Labels found in a response *)
(* ================================================================== *)

Module Labels.

Import Re Utils.

(** Whether [label: number] occurs in the text, as [re.search] with the
    labelled pattern decides it. *)
Definition found (label text : string) : bool :=
  match search (re_labelled label) text with
  | Some _ => true
  | None => false
  end.

Definition level_label (p : N) : string := String "p" (str_N p).

(** The percentile levels that the text states, in increasing order. *)
Definition stated_levels (text : string) : list N :=
  filter (fun p => found (level_label p) text) percentile_levels.

(** A monotone 201-point CDF from 0 to 1. *)
Definition well_formed_cdf (cdf : list Q) : Prop :=
  List.length cdf = 201%nat
  /\ (forall i, (i < 200)%nat -> nth i cdf 0 <= nth (S i) cdf 0)
  /\ nth 0 cdf 0 = 0
  /\ nth 200 cdf 0 = 1.

End Labels.

(* ================================================================== *)
(** * [main.py]: the single-agent forecaster *)
(* ================================================================== *)

Module SimpleVoxForecaster.

Import Re Utils.
Local Open Scope string_scope.

(** [Probability:\s*([\d.]+)%], ignoring case. *)
Definition re_probability_percent : regex :=
  Seq (lit_i "Probability:")
      (Seq (Many true is_space)
           (Seq (Group 1 (plus is_digit_or_dot)) (Chr (chr_i "%")))).

(** [{re.escape(opt)}:\s*([\d.]+)%], ignoring case. *)
Definition re_option_percent (opt : string) : regex :=
  Seq (lit_i opt)
      (Seq (Chr (chr_i ":"))
           (Seq (Many true is_space)
                (Seq (Group 1 (plus is_digit_or_dot)) (Chr (chr_i "%"))))).

(** What [_run_forecast_on_binary] makes of the reply [reasoning] of
    the model: the prediction value and the reasoning. *)
Definition _run_forecast_on_binary (reasoning : string)
  : Err (Q * string) :=
  prob <-
    match search re_probability_percent reasoning with
    | Some m =>
        g <- float (group_str 1 m) ;;
        let prob := g / 100 in
        Ok (Py.max (1 # 100) (Py.min (99 # 100) prob))
    | None => Ok (1 # 2)
    end ;;
  Ok (prob, reasoning).

(** [for opt in question.options: ...], filling [probs]. *)
Fixpoint option_percents (reasoning : string) (options : list string)
         (probs : dict string Q) : Err (dict string Q) :=
  match options with
  | [] => Ok probs
  | opt :: options' =>
      match search (re_option_percent opt) reasoning with
      | Some m =>
          g <- float (group_str 1 m) ;;
          option_percents reasoning options'
            (dict_set String.eqb opt (g / 100) probs)
      | None => option_percents reasoning options' probs
      end
  end.

(** [{opt: 1.0 / len(options) for opt in options}] *)
Definition uniform (options : list string) : dict string Q :=
  fold_left
    (fun d opt =>
       dict_set String.eqb opt (1 / inject_Z (Z.of_nat (List.length options))) d)
    options [].

(** What [_run_forecast_on_multiple_choice] computes from the reply:
    the map [probs], in exact arithmetic, and the reasoning.  The
    method goes on to wrap the items of [probs] in the library's
    [PredictedOptionList], which is outside this development. *)
Definition _run_forecast_on_multiple_choice (options : list string)
           (reasoning : string) : Err (dict string Q * string) :=
  probs <- option_percents reasoning options [] ;;
  let total := Py.sum (map snd probs) in
  let probs :=
    if Qlt_le_dec 0 total
    then map (fun kv => (fst kv, snd kv / total)) probs
    else uniform options in
  Ok (probs, reasoning).

(** The central prediction that [_run_forecast_on_numeric] hands to
    [NumericDistribution.from_central_prediction]. *)
Definition _run_forecast_on_numeric (lower_bound upper_bound : Q)
           (reasoning : string) : Err Q :=
  match search re_median reasoning with
  | Some m => float (group_str 1 m)
  | None => Ok ((lower_bound + upper_bound) / 2)
  end.

End SimpleVoxForecaster.

(* ================================================================== *)
(** * Labels inside a text *)
(* ================================================================== *)

Module Occurs.

Import Re Utils.

(** The rest of [s] after [label] at its head, letter case ignored. *)
Fixpoint skip_label (label : string) (s : text) : option text :=
  match label with
  | EmptyString => Some s
  | String c label' =>
      match s with
      | d :: s' => if chr_i c d then skip_label label' s' else None
      | [] => None
      end
  end.

(** [label] occurs somewhere in [t], in any letter case. *)
Definition occurs (label : string) (t : text) : Prop :=
  exists a b, skip_label label b <> None /\ t = (a ++ b)%list.

(** No white space at either end. *)
Definition stripped (t : text) : Prop :=
  lstrip t = t /\ lstrip (rev t) = rev t.

(** [s.strip()] on the characters. *)
Definition strip_text (t : text) : text :=
  rev (lstrip (rev (lstrip t))).

End Occurs.

(* ================================================================== *)
(** * Further samples *)
(* ================================================================== *)

Module Samples.

Import Schemas Utils Agents Examples.
Local Open Scope string_scope.

Definition pair_committee : Forecaster.t :=
  Forecaster.new (Some ["base_rate_analyst"; "market_prior"]) sonnet true.

(** The revisions of [pair] under [echo]. *)
Definition pair_revised : list AgentForecast :=
  match run_revisions echo 3 pair pair_forecasts pair_critiques rain sonnet with
  | Ok fs => fs
  | Raise _ => []
  end.

Definition markets_request : AdjClient.request :=
  {| AdjClient.method := "GET";
     AdjClient.endpoint := "/markets";
     AdjClient.params := "{'limit': 10}";
     AdjClient.json_data := "None" |}.

(** A service that answers every request with one body. *)
Definition answers (body : option string)
  : AdjClient.request -> AdjClient.reply string :=
  fun _ => AdjClient.response 200 (Some body) "".

(** A service that is down. *)
Definition down : AdjClient.request -> AdjClient.reply string :=
  fun _ => AdjClient.timeout_error.

Definition empty_cache : ResponseCache.t (option string) :=
  ResponseCache.new (option string) 300 1000.

(** What [numeric_reply] and [choice_reply] state. *)
Definition numeric_percentiles : dict Z Q :=
  [(10%Z, 2); (50%Z, 5); (90%Z, 8)].

Definition choice_probs : dict string Q := [("Yes", 9 # 10); ("No", 1 # 10)].

Definition percent_reply : string := "Yes: 90% No: 30%".

(** What the single-agent forecaster makes of [percent_reply]. *)
Definition percent_probs : dict string Q :=
  match SimpleVoxForecaster._run_forecast_on_multiple_choice yes_no
          percent_reply with
  | Ok (probs, _) => probs
  | Raise _ => []
  end.

End Samples.

(* ================================================================== *)
(** * Properties: the peer-review ring *)
(* ================================================================== *)

Lemma bind_ok {A B : Type} (m : Err A) (k : A -> Err B) (b : B) :
  Py.bind m k = Ok b -> exists a, m = Ok a /\ k a = Ok b.
Proof.
  destruct m as [a|e]; simpl; intros H; [eauto | discriminate].
Qed.

Section ErrLemmas.

Context {A B : Type}.

Lemma mapM_length (f : A -> Err B) (xs : list A) (ys : list B) :
  mapM f xs = Ok ys -> List.length ys = List.length xs.
Proof.
  revert ys; induction xs as [|x xs IH]; simpl; intros ys H.
  - inversion H; reflexivity.
  - apply bind_ok in H as (y & _ & H).
    destruct (mapM f xs) as [ys'|e]; simpl in H; [|discriminate].
    inversion H; subst; simpl; f_equal; auto.
Qed.

Lemma mapM_nth (f : A -> Err B) (xs : list A) (ys : list B) :
  mapM f xs = Ok ys ->
  forall i x, nth_error xs i = Some x ->
              exists y, nth_error ys i = Some y /\ f x = Ok y.
Proof.
  revert ys; induction xs as [|x xs IH]; simpl; intros ys H i x0 Hi.
  - destruct i; discriminate.
  - apply bind_ok in H as (y & Hy & H).
    destruct (mapM f xs) as [ys'|e] eqn:E; simpl in H; [|discriminate].
    inversion H; subst; clear H.
    destruct i as [|i]; simpl in *.
    + inversion Hi; subst; eauto.
    + eapply IH; eauto.
Qed.

Lemma mapM_all_ok (f : A -> Err B) (xs : list A) :
  (forall x, In x xs -> exists y, f x = Ok y) ->
  exists ys, mapM f xs = Ok ys.
Proof.
  induction xs as [|x xs IH]; simpl; intros H; [eauto|].
  destruct (H x (or_introl eq_refl)) as (y & Hy); rewrite Hy; simpl.
  destruct IH as (ys & Hys); [intros; apply H; auto|].
  rewrite Hys; simpl; eauto.
Qed.

End ErrLemmas.

Section Ring.

Import Schemas Utils Agents.
Local Open Scope nat_scope.

Variable post : Transport.
Variable retries : nat.
Variables question model : string.

Lemma run_peer_reviews_loop_mapM n forecasts todo critiques :
  run_peer_reviews_loop post retries n forecasts question model todo critiques
  = (rs <- mapM (Design.critique_of post retries question model n forecasts) todo ;; Ok (critiques ++ rs)).
Proof.
  revert critiques; induction todo as [|[i agent] todo IH]; intros critiques.
  - simpl; now rewrite app_nil_r.
  - simpl; unfold Design.critique_of at 1; simpl.
    destruct (index forecasts (reviewed_idx n i)) as [reviewed|e]; simpl; [|reflexivity].
    destruct (peer_review post retries agent question reviewed model)
      as [c|e]; simpl; [|reflexivity].
    rewrite IH.
    destruct (mapM (Design.critique_of post retries question model n forecasts) todo) as [rs|e]; simpl; [|reflexivity].
    now rewrite <- app_assoc.
Qed.

Lemma run_peer_reviews_mapM agents forecasts :
  run_peer_reviews post retries agents forecasts question model
  = mapM (Design.critique_of post retries question model (List.length agents) forecasts) (enumerate agents).
Proof.
  unfold run_peer_reviews; rewrite run_peer_reviews_loop_mapM.
  destruct (mapM _ _); reflexivity.
Qed.

Lemma enumerate_from_nth {X : Type} (xs : list X) k i x :
  nth_error xs i = Some x ->
  nth_error (enumerate_from k xs) i = Some (k + i, x).
Proof.
  revert k i; induction xs as [|y xs IH]; intros k [|i] H; simpl in *;
    try discriminate.
  - inversion H; subst; now rewrite Nat.add_0_r.
  - rewrite (IH (S k) i H); f_equal; f_equal; lia.
Qed.

Lemma enumerate_from_length {X : Type} (xs : list X) k :
  List.length (enumerate_from k xs) = List.length xs.
Proof. revert k; induction xs; simpl; auto. Qed.

Lemma reviewed_idx_lt n i : 0 < n -> reviewed_idx n i < n.
Proof. intros; unfold reviewed_idx; apply Nat.mod_upper_bound; lia. Qed.

Lemma reviewed_idx_rotation n :
  map (reviewed_idx (S n)) (seq 0 (S n)) = seq 1 n ++ [0].
Proof.
  rewrite seq_S, map_app; cbn [map Nat.add]; f_equal.
  - rewrite <- seq_shift; apply map_ext_in; intros i Hi.
    apply in_seq in Hi; unfold reviewed_idx.
    rewrite Nat.mod_small; lia.
  - unfold reviewed_idx; replace (n + 1) with (S n) by lia.
    now rewrite Nat.Div0.mod_same.
Qed.

Lemma reviewed_idx_no_fixpoint n i : 2 <= n -> i < n -> reviewed_idx n i <> i.
Proof.
  intros Hn Hi; unfold reviewed_idx.
  destruct (Nat.eq_dec (i + 1) n) as [E|E].
  - rewrite E, Nat.Div0.mod_same; lia.
  - rewrite Nat.mod_small; lia.
Qed.

End Ring.

Section RingClaims.

Import Schemas Utils Agents Examples.
Local Open Scope nat_scope.

(** C2 (as amended): in the peer-critique phase of a committee of [n]
    agents, agent [i] critiques the forecast at position [(i + 1) mod n]
    of the committee order; the reviewed positions are a rearrangement
    of the agents' positions, so every agent is critic exactly once and
    critiqued exactly once; and when [n >= 2] no agent critiques its own
    forecast. *)
Theorem peer_review_ring :
  forall (post : Transport) (retries : nat) (question model : string)
         (agents : list LLMAgent.t) (forecasts : list AgentForecast),
    run_peer_reviews post retries agents forecasts question model
    = mapM (Design.critique_of post retries question model
                               (List.length agents) forecasts)
           (enumerate agents)
    /\ (forall i agent,
           nth_error agents i = Some agent ->
           nth_error (enumerate agents) i = Some (i, agent))
    /\ List.length (enumerate agents) = List.length agents
    /\ Permutation (map (reviewed_idx (List.length agents))
                        (seq 0 (List.length agents)))
                   (seq 0 (List.length agents))
    /\ (2 <= List.length agents ->
        forall i, i < List.length agents ->
                  reviewed_idx (List.length agents) i <> i).
Proof.
  intros post retries question model agents forecasts.
  split; [apply run_peer_reviews_mapM|].
  split; [intros i agent H; apply (@enumerate_from_nth _ agents 0 i agent H)|].
  split; [apply enumerate_from_length|].
  split; [|intros Hn i Hi; now apply reviewed_idx_no_fixpoint].
  destruct (List.length agents) as [|n]; [constructor|].
  rewrite reviewed_idx_rotation.
  change (seq 0 (S n)) with ([0] ++ seq 1 n).
  apply Permutation_app_comm.
Qed.

Lemma peer_review_ring_witness :
  2 <= List.length (create_committee None)
  /\ forall i, i < List.length (create_committee None) ->
               reviewed_idx (List.length (create_committee None)) i <> i.
Proof.
  assert (H : 2 <= List.length (create_committee None))
    by (vm_compute; lia).
  split; [exact H|].
  exact (proj2 (proj2 (proj2 (proj2
           (peer_review_ring echo 3 rain sonnet (create_committee None) []))))
           H).
Defined.

(** C2 fails for a committee of one: the only agent reviews the forecast
    at position [(0 + 1) mod 1 = 0], which is its own. *)
Lemma single_agent_reviews_own_forecast :
  exists agent forecast,
    solo = [agent]
    /\ run_initial_forecasts echo 3 solo rain rain_criteria no_research
                             sonnet = Ok [forecast]
    /\ agent_name forecast = LLMAgent.name agent
    /\ reviewed_idx (List.length solo) 0 = 0
    /\ run_peer_reviews echo 3 solo [forecast] rain sonnet
       = (critique <- peer_review echo 3 agent rain forecast sonnet ;;
          Ok [critique]).
Proof.
  eexists; eexists.
  split; [reflexivity|].
  split; [vm_compute; reflexivity|].
  repeat split; vm_compute; reflexivity.
Qed.

Lemma zip3_nth {X Y Z : Type} (xs : list X) (ys : list Y) (zs : list Z)
      i x y z :
  nth_error (zip3 xs ys zs) i = Some (x, y, z) ->
  nth_error xs i = Some x /\ nth_error ys i = Some y
  /\ nth_error zs i = Some z.
Proof.
  revert ys zs i.
  induction xs as [|x0 xs IH]; intros [|y0 ys] [|z0 zs] [|i] H;
    simpl in H; try discriminate.
  - inversion H; subst; auto.
  - apply IH in H; simpl; auto.
Qed.

Lemma zip3_length {X Y Z : Type} (xs : list X) (ys : list Y) (zs : list Z) :
  List.length ys = List.length xs -> List.length zs = List.length xs ->
  List.length (zip3 xs ys zs) = List.length xs.
Proof.
  revert ys zs.
  induction xs as [|x0 xs IH]; intros [|y0 ys] [|z0 zs] H1 H2;
    simpl in *; try discriminate; auto.
Qed.

(** C1, as the code has it: the revision phase makes one call per agent,
    and the critique it hands to agent [i] is [critiques[i]], which is
    the critique agent [i] itself wrote about the forecast at position
    [(i + 1) mod n] (not the one written about agent [i]'s forecast). *)
Theorem revision_gets_written_critique :
  forall (post : Transport) (retries : nat) (question model : string)
         (agents : list LLMAgent.t) (forecasts : list AgentForecast)
         (critiques : list string),
    List.length forecasts = List.length agents ->
    run_peer_reviews post retries agents forecasts question model
    = Ok critiques ->
    List.length (revision_calls agents forecasts critiques)
    = List.length agents
    /\ forall i agent forecast critique,
        nth_error (revision_calls agents forecasts critiques) i
        = Some (agent, forecast, critique) ->
        nth_error agents i = Some agent
        /\ nth_error forecasts i = Some forecast
        /\ Design.critique_of post retries question model
                              (List.length agents) forecasts (i, agent)
           = Ok critique.
Proof.
  intros post retries question model agents forecasts critiques Hlen Hrun.
  rewrite run_peer_reviews_mapM in Hrun.
  pose proof (mapM_length _ _ Hrun) as Hc.
  unfold enumerate in Hc; rewrite enumerate_from_length in Hc.
  split; [now apply zip3_length|].
  intros i agent forecast critique Hi.
  apply zip3_nth in Hi as (Ha & Hf & Hcr).
  repeat split; auto.
  destruct (mapM_nth _ _ Hrun i (@enumerate_from_nth _ agents 0 i agent Ha))
    as (y & Hy & Hrev).
  simpl in Hy; rewrite Hcr in Hy; inversion Hy; subst; exact Hrev.
Qed.

Lemma revision_gets_written_critique_witness :
  List.length pair_forecasts = List.length pair
  /\ run_peer_reviews echo 3 pair pair_forecasts rain sonnet
     = Ok pair_critiques
  /\ forall i agent forecast critique,
      nth_error (revision_calls pair pair_forecasts pair_critiques) i
      = Some (agent, forecast, critique) ->
      nth_error pair i = Some agent
      /\ nth_error pair_forecasts i = Some forecast
      /\ Design.critique_of echo 3 rain sonnet (List.length pair)
                            pair_forecasts (i, agent)
         = Ok critique.
Proof.
  assert (H1 : List.length pair_forecasts = List.length pair)
    by (vm_compute; reflexivity).
  assert (H2 : run_peer_reviews echo 3 pair pair_forecasts rain sonnet
               = Ok pair_critiques) by (vm_compute; reflexivity).
  split; [exact H1|]; split; [exact H2|].
  exact (proj2 (revision_gets_written_critique echo 3 rain sonnet pair
                  pair_forecasts H1 H2)).
Defined.

(** In a committee of two under [echo], the first agent revises with the
    critique it wrote about the second agent's forecast, which is not the
    critique the second agent wrote about the first agent's forecast. *)
Lemma pair_revision_critique_mismatch :
  exists a0 a1 f0 f1 c0 c1,
    pair = [a0; a1]
    /\ pair_forecasts = [f0; f1]
    /\ agent_name f0 = LLMAgent.name a0
    /\ agent_name f1 = LLMAgent.name a1
    /\ peer_review echo 3 a0 rain f1 sonnet = Ok c0
    /\ peer_review echo 3 a1 rain f0 sonnet = Ok c1
    /\ c0 <> c1
    /\ run_peer_reviews echo 3 pair pair_forecasts rain sonnet
       = Ok [c0; c1]
    /\ revision_calls pair pair_forecasts [c0; c1]
       = [(a0, f0, c0); (a1, f1, c1)].
Proof.
  do 6 eexists.
  split; [reflexivity|].
  split; [vm_compute; reflexivity|].
  split; [reflexivity|]. split; [reflexivity|].
  split; [vm_compute; reflexivity|].
  split; [vm_compute; reflexivity|].
  split; [apply String.eqb_neq; vm_compute; reflexivity|].
  split; vm_compute; reflexivity.
Qed.

End RingClaims.

(* ================================================================== *)
(** * Properties: probabilities parsed from a response *)
(* ================================================================== *)

Section Parsing.

Import Schemas Prompts Utils Agents Design Examples.

Lemma max_lower a b : a <= Py.max a b.
Proof.
  unfold Py.max; destruct (Qlt_le_dec a b); [now apply Qlt_le_weak | apply Qle_refl].
Qed.

Lemma max_upper a b c : a <= c -> b <= c -> Py.max a b <= c.
Proof. unfold Py.max; destruct (Qlt_le_dec a b); auto. Qed.

Lemma min_upper a b : Py.min a b <= a.
Proof.
  unfold Py.min; destruct (Qlt_le_dec b a); [now apply Qlt_le_weak | apply Qle_refl].
Qed.

Lemma normalize_probability_range v :
  1 # 100 <= normalize_probability v /\ normalize_probability v <= 99 # 100.
Proof.
  unfold normalize_probability; split; [apply max_lower|].
  apply max_upper; [discriminate | apply min_upper].
Qed.

Lemma normalize_probability_truthy v d :
  Py.or_else (Some (normalize_probability v)) d = normalize_probability v.
Proof.
  unfold Py.or_else.
  destruct (Qeq_bool (normalize_probability v) 0) eqn:E; [|reflexivity].
  apply Qeq_bool_eq in E.
  pose proof (proj1 (normalize_probability_range v)) as H.
  rewrite E in H; unfold Qle in H; simpl in H; lia.
Qed.

Lemma ok_some {X : Type} (m : Err X) (x : X) : ok m = Some x -> m = Ok x.
Proof. destruct m; simpl; congruence. Qed.

Lemma parse_probability_first_match text v :
  first_match text v ->
  parse_probability text = Ok (Some (normalize_probability v)).
Proof.
  unfold first_match, no_match, stated_probability, stated_percent,
    stated_ratio, stated_chance, parse_probability,
    parse_probability_chance.
  intros [H | [(N1 & H) | [(N1 & N2 & H) | (N1 & N2 & N3 & H)]]].
  - destruct (Re.search re_probability text) as [m|]; [|discriminate].
    apply ok_some in H; rewrite H; reflexivity.
  - rewrite N1.
    destruct (Re.search re_percent text) as [m|]; [|discriminate].
    destruct (float (Re.group_str 1 m)) as [g|e]; simpl in *; [|discriminate].
    inversion H; reflexivity.
  - rewrite N1, N2.
    destruct (Re.search re_ratio text) as [m|]; [|discriminate].
    destruct (float (Re.group_str 1 m)) as [a|e]; simpl in *; [|discriminate].
    destruct (float (Re.group_str 2 m)) as [b|e]; simpl in *; [|discriminate].
    destruct (Qlt_le_dec 0 b); [|discriminate].
    inversion H; reflexivity.
  - rewrite N1, N2, N3.
    destruct (Re.search re_chance text) as [m|]; [|discriminate].
    destruct (float (Re.group_str 1 m)) as [g|e]; simpl in *; [|discriminate].
    inversion H; reflexivity.
Qed.

Lemma parse_probability_no_pattern text :
  no_pattern text -> parse_probability text = Ok None.
Proof.
  unfold no_pattern, no_match, parse_probability, parse_probability_chance.
  intros (N1 & N2 & N3 & N4); now rewrite N1, N2, N3, N4.
Qed.

(** C7 fails for the revise operation: on a response in which no
    pattern matches it returns the initial probability of the forecast
    under revision, here 0.7, not the neutral 0.5. *)
Lemma revise_without_match_keeps_initial :
  no_pattern undecided
  /\ exists f,
      revise_forecast (always undecided) 3 analyst rain seventy
                      "Too confident." sonnet = Ok f
      /\ final_probability f = 7 # 10
      /\ ~ final_probability f == 1 # 2.
Proof.
  split.
  - repeat split; vm_compute; reflexivity.
  - eexists; split; [vm_compute; reflexivity|].
    split; [reflexivity|].
    cbn [final_probability]; unfold Qeq; simpl; lia.
Qed.

End Parsing.

(* ================================================================== *)
(** * Properties: the median of a numeric forecast *)
(* ================================================================== *)

Section Median.

Import Schemas Prompts Utils Agents Forecaster Design Examples.

Lemma or_else_zero (m d : Q) : m == 0 -> Py.or_else (Some m) d = d.
Proof.
  intros H; unfold Py.or_else.
  now rewrite (proj2 (Qeq_bool_iff m 0) H).
Qed.

Lemma or_else_nonzero (m d : Q) : ~ m == 0 -> Py.or_else (Some m) d = m.
Proof.
  intros H; unfold Py.or_else.
  destruct (Qeq_bool m 0) eqn:E; [|reflexivity].
  now apply Qeq_bool_eq in E.
Qed.

(** C10: in the numeric path an agent's [final_probability] is the
    midpoint [(lower_bound + upper_bound) / 2] when the response has no
    [MEDIAN] line, and also when it states a median whose parsed value
    is zero, as [MEDIAN: 0] does; any other parsed median is kept. *)
Theorem zero_median_reads_as_missing :
  forall (post : Transport) (retries : nat) (str_float : Q -> string)
         (self : Forecaster.t) (agent : LLMAgent.t)
         (question criteria : string) (research : ResearchContext)
         (lower upper : Q) (open_lower open_upper : bool)
         (response : string) (percentiles : dict Z Q) (median : option Q),
    _call_llm post retries agent
      (user (NUMERIC_FORECAST_TEMPLATE_format question criteria
               (str_float lower) (str_float upper)
               (str_bool open_lower) (str_bool open_upper)
               (to_prompt_section research)))
      (Forecaster.model self) = Ok response ->
    parse_percentiles response = Ok percentiles ->
    parse_median response = Ok median ->
    parse_median "MEDIAN: 0" = Ok (Some 0)
    /\ exists f,
        _forecast_numeric_agent post retries str_float self agent question
          criteria research lower upper open_lower open_upper = Ok f
        /\ match median with
           | None => final_probability f = (lower + upper) / 2
           | Some m =>
               (m == 0 -> final_probability f = (lower + upper) / 2)
               /\ (~ m == 0 -> final_probability f = m)
           end.
Proof.
  intros post retries str_float self agent question criteria research
         lower upper open_lower open_upper response percentiles median
         Hcall Hper Hmed.
  split; [vm_compute; reflexivity|].
  unfold _forecast_numeric_agent.
  rewrite Hcall; cbn [Py.bind]; rewrite Hper; cbn [Py.bind].
  rewrite Hmed; cbn [Py.bind].
  eexists; split; [reflexivity|]; cbn [final_probability].
  destruct median as [m|]; [|reflexivity].
  split; intros H; [now apply or_else_zero | now apply or_else_nonzero].
Qed.

Lemma zero_median_reads_as_missing_witness :
  exists f,
    _forecast_numeric_agent (always "MEDIAN: 0") 3 str_whole committee
      analyst rain rain_criteria no_research 0 100 false false = Ok f
    /\ final_probability f = (0 + 100) / 2.
Proof.
  destruct (zero_median_reads_as_missing
              (always "MEDIAN: 0") 3 str_whole committee analyst rain
              rain_criteria no_research 0 100 false false
              (response := "MEDIAN: 0") (percentiles := [])
              (median := Some 0))
    as (_ & f & Hf & Hz & _);
    [vm_compute; reflexivity | vm_compute; reflexivity
     | vm_compute; reflexivity |].
  exists f; split; [exact Hf | apply Hz; reflexivity].
Defined.

End Median.

(* ================================================================== *)
(** * Properties: the CDF rebuilt from percentiles *)
(* ================================================================== *)

Section Cdf.

Import Utils Design.
Local Open Scope Q_scope.

Lemma max_ge_second a b : b <= Py.max a b.
Proof.
  unfold Py.max; destruct (Qlt_le_dec a b); [apply Qle_refl | assumption].
Qed.

Lemma max_le a b c : a <= c -> b <= c -> Py.max a b <= c.
Proof. unfold Py.max; destruct (Qlt_le_dec a b); auto. Qed.

Lemma max_one b : b <= 1 -> Py.max 1 b = 1.
Proof.
  intros H; unfold Py.max; destruct (Qlt_le_dec 1 b) as [L|L]; [|reflexivity].
  exfalso; apply (Qlt_not_le _ _ L H).
Qed.

(** ** The forward max-scan *)

Lemma max_scan_length prev rest :
  List.length (max_scan prev rest) = List.length rest.
Proof. revert prev; induction rest; simpl; auto. Qed.

Lemma max_scan_nondecreasing rest :
  forall prev i,
    (S i < List.length (prev :: max_scan prev rest))%nat ->
    nth i (prev :: max_scan prev rest) 0
    <= nth (S i) (prev :: max_scan prev rest) 0.
Proof.
  induction rest as [|c rest IH]; intros prev i Hi; simpl in Hi.
  - lia.
  - destruct i as [|i].
    + simpl; apply max_ge_second.
    + change (nth i (Py.max c prev :: max_scan (Py.max c prev) rest) 0
              <= nth (S i) (Py.max c prev :: max_scan (Py.max c prev) rest) 0).
      apply IH; simpl; lia.
Qed.

Lemma max_scan_snoc rest prev :
  prev <= 1 -> Forall (fun c => c <= 1) rest ->
  max_scan prev (rest ++ [1]) = max_scan prev rest ++ [1].
Proof.
  revert prev; induction rest as [|c rest IH]; intros prev Hp Hr; simpl.
  - now rewrite max_one.
  - inversion Hr; subst; f_equal; apply IH; auto using max_le.
Qed.

(** ** Index assignment *)

Lemma assign_length i v xs : List.length (assign i v xs) = List.length xs.
Proof.
  revert i; induction xs as [|x xs IH]; intros [|i]; simpl; auto.
Qed.

Lemma assign_last xs x v :
  assign (List.length (xs ++ [x]) - 1) v (xs ++ [x]) = xs ++ [v].
Proof.
  induction xs as [|y xs IH]; simpl; [reflexivity|].
  rewrite length_app in *; simpl in *.
  replace (List.length xs + 1)%nat with (S (List.length xs)) in * by lia.
  simpl in *; rewrite Nat.sub_0_r in IH; now rewrite IH.
Qed.

(** ** The interpolated value at one abscissa *)

Lemma inject_Z_le_100 p : (p <= 100)%Z -> inject_Z p <= 100.
Proof. intros H; change 100 with (inject_Z 100); now rewrite <- Zle_Qle. Qed.

Lemma cdf_at_le_1 x lower sorted_p :
  lower <= x ->
  Forall (fun kv => (fst kv <= 100)%Z) sorted_p ->
  forall prev, prev_ok x prev -> cdf_at x lower prev sorted_p <= 1.
Proof.
  intros Hx; induction sorted_p as [|[p val] rest IH]; intros Hall prev Hprev.
  - simpl; apply Qle_refl.
  - inversion Hall as [|? ? Hp Hrest]; subst; simpl in Hp.
    apply inject_Z_le_100 in Hp.
    simpl; destruct (Qlt_le_dec x val) as [Hlt|Hge].
    + destruct prev as [[pp pv]|].
      * destruct Hprev as (Hpp & Hpv); apply inject_Z_le_100 in Hpp.
        apply Qle_shift_div_r; [reflexivity|].
        destruct (Qeq_bool val pv); [lra|].
        assert (0 <= (x - pv) / (val - pv)) by (apply Qle_shift_div_l; lra).
        assert ((x - pv) / (val - pv) <= 1) by (apply Qle_shift_div_r; lra).
        nra.
      * destruct (Qeq_bool val lower); [discriminate|].
        apply Qle_shift_div_r; [lra|].
        assert (inject_Z p / 100 <= 1) by (apply Qle_shift_div_r; [reflexivity | lra]).
        nra.
    + apply IH; [assumption|]; simpl; split; [|assumption].
      inversion Hall; subst; assumption.
Qed.

Lemma grid_point_ge_lower lower upper i :
  lower < upper -> lower <= grid_point lower upper i.
Proof.
  intros H; unfold grid_point.
  assert (0 <= inject_Z (Z.of_nat i))
    by (change 0 with (inject_Z 0); rewrite <- Zle_Qle; lia).
  assert (0 <= (upper - lower) * inject_Z (Z.of_nat i) / 200)
    by (apply Qle_shift_div_l; [reflexivity | nra]).
  lra.
Qed.

(** ** Sorting keeps the items *)

Lemma insert_sorted_in a b xs : In b (insert_sorted a xs) -> b = a \/ In b xs.
Proof.
  induction xs as [|c xs IH]; simpl.
  - intros [H|[]]; auto.
  - destruct (item_lt a c); simpl; intros [H|H]; auto.
    destruct (IH H); auto.
Qed.

Lemma sorted_in b items : In b (sorted items) -> In b items.
Proof.
  unfold sorted.
  assert (G : forall acc, In b (fold_left (fun acc a => insert_sorted a acc) items acc)
                          -> In b acc \/ In b items).
  { induction items as [|a items IH]; simpl; intros acc H; [auto|].
    destruct (IH _ H) as [H'|H']; [|auto].
    destruct (insert_sorted_in _ _ _ H'); auto. }
  intros H; destruct (G [] H) as [[]|]; assumption.
Qed.

(** C5: for every percentile dictionary (levels between 0 and 100) and
    bounds [lower < upper], the reconstructed CDF is a list of 201
    values that is non-decreasing, with [cdf[0] = 0.0] and
    [cdf[200] = 1.0] exactly. *)
Theorem cdf_from_percentiles_well_formed :
  forall (percentiles : dict Z Q) (lower upper : Q),
    percentiles <> [] ->
    Forall (fun kv => is_percentile (fst kv)) percentiles ->
    lower < upper ->
    let cdf := cdf_from_percentiles percentiles lower upper in
    List.length cdf = 201%nat
    /\ (forall i, (i < 200)%nat -> nth i cdf 0 <= nth (S i) cdf 0)
    /\ nth 0 cdf 0 = 0
    /\ nth 200 cdf 0 = 1.
Proof.
  intros percentiles lower upper _ Hkeys Hlt cdf; subst cdf.
  unfold cdf_from_percentiles.
  set (f := fun i => cdf_at (grid_point lower upper i) lower None
                            (sorted percentiles)).
  assert (Hf : forall i, f i <= 1).
  { intros i; unfold f; apply cdf_at_le_1;
      [now apply grid_point_ge_lower | | exact I].
    apply Forall_forall; intros kv Hin; apply sorted_in in Hin.
    rewrite Forall_forall in Hkeys; apply (Hkeys kv Hin). }
  change (seq 0 201) with ([0%nat] ++ seq 1 199 ++ [200%nat]).
  rewrite !map_app; cbn [map app assign].
  rewrite app_comm_cons.
  rewrite assign_last; cbn [app forward_max].
  assert (Hmid : Forall (fun c => c <= 1) (map f (seq 1 199)))
    by (apply Forall_forall; intros c Hc; apply in_map_iff in Hc as (i & <- & _);
        apply Hf).
  rewrite max_scan_snoc; [|discriminate|assumption].
  assert (Hlen : List.length (max_scan 0 (map f (seq 1 199))) = 199%nat)
    by (now rewrite max_scan_length, length_map, length_seq).
  split; [rewrite length_cons, length_app, Hlen; reflexivity|].
  split; [|split].
  - intros i Hi.
    rewrite <- max_scan_snoc; [|discriminate|assumption].
    apply max_scan_nondecreasing.
    rewrite length_cons, max_scan_length, length_app, length_map, length_seq.
    simpl; lia.
  - reflexivity.
  - change (nth 200 (0 :: max_scan 0 (map f (seq 1 199)) ++ [1]) 0)
      with (nth 199 (max_scan 0 (map f (seq 1 199)) ++ [1]) 0).
    rewrite app_nth2; rewrite Hlen; [reflexivity | lia].
Qed.

Lemma cdf_from_percentiles_well_formed_witness :
  let cdf := cdf_from_percentiles Examples.spread 0 10 in
  List.length cdf = 201%nat
  /\ (forall i, (i < 200)%nat -> nth i cdf 0 <= nth (S i) cdf 0)
  /\ nth 0 cdf 0 = 0
  /\ nth 200 cdf 0 = 1.
Proof.
  apply cdf_from_percentiles_well_formed.
  - discriminate.
  - repeat constructor; vm_compute; discriminate.
  - reflexivity.
Defined.

(** A key above 100 is not a percentile level, and the hypothesis on the
    keys is needed: the end point is pinned before the max-scan, which
    then carries a value above 1 into it. *)
Lemma cdf_end_point_with_level_150 :
  nth 200 (cdf_from_percentiles [(150%Z, 10)] 0 (999 # 100)) 0
  == 596403 # 400000.
Proof. vm_compute; reflexivity. Qed.

End Cdf.

(* ================================================================== *)
(** * Properties: numeric and multiple-choice aggregation *)
(* ================================================================== *)

Section Pooling.

Import Schemas Utils Agents Forecaster Design Examples.
Local Open Scope Q_scope.

Lemma aggregate_cdfs_zeros forecasts lower upper :
  _aggregate_cdfs forecasts lower upper = repeat 0 201.
Proof.
  unfold _aggregate_cdfs.
  generalize (repeat 0 201); induction forecasts; simpl; auto.
Qed.

(** C3, as the code has it: the numeric aggregation returns 201 zeros
    whatever the agents forecast.  For a committee of one whose agent
    states the percentiles 2, 5 and 8 of a quantity in [0, 10], the
    final CDF ends in 0, where the weighted mean of the per-agent CDF
    vectors (here the agent's own CDF) ends in 1. *)
Theorem numeric_aggregation_returns_zeros :
  exists result percentiles,
    forecast_numeric (always numeric_reply) 3 no_search str_whole
                     solo_committee 1 rain rain_criteria 0 10
                     false false true true = Ok result
    /\ final_cdf result = Some (repeat 0 201)
    /\ parse_percentiles numeric_reply = Ok percentiles
    /\ nth 200 (weighted_mean_cdf
                  [cdf_from_percentiles percentiles 0 10]
                  (map weight (agent_forecasts result))) 0 == 1
    /\ nth 200 (repeat 0 201) 0 = 0.
Proof.
  assert (H : exists fs,
             mapM (fun agent =>
                     _forecast_numeric_agent (always numeric_reply) 3
                       str_whole solo_committee agent rain rain_criteria
                       (research_of no_search rain true true) 0 10
                       false false)
                  (Forecaster.agents solo_committee) = Ok fs
             /\ map weight fs = [3 # 2])
    by (eexists; split; vm_compute; reflexivity).
  destruct H as (fs & Hfs & Hw).
  unfold forecast_numeric; rewrite Hfs; cbn [Py.bind].
  eexists; eexists; split; [reflexivity|]; cbn [final_cdf agent_forecasts].
  split; [now rewrite aggregate_cdfs_zeros|].
  split; [vm_compute; reflexivity|].
  rewrite Hw; split; vm_compute; reflexivity.
Qed.

Lemma aggregate_multiple_choice_ignores_forecasts forecasts forecasts' options :
  _aggregate_multiple_choice forecasts options
  = _aggregate_multiple_choice forecasts' options.
Proof. reflexivity. Qed.

(** The per-agent step keeps an all-zero distribution as it is. *)
Lemma renormalize_all_zero :
  renormalize [("Yes", 0); ("No", 0)]%string = [("Yes", 0); ("No", 0)]%string.
Proof. reflexivity. Qed.

(** C4, as the code has it: the multiple-choice aggregation returns the
    uniform distribution over the options whatever the agents answer.
    For a committee of one whose agent answers 0.9 and 0.1 on two
    options, the final probabilities are 0.5 and 0.5, where the
    weight-averaged renormalised per-agent distributions are 0.9 and
    0.1. *)
Theorem multiple_choice_aggregation_is_uniform :
  exists result raw,
    forecast_multiple_choice (always choice_reply) 3 no_search
                             solo_committee 1 rain rain_criteria yes_no
                             true true = Ok result
    /\ final_option_probs result
       = Some [("Yes", 1 # 2); ("No", 1 # 2)]%string
    /\ parse_option_probabilities choice_reply yes_no = Ok raw
    /\ map (fun kv => (fst kv, Qred (snd kv)))
           (weighted_mean_options yes_no [raw]
                                  (map weight (agent_forecasts result)))
       = [("Yes", 9 # 10); ("No", 1 # 10)]%string.
Proof.
  assert (H : exists fs,
             mapM (fun agent =>
                     forecast_multiple_choice_agent (always choice_reply) 3
                       solo_committee agent rain rain_criteria yes_no
                       (research_of no_search rain true true))
                  (Forecaster.agents solo_committee) = Ok fs
             /\ map weight fs = [3 # 2])
    by (eexists; split; vm_compute; reflexivity).
  destruct H as (fs & Hfs & Hw).
  unfold forecast_multiple_choice; rewrite Hfs; cbn [Py.bind].
  eexists; eexists; split; [reflexivity|];
    cbn [final_option_probs agent_forecasts].
  split; [vm_compute; reflexivity|].
  split; [vm_compute; reflexivity|].
  rewrite Hw; vm_compute; reflexivity.
Qed.

End Pooling.

(* ================================================================== *)
(** * Properties: binary aggregation in log-odds space *)
(* ================================================================== *)

Section LogOdds.

Import Schemas Utils Agents Forecaster Design Examples.
Local Open Scope R_scope.

Lemma sumR_acc xs : forall acc, fold_left Rplus xs acc = acc + sumR xs.
Proof.
  unfold sumR; induction xs as [|x xs IH]; intros acc; simpl; [lra|].
  rewrite (IH (acc + x)), (IH (0 + x)); lra.
Qed.

Lemma sumR_cons x xs : sumR (x :: xs) = x + sumR xs.
Proof. unfold sumR at 1; simpl; rewrite sumR_acc; lra. Qed.

Lemma sumR_zeros xs : Forall (fun x => x = 0) xs -> sumR xs = 0.
Proof.
  induction 1 as [|x xs Hx _ IH]; [reflexivity|].
  rewrite sumR_cons, Hx, IH; lra.
Qed.

Lemma logit_inside p :
  1 / 10000 <= p <= 9999 / 10000 -> logit p = ln (p / (1 - p)).
Proof.
  intros [H1 H2]; unfold logit.
  rewrite Rmin_right by lra; rewrite Rmax_right by lra; reflexivity.
Qed.

Lemma weighted_average_two l1 l2 w1 w2 :
  w1 + w2 <> 0 ->
  weighted_average [l1; l2] [w1; w2] = Ok ((l1 * w1 + l2 * w2) / (w1 + w2)).
Proof.
  intros H; unfold weighted_average; simpl.
  rewrite !sumR_cons; unfold sumR; simpl.
  destruct (Req_dec_T (w1 + (w2 + 0)) 0) as [E|_]; [exfalso; lra|].
  f_equal; f_equal; lra.
Qed.

Lemma aggregate_sixty_eighty :
  _aggregate_forecasts [sixty; eighty] = Ok (inv_logit pooled_logit).
Proof.
  unfold _aggregate_forecasts, aggregate_logit_space; cbn [map].
  cbn [final_probability weight sixty eighty].
  assert (E1 : Q2R 1 = 1) by (unfold Q2R; simpl; lra).
  assert (E2 : Q2R 2 = 2) by (unfold Q2R; simpl; lra).
  assert (E6 : Q2R (6 # 10) = 6 / 10) by (unfold Q2R; simpl; lra).
  assert (E8 : Q2R (8 # 10) = 8 / 10) by (unfold Q2R; simpl; lra).
  rewrite E1, E2, E6, E8.
  rewrite weighted_average_two by lra; cbn [Py.bind].
  rewrite !logit_inside by lra.
  unfold pooled_logit; f_equal; f_equal; lra.
Qed.

(** [exp (- pooled_logit)] is the cube root of 1/24. *)
Lemma exp_pooled_logit_cubed :
  exp (- pooled_logit) * exp (- pooled_logit) * exp (- pooled_logit) = 1 / 24.
Proof.
  rewrite <- !exp_plus.
  replace (- pooled_logit + - pooled_logit + - pooled_logit)
    with (- (ln (3 / 2) + (ln 4 + ln 4))).
  - rewrite exp_Ropp, !exp_plus, !exp_ln by lra; lra.
  - unfold pooled_logit.
    replace (6 / 10 / (1 - 6 / 10)) with (3 / 2) by lra.
    replace (8 / 10 / (1 - 8 / 10)) with 4 by lra.
    lra.
Qed.

Lemma inv_logit_pooled_bounds :
  7416 / 10000 < inv_logit pooled_logit < 7436 / 10000.
Proof.
  unfold inv_logit.
  pose proof exp_pooled_logit_cubed as H3.
  pose proof (exp_pos (- pooled_logit)) as Hpos.
  set (e := exp (- pooled_logit)) in *.
  assert (Hlo : 3449 / 10000 < e).
  { destruct (Rlt_le_dec (3449 / 10000) e) as [L|L]; [exact L|exfalso].
    assert (e * e <= 3449 / 10000 * (3449 / 10000)) by nra.
    assert (e * e * e <= 3449 / 10000 * (3449 / 10000) * (3449 / 10000)) by nra.
    lra. }
  assert (Hhi : e < 3484 / 10000).
  { destruct (Rlt_le_dec e (3484 / 10000)) as [L|L]; [exact L|exfalso].
    assert (3484 / 10000 * (3484 / 10000) <= e * e) by nra.
    assert (3484 / 10000 * (3484 / 10000) * (3484 / 10000) <= e * e * e) by nra.
    lra. }
  assert (Hone : 1 / (1 + e) * (1 + e) = 1) by (field; lra).
  split; apply Rmult_lt_reg_r with (1 + e); try lra.
Qed.

(** C6 (as amended): for final probabilities [0.6, 0.8] with weights
    [1.0, 2.0], binary aggregation returns
    [inv_logit ((1 * logit 0.6 + 2 * logit 0.8) / 3)], approximately
    0.7426 within 1e-3, the log-odds being [ln (p / (1 - p))] and the
    way back [1 / (1 + e^-x)]. *)
Theorem two_agent_aggregate :
  _aggregate_forecasts [sixty; eighty]
  = Ok (inv_logit ((1 * logit (6 / 10) + 2 * logit (8 / 10)) / 3))
  /\ logit (6 / 10) = ln (6 / 10 / (1 - 6 / 10))
  /\ logit (8 / 10) = ln (8 / 10 / (1 - 8 / 10))
  /\ Rabs (inv_logit ((1 * logit (6 / 10) + 2 * logit (8 / 10)) / 3)
           - 7426 / 10000) < 1 / 1000.
Proof.
  assert (L6 : logit (6 / 10) = ln (6 / 10 / (1 - 6 / 10)))
    by (apply logit_inside; lra).
  assert (L8 : logit (8 / 10) = ln (8 / 10 / (1 - 8 / 10)))
    by (apply logit_inside; lra).
  rewrite L6, L8; fold pooled_logit.
  split; [apply aggregate_sixty_eighty|].
  split; [reflexivity|]; split; [reflexivity|].
  pose proof inv_logit_pooled_bounds as [B1 B2].
  apply Rabs_def1; lra.
Qed.

(** C6 fails as stated: the aggregate of 0.6 and 0.8 with weights 1 and
    2 is more than 1e-3 away from 0.72. *)
Lemma two_agent_aggregate_is_not_072 :
  exists r,
    _aggregate_forecasts [sixty; eighty] = Ok r
    /\ ~ Rabs (r - 72 / 100) <= 1 / 1000.
Proof.
  exists (inv_logit pooled_logit); split; [apply aggregate_sixty_eighty|].
  pose proof inv_logit_pooled_bounds as [B1 B2].
  intros H; pose proof (Rle_abs (inv_logit pooled_logit - 72 / 100)); lra.
Qed.

Lemma weights_sum_zero (forecasts : list AgentForecast) :
  Forall (fun f => (weight f == 0)%Q) forecasts ->
  sumR (map (fun f => Q2R (weight f)) forecasts) = 0.
Proof.
  intros H; apply sumR_zeros, Forall_forall; intros x Hx.
  apply in_map_iff in Hx as (f & <- & Hf).
  rewrite Forall_forall in H.
  rewrite (Qeq_eqR _ _ (H f Hf)); apply RMicromega.Q2R_0.
Qed.

Lemma aggregate_zero_weights (forecasts : list AgentForecast) :
  forecasts <> [] ->
  Forall (fun f => (weight f == 0)%Q) forecasts ->
  _aggregate_forecasts forecasts = Ok (inv_logit (1 / 2)).
Proof.
  intros Hne Hz.
  pose proof (weights_sum_zero Hz) as Hsum.
  destruct forecasts as [|f fs]; [contradiction|].
  unfold _aggregate_forecasts, aggregate_logit_space, weighted_average.
  cbn [map] in *.
  cbn [List.length]; rewrite !length_map, Nat.eqb_refl; cbn [negb].
  rewrite Hsum.
  destruct (Req_dec_T 0 0) as [_|N]; [reflexivity | contradiction].
Qed.

(** C8, as the code has it: when the probability list is non-empty and
    every weight is zero, binary aggregation does not raise, but it
    takes no mean of the inputs either: [weighted_average] returns the
    neutral probability 0.5 in place of the mean log-odds, and
    [aggregate_logit_space] maps it back as if it were log-odds, so the
    result is [1 / (1 + e^-0.5)] (about 0.62) whatever the
    probabilities. *)
Theorem zero_weights_give_constant :
  forall forecasts : list AgentForecast,
    forecasts <> [] ->
    Forall (fun f => (weight f == 0)%Q) forecasts ->
    _aggregate_forecasts forecasts = Ok (inv_logit (1 / 2)).
Proof.
  intros forecasts; apply aggregate_zero_weights.
Qed.

Lemma zero_weights_give_constant_witness :
  _aggregate_forecasts [muted] = Ok (inv_logit (1 / 2)).
Proof.
  apply zero_weights_give_constant.
  - discriminate.
  - repeat constructor.
Defined.

Lemma inv_logit_half_above_half : 1 / 2 < inv_logit (1 / 2).
Proof.
  unfold inv_logit.
  assert (H : exp (- (1 / 2)) < exp 0) by (apply exp_increasing; lra).
  rewrite exp_0 in H.
  pose proof (exp_pos (- (1 / 2))) as Hpos.
  assert (Hone : 1 / (1 + exp (- (1 / 2))) * (1 + exp (- (1 / 2))) = 1)
    by (field; lra).
  apply Rmult_lt_reg_r with (1 + exp (- (1 / 2))); lra.
Qed.

(** C8 at one input: for a single even forecast of weight zero the
    uniform-weight mean that the claim asks for is 0.5 (as is any mean
    of the one input), while binary aggregation returns
    [1 / (1 + e^-0.5)], which is larger. *)
Lemma zero_weights_are_not_a_mean :
  exists r,
    _aggregate_forecasts [muted] = Ok r
    /\ uniform_weight_mean [Q2R (final_probability muted)] = Ok (1 / 2)
    /\ r <> 1 / 2.
Proof.
  exists (inv_logit (1 / 2)); split; [|split].
  - apply aggregate_zero_weights; [discriminate | repeat constructor].
  - unfold uniform_weight_mean, aggregate_logit_space, weighted_average.
    cbn [map List.length Nat.eqb negb combine fst snd final_probability muted].
    assert (E : Q2R (1 # 2) = 1 / 2) by (unfold Q2R; simpl; lra).
    rewrite E, !sumR_cons; unfold sumR; cbn [fold_left].
    destruct (Req_dec_T (1 + 0) 0) as [F|_]; [exfalso; lra|].
    cbn [Py.bind]; rewrite logit_inside by lra.
    replace (1 / 2 / (1 - 1 / 2)) with 1 by lra.
    rewrite ln_1; unfold inv_logit.
    replace (- ((0 * 1 + 0) / (1 + 0))) with 0 by lra.
    rewrite exp_0; f_equal; lra.
  - pose proof inv_logit_half_above_half; lra.
Qed.

End LogOdds.

(* ================================================================== *)
(** * Properties: the size of the response cache *)
(* ================================================================== *)

Section CacheSize.

Import Utils ResponseCache.
Local Open Scope nat_scope.

Variable V : Type.

Local Ltac open_keys := unfold keys in *.

(** ** Insertion and deletion on the store *)

Lemma dict_set_length k v (d : dict string (entry V)) :
  List.length (dict_set String.eqb k v d) <= S (List.length d).
Proof.
  induction d as [|[k' v'] d IH]; simpl; [lia|].
  destruct (String.eqb k k'); simpl; lia.
Qed.

Lemma dict_set_in k v (d : dict string (entry V)) k0 :
  In k0 (keys (dict_set String.eqb k v d)) -> k0 = k \/ In k0 (keys d).
Proof.
  open_keys; induction d as [|[k' v'] d IH]; simpl.
  - intros [H|[]]; auto.
  - destruct (String.eqb k k') eqn:E; simpl.
    + apply String.eqb_eq in E; subst; intros [H|H]; auto.
    + intros [H|H]; auto. destruct (IH H); auto.
Qed.

Lemma dict_set_nodup k v (d : dict string (entry V)) :
  NoDup (keys d) -> NoDup (keys (dict_set String.eqb k v d)).
Proof.
  pose proof (dict_set_in k v) as Hset.
  open_keys; induction d as [|[k' v'] d IH]; simpl; intros H.
  - constructor; [intros [] | constructor].
  - inversion H as [|? ? Hn Hd]; subst.
    destruct (String.eqb k k') eqn:E; simpl.
    + apply String.eqb_eq in E; subst; now constructor.
    + apply String.eqb_neq in E; constructor; [|auto].
      intros Hin; apply Hset in Hin as [->|Hin]; auto.
Qed.

Lemma dict_del_in k (d : dict string (entry V)) k0 :
  In k0 (keys (dict_del k d)) -> In k0 (keys d).
Proof.
  open_keys; induction d as [|[k' v'] d IH]; simpl; [auto|].
  destruct (String.eqb k k'); simpl; intros H; auto.
  destruct H; auto.
Qed.

Lemma dict_del_nodup k (d : dict string (entry V)) :
  NoDup (keys d) -> NoDup (keys (dict_del k d)).
Proof.
  pose proof (dict_del_in k) as Hdel.
  open_keys; induction d as [|[k' v'] d IH]; simpl; intros H; [constructor|].
  inversion H as [|? ? Hn Hd]; subst.
  destruct (String.eqb k k'); simpl; [assumption|].
  constructor; [|auto].
  intros Hin; apply Hn; eapply Hdel; eauto.
Qed.

Lemma dict_del_length k (d : dict string (entry V)) :
  In k (keys d) -> S (List.length (dict_del k d)) = List.length d.
Proof.
  open_keys; induction d as [|[k' v'] d IH]; simpl; [intros []|].
  destruct (String.eqb k k') eqn:E; simpl; [reflexivity|].
  apply String.eqb_neq in E.
  intros [H|H]; [congruence|]. now rewrite IH.
Qed.

Lemma dict_del_other k k0 (d : dict string (entry V)) :
  k0 <> k -> In k0 (keys d) -> In k0 (keys (dict_del k d)).
Proof.
  open_keys; intros Hne; induction d as [|[k' v'] d IH]; simpl; [auto|].
  destruct (String.eqb k k') eqn:E; simpl.
  - apply String.eqb_eq in E; subst; intros [H|H]; [congruence|auto].
  - intros [H|H]; auto.
Qed.

Lemma delete_all_length ks :
  forall d : dict string (entry V),
    NoDup ks -> incl ks (keys d) ->
    List.length (fold_left (fun c old_key => dict_del old_key c) ks d)
    + List.length ks = List.length d.
Proof.
  induction ks as [|k ks IH]; intros d Hnd Hin; simpl; [lia|].
  inversion Hnd as [|? ? Hk Hks]; subst.
  rewrite <- (dict_del_length k d) by (apply Hin; now left).
  rewrite <- (IH (dict_del k d)); [lia | assumption |].
  intros k0 H0; apply dict_del_other.
  - intros ->; contradiction.
  - apply Hin; now right.
Qed.

Lemma delete_all_nodup ks :
  forall d : dict string (entry V),
    NoDup (keys d) ->
    NoDup (keys (fold_left (fun c old_key => dict_del old_key c) ks d)).
Proof.
  induction ks as [|k ks IH]; intros d H; simpl; auto using dict_del_nodup.
Qed.

(** ** The keys by age *)

Lemma insert_by_timestamp_perm (a : string * entry V) xs :
  Permutation (insert_by_timestamp a xs) (a :: xs).
Proof.
  induction xs as [|b xs IH]; simpl; [reflexivity|].
  destruct (Qlt_le_dec (timestamp (snd a)) (timestamp (snd b)));
    [reflexivity|].
  rewrite IH; apply perm_swap.
Qed.

Lemma sorted_keys_perm (d : dict string (entry V)) :
  Permutation (sorted_keys d) (keys d).
Proof.
  unfold sorted_keys.
  assert (G : forall acc,
             Permutation
               (fold_left (fun acc a => insert_by_timestamp a acc) d acc)
               (acc ++ d)).
  { induction d as [|a d IH]; intros acc; simpl; [now rewrite app_nil_r|].
    rewrite IH, insert_by_timestamp_perm.
    apply Permutation_middle with (l1 := acc). }
  unfold keys; apply Permutation_map, (G []).
Qed.

Lemma evict_length (d : dict string (entry V)) :
  NoDup (keys d) ->
  List.length (evict d) + List.length d / 4 = List.length d.
Proof.
  intros Hnd; unfold evict.
  set (ks := firstn (List.length d / 4) (sorted_keys d)).
  assert (Hlen : List.length ks = List.length d / 4).
  { unfold ks; rewrite firstn_length_le; [reflexivity|].
    rewrite (Permutation_length (sorted_keys_perm d)); unfold keys;
      rewrite length_map.
    apply Nat.Div0.div_le_upper_bound; lia. }
  assert (Hsk : NoDup (sorted_keys d))
    by (apply (Permutation_NoDup (Permutation_sym (sorted_keys_perm d)) Hnd)).
  rewrite <- Hlen; apply delete_all_length.
  - rewrite <- (firstn_skipn (List.length d / 4) (sorted_keys d)) in Hsk.
    now apply NoDup_app_remove_r in Hsk.
  - intros k Hk; apply (Permutation_in _ (sorted_keys_perm d)).
    rewrite <- (firstn_skipn (List.length d / 4) (sorted_keys d)).
    apply in_or_app; now left.
Qed.

(** Below four entries the eviction removes nothing. *)
Lemma evict_small (d : dict string (entry V)) :
  List.length d < 4 -> evict d = d.
Proof.
  intros H; unfold evict; now rewrite Nat.div_small.
Qed.

(** ** The bound, from four entries on *)

Lemma set_within_bound (self : t V) key value now :
  (4 <= max_size self)%Z ->
  within_bound self -> within_bound (set self key value now).
Proof.
  intros H4 [Hnd Hsz]; unfold within_bound, set, size in *; simpl.
  destruct (max_size self <=? Z.of_nat (List.length (cache self)))%Z eqn:E.
  - apply Z.leb_le in E.
    pose proof (evict_length (cache self) Hnd) as Hev.
    assert (1 <= List.length (cache self) / 4)
      by (apply Nat.div_le_lower_bound; lia).
    split; [apply dict_set_nodup, delete_all_nodup, Hnd|].
    pose proof (dict_set_length (_hash key)
                  {| data := value; timestamp := now |}
                  (evict (cache self))).
    lia.
  - apply Z.leb_gt in E.
    split; [now apply dict_set_nodup|].
    pose proof (dict_set_length (_hash key)
                  {| data := value; timestamp := now |} (cache self)).
    lia.
Qed.

Lemma set_max_size (self : t V) key value now :
  max_size (set self key value now) = max_size self.
Proof. reflexivity. Qed.

(** From an empty cache with [max_size >= 4], no run of [set] calls
    leaves the store above [max_size]. *)
Lemma set_all_within_bound (ttl_seconds : Q) (size_limit : Z) ops :
  (4 <= size_limit)%Z ->
  (Z.of_nat (size (set_all (new V ttl_seconds size_limit) ops))
   <= size_limit)%Z.
Proof.
  intros H4.
  assert (G : forall self : t V,
             max_size self = size_limit -> within_bound self ->
             within_bound (set_all self ops)
             /\ max_size (set_all self ops) = size_limit).
  { unfold set_all; induction ops as [|[[k v] now] ops IH]; intros self Hm Hb;
      simpl; [auto|].
    apply IH; [exact Hm|].
    apply set_within_bound; [rewrite Hm; exact H4 | assumption]. }
  destruct (G (new V ttl_seconds size_limit) eq_refl) as ((_ & Hb) & Hm).
  - split; [constructor | simpl; lia].
  - now rewrite Hm in Hb.
Qed.

End CacheSize.

Section CacheClaim.

Import ResponseCache.
Local Open Scope string_scope.

(** C9, as the code has it: with [max_size = 1] the second [set] finds
    the store full, evicts [1 // 4 = 0] entries and inserts, leaving two
    entries in a store whose [max_size] is 1. *)
Theorem small_cache_outgrows_max_size :
  let c :=
    set_all (new string 300 1)
            [ ("GET:/markets:None:None", "markets", 0%Q);
              ("GET:/events:None:None", "events", 1%Q) ] in
  size c = 2%nat /\ (max_size c < Z.of_nat (size c))%Z.
Proof. vm_compute; split; reflexivity. Qed.

End CacheClaim.

(* ================================================================== *)
(** * Further properties: the pattern matcher and the parsers *)
(* ================================================================== *)

Section MatcherSoundness.

Import Re ReSem.
Local Open Scope nat_scope.

Variable G : nat -> text -> Prop.

Lemma many_greedy_sound (A : Type) p s (k : text -> option A) a :
  many_greedy p s k = Some a ->
  exists pre s', s = pre ++ s' /\ forallb p pre = true /\ k s' = Some a.
Proof.
  revert k a; induction s as [|c s IH]; simpl; intros k a H.
  - exists [], []; auto.
  - destruct (p c) eqn:Ec.
    + destruct (many_greedy p s k) as [a'|] eqn:E.
      * inversion H; subst a'.
        destruct (IH _ _ E) as (pre & s' & -> & Hp & Hk).
        exists (c :: pre), s'; simpl; rewrite Ec; auto.
      * exists [], (c :: s); auto.
    + exists [], (c :: s); auto.
Qed.

Lemma many_lazy_sound (A : Type) p s (k : text -> option A) a :
  many_lazy p s k = Some a ->
  exists pre s', s = pre ++ s' /\ forallb p pre = true /\ k s' = Some a.
Proof.
  revert k a; induction s as [|c s IH]; simpl; intros k a H.
  - destruct (k []) eqn:E; [|discriminate].
    inversion H; subst; exists [], []; auto.
  - destruct (k (c :: s)) eqn:E.
    + inversion H; subst; exists [], (c :: s); auto.
    + destruct (p c) eqn:Ec; [|discriminate].
      destruct (IH _ _ H) as (pre & s' & -> & Hp & Hk).
      exists (c :: pre), s'; simpl; rewrite Ec; auto.
Qed.

Lemma caps_ok_bind B cs n t :
  caps_ok G B cs -> G n t ->
  caps_ok G (fun m => m = n \/ B m) ((n, t) :: cs).
Proof.
  intros [Hb Hg] Ht; split.
  - intros m [->|Hm]; simpl.
    + rewrite Nat.eqb_refl; eauto.
    + destruct (Nat.eqb m n); eauto.
  - intros m t'; simpl; destruct (Nat.eqb m n) eqn:E.
    + apply Nat.eqb_eq in E; subst; intros H; inversion H; subst; auto.
    + apply Hg.
Qed.

Lemma caps_ok_weaken (B B' : nat -> Prop) cs :
  (forall n, B' n -> B n) -> caps_ok G B cs -> caps_ok G B' cs.
Proof. intros H [Hb Hg]; split; auto. Qed.

Lemma firstn_consumed (pre s' : text) :
  firstn (List.length (pre ++ s') - List.length s') (pre ++ s') = pre.
Proof.
  rewrite length_app, Nat.add_sub.
  rewrite firstn_app, Nat.sub_diag, firstn_all; simpl; apply app_nil_r.
Qed.

(** A successful match consumed a text of the pattern's language, bound
    the groups the pattern binds and captured only what its groups
    allow. *)
Lemma rmatch_sound (A : Type) r :
  groups_ok G r ->
  forall s cs (k : text -> caps -> option A) a B,
    caps_ok G B cs ->
    rmatch r s cs k = Some a ->
    exists pre s' cs',
      s = pre ++ s' /\ lang r pre
      /\ caps_ok G (fun n => binds r n \/ B n) cs'
      /\ k s' cs' = Some a.
Proof.
  induction r as [|p|r1 IH1 r2 IH2|r1 IH1 r2 IH2|g p|n r1 IH1|r1 IH1|];
    intros Hok s cs k a B Hcs H; simpl in H.
  - exists [], s, cs; split; [reflexivity|]; split; [reflexivity|].
    split; [|exact H].
    eapply caps_ok_weaken; [|exact Hcs]; simpl; tauto.
  - destruct s as [|c s]; [discriminate|].
    destruct (p c) eqn:Ec; [|discriminate].
    exists [c], s, cs; split; [reflexivity|]; split; [simpl; eauto|].
    split; [|exact H].
    eapply caps_ok_weaken; [|exact Hcs]; simpl; tauto.
  - destruct Hok as [Hok1 Hok2].
    destruct (IH1 Hok1 _ _ _ _ _ Hcs H) as (p1 & s1 & cs1 & -> & L1 & C1 & K1).
    destruct (IH2 Hok2 _ _ _ _ _ C1 K1) as (p2 & s2 & cs2 & -> & L2 & C2 & K2).
    exists (p1 ++ p2), s2, cs2; split; [now rewrite app_assoc|].
    split; [simpl; eauto|]. split; [|exact K2].
    eapply caps_ok_weaken; [|exact C2]; simpl; tauto.
  - destruct Hok as [Hok1 Hok2].
    destruct (rmatch r1 s cs k) as [a'|] eqn:E.
    + inversion H; subst a'.
      destruct (IH1 Hok1 _ _ _ _ _ Hcs E) as (p1 & s1 & cs1 & -> & L1 & C1 & K1).
      exists p1, s1, cs1; split; [reflexivity|]; split; [simpl; auto|].
      split; [|exact K1].
      eapply caps_ok_weaken; [|exact C1]; simpl; tauto.
    + destruct (IH2 Hok2 _ _ _ _ _ Hcs H) as (p2 & s2 & cs2 & -> & L2 & C2 & K2).
      exists p2, s2, cs2; split; [reflexivity|]; split; [simpl; auto|].
      split; [|exact K2].
      eapply caps_ok_weaken; [|exact C2]; simpl; tauto.
  - assert (E : exists pre s', s = pre ++ s' /\ forallb p pre = true
                               /\ k s' cs = Some a)
      by (destruct g; [apply many_greedy_sound in H | apply many_lazy_sound in H];
          exact H).
    destruct E as (pre & s' & -> & Hp & Hk).
    exists pre, s', cs; split; [reflexivity|]; split; [exact Hp|].
    split; [|exact Hk].
    eapply caps_ok_weaken; [|exact Hcs]; simpl; tauto.
  - destruct Hok as [Hn Hok1].
    destruct (IH1 Hok1 _ _ _ _ _ Hcs H) as (p1 & s1 & cs1 & -> & L1 & C1 & K1).
    rewrite firstn_consumed in K1.
    exists p1, s1, ((n, p1) :: cs1); split; [reflexivity|]; split; [exact L1|].
    split; [|exact K1].
    eapply caps_ok_weaken; [|apply caps_ok_bind; [exact C1 | auto]].
    simpl; tauto.
  - destruct (IH1 Hok _ _ _ _ _ Hcs H) as (p1 & s1 & cs1 & _ & _ & _ & K1).
    exists [], s, cs; split; [reflexivity|]; split; [reflexivity|].
    split; [|exact K1].
    eapply caps_ok_weaken; [|exact Hcs]; simpl; tauto.
  - exists [], s, cs; split; [reflexivity|]; split; [reflexivity|].
    split.
    + eapply caps_ok_weaken; [|exact Hcs]; simpl; tauto.
    + destruct s as [|c [|c' s]]; try discriminate; auto.
      destruct (code c =? 10)%N; [auto | discriminate].
Qed.

Lemma search_sound r text cs :
  groups_ok G r -> search r text = Some cs -> caps_ok G (binds r) cs.
Proof.
  intros Hok; unfold search.
  induction (list_ascii_of_string text) as [|c s IH]; simpl; intros H.
  - destruct (rmatch r [] [] (fun _ cs0 => Some cs0)) as [cs0|] eqn:E;
      [|discriminate].
    inversion H; subst cs0.
    assert (C0 : caps_ok G (fun _ => False) []) by (split; [tauto | discriminate]).
    destruct (@rmatch_sound _ r Hok _ _ _ _ _ C0 E) as (_ & _ & cs' & _ & _ & C & K).
    inversion K; subst; eapply caps_ok_weaken; [|exact C]; simpl; tauto.
  - destruct (rmatch r (c :: s) [] (fun _ cs0 => Some cs0)) as [cs0|] eqn:E.
    + inversion H; subst cs0.
      assert (C0 : caps_ok G (fun _ => False) []) by (split; [tauto | discriminate]).
      destruct (@rmatch_sound _ r Hok _ _ _ _ _ C0 E) as (_ & _ & cs' & _ & _ & C & K).
      inversion K; subst; eapply caps_ok_weaken; [|exact C]; simpl; tauto.
    + auto.
Qed.

End MatcherSoundness.

Section Numbers.

Import Re ReSem Utils Design.

Lemma is_dot_eq c : is_dot c = true -> c = "."%char.
Proof.
  unfold is_dot, code; intros H; apply N.eqb_eq in H.
  rewrite <- (ascii_N_embedding c), H; reflexivity.
Qed.

Lemma digit_not_dot c : is_digit c = true -> is_dot c = false.
Proof.
  unfold is_digit, is_dot; intros H.
  apply andb_true_iff in H as [H1 H2].
  apply N.leb_le in H1; apply N.eqb_neq; lia.
Qed.

Lemma split_dot_digits d :
  forallb is_digit d = true -> split_dot d = (d, None).
Proof.
  induction d as [|c d IH]; simpl; [reflexivity|]; intros H.
  apply andb_true_iff in H as [Hc Hd].
  now rewrite (digit_not_dot _ Hc), (IH Hd).
Qed.

Lemma split_dot_decimal d1 d2 :
  forallb is_digit d1 = true ->
  split_dot (d1 ++ "."%char :: d2) = (d1, Some d2).
Proof.
  induction d1 as [|c d IH]; simpl; [reflexivity|]; intros H.
  apply andb_true_iff in H as [Hc Hd].
  now rewrite (digit_not_dot _ Hc), (IH Hd).
Qed.

Lemma Qred_nonneg n d : (0 <= n)%Z -> 0 <= Qred (n # d).
Proof. intros H; rewrite Qred_correct; unfold Qle; simpl; lia. Qed.

(** [float] accepts every decimal, with a non-negative value. *)
Lemma float_decimal t :
  is_decimal t -> exists q, float (string_of_list_ascii t) = Ok q /\ 0 <= q.
Proof.
  intros (d1 & Hne & Hd1 & [->|(d2 & Hne2 & Hd2 & ->)]);
    unfold float; rewrite list_ascii_of_string_of_list_ascii.
  - rewrite (split_dot_digits _ Hd1), Hd1; simpl.
    destruct d1 as [|c d1]; [contradiction|]; simpl.
    eexists; split; [reflexivity | apply Qred_nonneg; lia].
  - rewrite (split_dot_decimal _ _ Hd1), Hd1, Hd2; simpl.
    destruct d1 as [|c d1]; [contradiction|]; simpl.
    eexists; split; [reflexivity | apply Qred_nonneg; lia].
Qed.

Lemma lang_plus_digits t :
  lang (plus is_digit) t -> t <> [] /\ forallb is_digit t = true.
Proof.
  simpl; intros (t1 & t2 & -> & (c & -> & Hc) & H2); simpl.
  rewrite Hc, H2; split; [discriminate | reflexivity].
Qed.

Lemma lang_number t : lang number t -> is_decimal t.
Proof.
  intros (t1 & t2 & -> & H1 & H2).
  apply lang_plus_digits in H1 as [Hne Hd].
  exists t1; split; [exact Hne|]; split; [exact Hd|].
  destruct H2 as [(u & v & -> & (c & -> & Hc) & Hv) | ->].
  - apply lang_plus_digits in Hv as [Hnv Hdv].
    right; exists v; rewrite (is_dot_eq _ Hc); auto.
  - left; apply app_nil_r.
Qed.

Lemma lang_digits_decimal t : lang (plus is_digit) t -> is_decimal t.
Proof.
  intros H; apply lang_plus_digits in H as [Hne Hd].
  exists t; auto.
Qed.

(** A group that the pattern binds and that can only capture decimals
    converts without raising. *)
Lemma captured_decimal r text m n :
  groups_ok (fun _ => is_decimal) r -> binds r n ->
  search r text = Some m ->
  exists q, float (group_str n m) = Ok q /\ 0 <= q.
Proof.
  intros Hok Hb Hs.
  destruct (@search_sound _ r text m Hok Hs) as [Hbound Hgood].
  destruct (Hbound n Hb) as (t & Ht).
  unfold group_str; rewrite Ht.
  apply float_decimal, (Hgood n t Ht).
Qed.

Lemma re_percent_ok : groups_ok (fun _ => is_decimal) re_percent.
Proof. simpl; repeat split; auto; intros t H; now apply lang_number. Qed.

Lemma re_ratio_ok : groups_ok (fun _ => is_decimal) re_ratio.
Proof.
  simpl; repeat split; auto; intros t H;
    [now apply lang_number | now apply lang_digits_decimal].
Qed.

Lemma re_chance_ok : groups_ok (fun _ => is_decimal) re_chance.
Proof. simpl; repeat split; auto; intros t H; now apply lang_number. Qed.

(** X1: [parse_probability] can raise only through its first pattern:
    on a text in which [PROBABILITY: ...] does not occur it returns,
    because whatever the percentage, odds and chance patterns capture
    is a well-formed number. *)
Theorem parse_probability_raises_only_on_label :
  forall text : string,
    no_match re_probability text ->
    exists result, parse_probability text = Ok result.
Proof.
  intros text N1; unfold parse_probability; rewrite N1.
  assert (Hchance : exists result, parse_probability_chance text = Ok result).
  { unfold parse_probability_chance.
    destruct (search re_chance text) as [m|] eqn:E; [|eauto].
    destruct (@captured_decimal re_chance text m 1 re_chance_ok) as (q & -> & _);
      [simpl; tauto | exact E | simpl; eauto]. }
  destruct (search re_percent text) as [m|] eqn:E2.
  - destruct (@captured_decimal re_percent text m 1 re_percent_ok) as (q & -> & _);
      [simpl; tauto | exact E2 | simpl; eauto].
  - destruct (search re_ratio text) as [m|] eqn:E3; [|exact Hchance].
    destruct (@captured_decimal re_ratio text m 1 re_ratio_ok) as (a & -> & _);
      [simpl; tauto | exact E3 |].
    destruct (@captured_decimal re_ratio text m 2 re_ratio_ok) as (b & -> & _);
      [simpl; tauto | exact E3 |].
    simpl; destruct (Qlt_le_dec 0 b); [eauto | exact Hchance].
Qed.

Lemma parse_probability_raises_only_on_label_witness :
  exists result, parse_probability "about 3 in 4" = Ok result.
Proof.
  apply parse_probability_raises_only_on_label.
  vm_compute; reflexivity.
Defined.

End Numbers.

Section ParsedRange.

Import Re Utils Design.

Lemma parse_probability_range text v :
  parse_probability text = Ok (Some v) -> 1 # 100 <= v <= 99 # 100.
Proof.
  unfold parse_probability, parse_probability_chance; intros H.
  repeat match type of H with
         | context [search ?r ?t] => destruct (search r t)
         | context [float ?s] => destruct (float s); simpl in H
         | context [Qlt_le_dec ?a ?b] => destruct (Qlt_le_dec a b)
         end;
    try discriminate; inversion H; subst;
    apply normalize_probability_range.
Qed.

(** X2: whatever the text, a probability that [parse_probability]
    returns lies in [0.01, 0.99]: every pattern's value goes through
    the clamp before it is returned. *)
Theorem parse_probability_in_range :
  forall (text : string) (v : Q),
    parse_probability text = Ok (Some v) -> 1 # 100 <= v <= 99 # 100.
Proof. intros text v; apply parse_probability_range. Qed.

Lemma parse_probability_in_range_witness :
  1 # 100 <= 99 # 100 <= 99 # 100.
Proof.
  apply (parse_probability_in_range "PROBABILITY: 75" (v := 99 # 100)).
  vm_compute; reflexivity.
Defined.

End ParsedRange.
(* ================================================================== *)
(** * Properties: the probability read from a response *)
(* ================================================================== *)

Section ResponseProbability.

Import Re Schemas Prompts Utils Agents Design ReSem Examples.

Lemma parse_probability_chance_value text :
  parse_probability_chance text
  = Ok (option_map normalize_probability (stated_chance text)).
Proof.
  unfold parse_probability_chance, stated_chance.
  destruct (search re_chance text) as [m|] eqn:E; [|reflexivity].
  destruct (@captured_decimal re_chance text m 1 re_chance_ok) as (g & -> & _);
    [simpl; auto | exact E |].
  reflexivity.
Qed.

Lemma parse_probability_first_value text :
  well_labelled text ->
  parse_probability text
  = Ok (option_map normalize_probability (first_value text)).
Proof.
  intros Hl; unfold parse_probability, first_value, stated_probability.
  destruct (search re_probability text) as [m|] eqn:E1.
  - destruct (Hl m E1) as (v & ->); reflexivity.
  - unfold stated_percent.
    destruct (search re_percent text) as [m|] eqn:E2.
    + destruct (@captured_decimal re_percent text m 1 re_percent_ok)
        as (g & -> & _); [simpl; auto | exact E2 |].
      reflexivity.
    + unfold stated_ratio.
      destruct (search re_ratio text) as [m|] eqn:E3;
        [|apply parse_probability_chance_value].
      destruct (@captured_decimal re_ratio text m 1 re_ratio_ok)
        as (a & -> & _); [simpl; auto | exact E3 |].
      destruct (@captured_decimal re_ratio text m 2 re_ratio_ok)
        as (b & -> & _); [simpl; auto 10 | exact E3 |].
      cbn [Py.bind ok].
      destruct (Qlt_le_dec 0 b); [reflexivity|].
      apply parse_probability_chance_value.
Qed.

(** C7 (as amended): for every response text in which whatever follows
    a [PROBABILITY:] label is a number, the forecast operation and the
    revise operation return, clamped into [0.01, 0.99], the value of
    the first pattern that yields one among the labelled probability,
    the percentage, the odds phrase (which yields [A / B] only when
    [B > 0]) and the chance phrase, tried in that order; when none
    yields a value, the forecast operation returns the neutral
    probability 0.5 and the revise operation returns the initial
    probability of the forecast under revision. *)
Theorem parsed_probability_of_response :
  forall (post : Transport) (retries : nat) (agent : LLMAgent.t)
         (question model response : string),
    well_labelled response ->
    (forall (criteria : string) (research : ResearchContext),
        _call_llm post retries agent
          (user (FORECAST_TEMPLATE_format question criteria
                   (to_prompt_section research))) model = Ok response ->
        exists f,
          forecast post retries agent question criteria research model
          = Ok f
          /\ final_probability f
             = match first_value response with
               | Some v => normalize_probability v
               | None => 1 # 2
               end
          /\ 1 # 100 <= final_probability f <= 99 # 100)
    /\ (forall (initial : AgentForecast) (p0 : Q) (critique : string),
           initial_probability initial = Some p0 ->
           _call_llm post retries agent
             (user (PEER_REVIEW_TEMPLATE_format question (format_percent2 p0)
                      (initial_reasoning initial) critique)) model
           = Ok response ->
           exists f,
             revise_forecast post retries agent question initial critique
                             model = Ok f
             /\ final_probability f
                = match first_value response with
                  | Some v => normalize_probability v
                  | None => p0
                  end).
Proof.
  intros post retries agent question model response Hl; split.
  - intros criteria research Hcall.
    unfold forecast; rewrite Hcall; cbn [Py.bind].
    rewrite (parse_probability_first_value Hl); cbn [Py.bind].
    destruct (first_value response) as [v|]; cbn [option_map].
    + rewrite normalize_probability_truthy.
      eexists; split; [reflexivity|]; cbn [final_probability].
      split; [reflexivity | apply normalize_probability_range].
    + eexists; split; [reflexivity|]; cbn [final_probability Py.or_else].
      split; [reflexivity | split; discriminate].
  - intros initial p0 critique Hp0 Hcall.
    unfold revise_forecast; rewrite Hp0; cbn [Py.bind].
    rewrite Hcall; cbn [Py.bind].
    rewrite (parse_probability_first_value Hl); cbn [Py.bind].
    destruct (first_value response) as [v|]; cbn [option_map].
    + unfold Py.or_else_opt, Py.truthy.
      destruct (Qeq_bool (normalize_probability v) 0) eqn:E.
      * apply Qeq_bool_eq in E.
        pose proof (proj1 (normalize_probability_range v)) as H.
        rewrite E in H; unfold Qle in H; simpl in H; lia.
      * cbn [negb]; eexists; split; reflexivity.
    + eexists; split; reflexivity.
Qed.

Lemma parsed_probability_of_response_witness :
  well_labelled "3 in 0, chance 40"
  /\ first_value "3 in 0, chance 40" = Some (40 / 100)
  /\ exists f,
      forecast (always "3 in 0, chance 40") 3 analyst rain rain_criteria
               no_research sonnet = Ok f
      /\ final_probability f
         = match first_value "3 in 0, chance 40" with
           | Some v => normalize_probability v
           | None => 1 # 2
           end
      /\ 1 # 100 <= final_probability f <= 99 # 100.
Proof.
  assert (Hl : well_labelled "3 in 0, chance 40")
    by (intros m H; vm_compute in H; discriminate).
  split; [exact Hl|]; split; [vm_compute; reflexivity|].
  apply (proj1 (@parsed_probability_of_response
                  (always "3 in 0, chance 40") 3 analyst rain sonnet
                  "3 in 0, chance 40" Hl)).
  vm_compute; reflexivity.
Defined.

(** The texts the amended claim leaves out: a [PROBABILITY:] label
    followed by dots and digits that are no number makes both
    operations raise. *)
Lemma label_without_number_raises :
  ~ well_labelled "PROBABILITY: 0.75."
  /\ forecast (always "PROBABILITY: 0.75.") 3 analyst rain rain_criteria
              no_research sonnet = Raise ValueError
  /\ revise_forecast (always "PROBABILITY: 0.75.") 3 analyst rain seventy
                     "Too confident." sonnet = Raise ValueError.
Proof.
  split; [|split; vm_compute; reflexivity].
  intros H.
  destruct (search re_probability "PROBABILITY: 0.75.") as [m|] eqn:E;
    [|vm_compute in E; discriminate].
  destruct (H m E) as (v & Hv).
  vm_compute in E; injection E as <-.
  vm_compute in Hv; discriminate.
Qed.

End ResponseProbability.

(* ================================================================== *)
(** * Further properties: weighted means and log-odds *)
(* ================================================================== *)

Section MeansFacts.

Import Schemas Utils Forecaster Means.
Local Open Scope R_scope.

Lemma weighted_average_value ps ws :
  ps <> [] -> List.length ps = List.length ws -> sumR ws <> 0 ->
  weighted_average ps ws = Ok (sumR (products ps ws) / sumR ws).
Proof.
  intros Hne Hlen Hsum; unfold weighted_average.
  destruct ps as [|p ps]; [contradiction|].
  destruct ws as [|w ws]; [discriminate|].
  rewrite Hlen, Nat.eqb_refl; cbn [negb].
  destruct (Req_dec_T (sumR (w :: ws)) 0); [contradiction | reflexivity].
Qed.

Lemma weighted_average_nonempty ps ws :
  ps <> [] -> ws <> [] ->
  weighted_average ps ws
  = if negb (Nat.eqb (List.length ps) (List.length ws)) then Raise ValueError
    else if Req_dec_T (sumR ws) 0 then Ok (1 / 2)
         else Ok (sumR (products ps ws) / sumR ws).
Proof.
  intros Hp Hw; destruct ps; [contradiction|]; destruct ws; [contradiction|].
  reflexivity.
Qed.

Lemma sumR_nonneg ws : Forall (fun w => 0 <= w) ws -> 0 <= sumR ws.
Proof.
  induction 1 as [|w ws Hw _ IH]; [unfold sumR; simpl; lra|].
  rewrite sumR_cons; lra.
Qed.

Lemma products_between a b ps :
  Forall (fun p => a <= p <= b) ps ->
  forall ws,
    List.length ps = List.length ws ->
    Forall (fun w => 0 <= w) ws ->
    a * sumR ws <= sumR (products ps ws) <= b * sumR ws.
Proof.
  induction 1 as [|p ps Hp _ IH]; intros ws Hlen Hws.
  - destruct ws; [unfold products, sumR; simpl; lra | discriminate].
  - destruct Hws as [|w ws Hw Hws']; [discriminate|].
    unfold products; cbn [combine map fst snd]; fold (products ps ws).
    injection Hlen as Hlen.
    specialize (IH ws Hlen Hws'); rewrite !sumR_cons; nra.
Qed.

Lemma weighted_average_between a b ps ws :
  ps <> [] -> List.length ps = List.length ws ->
  Forall (fun w => 0 <= w) ws -> sumR ws <> 0 ->
  Forall (fun p => a <= p <= b) ps ->
  exists r, weighted_average ps ws = Ok r /\ a <= r <= b.
Proof.
  intros Hne Hlen Hws Hsum Hps.
  rewrite (@weighted_average_value ps ws Hne Hlen Hsum).
  eexists; split; [reflexivity|].
  pose proof (@sumR_nonneg ws Hws) as H0.
  pose proof (@products_between a b ps Hps ws Hlen Hws) as [H1 H2].
  assert (Hpos : 0 < sumR ws) by lra.
  split.
  - apply Rmult_le_reg_r with (sumR ws); [exact Hpos|].
    unfold Rdiv; rewrite Rmult_assoc, Rinv_l by lra; lra.
  - apply Rmult_le_reg_r with (sumR ws); [exact Hpos|].
    unfold Rdiv; rewrite Rmult_assoc, Rinv_l by lra; lra.
Qed.

End MeansFacts.

Section LogOddsFacts.

Import Schemas Utils Forecaster Means.
Local Open Scope R_scope.

Lemma clamp_range p : 1 / 10000 <= clamp p <= 9999 / 10000.
Proof.
  unfold clamp, Rmin.
  destruct (Rle_dec (9999 / 10000) p); unfold Rmax;
    destruct (Rle_dec (1 / 10000) _); lra.
Qed.

Lemma clamp_inside p : 1 / 10000 <= p <= 9999 / 10000 -> clamp p = p.
Proof.
  intros [H1 H2]; unfold clamp.
  rewrite Rmin_right by lra; now rewrite Rmax_right by lra.
Qed.

Lemma clamp_monotone p q : p <= q -> clamp p <= clamp q.
Proof.
  intros H; unfold clamp, Rmin.
  destruct (Rle_dec (9999 / 10000) p); destruct (Rle_dec (9999 / 10000) q);
    unfold Rmax;
    repeat match goal with
           | |- context [Rle_dec ?a ?b] => destruct (Rle_dec a b)
           end; lra.
Qed.

Lemma logit_clamp p : logit p = ln (clamp p / (1 - clamp p)).
Proof. reflexivity. Qed.

Lemma odds_pos c : 1 / 10000 <= c <= 9999 / 10000 -> 0 < c / (1 - c).
Proof. intros [H1 H2]; apply Rdiv_lt_0_compat; lra. Qed.

Lemma inv_logit_ln x : 0 < x -> inv_logit (ln x) = x / (1 + x).
Proof.
  intros H; unfold inv_logit; rewrite exp_Ropp, exp_ln by exact H.
  field; lra.
Qed.

Lemma inv_logit_logit p : inv_logit (logit p) = clamp p.
Proof.
  rewrite logit_clamp; pose proof (clamp_range p) as Hc.
  rewrite inv_logit_ln by (now apply odds_pos).
  field; lra.
Qed.

Lemma inv_logit_open x : 0 < inv_logit x < 1.
Proof.
  unfold inv_logit; pose proof (exp_pos (- x)) as H.
  assert (Hone : 1 / (1 + exp (- x)) * (1 + exp (- x)) = 1) by (field; lra).
  split; apply Rmult_lt_reg_r with (1 + exp (- x)); lra.
Qed.

Lemma exp_monotone x y : x <= y -> exp x <= exp y.
Proof.
  intros [H| ->]; [left; now apply exp_increasing | right; reflexivity].
Qed.

Lemma inv_logit_monotone x y : x <= y -> inv_logit x <= inv_logit y.
Proof.
  intros H; unfold inv_logit.
  pose proof (exp_pos (- x)); pose proof (exp_pos (- y)).
  assert (exp (- y) <= exp (- x)) by (apply exp_monotone; lra).
  unfold Rdiv; rewrite !Rmult_1_l.
  apply Rinv_le_contravar; lra.
Qed.

Lemma ln_monotone x y : 0 < x -> x <= y -> ln x <= ln y.
Proof.
  intros Hx [H| ->]; [left; now apply ln_increasing | right; reflexivity].
Qed.

Lemma logit_monotone p q : p <= q -> logit p <= logit q.
Proof.
  intros H; rewrite !logit_clamp.
  pose proof (clamp_range p); pose proof (clamp_range q).
  pose proof (clamp_monotone H).
  apply ln_monotone; [now apply odds_pos|].
  apply Rmult_le_reg_r with ((1 - clamp p) * (1 - clamp q)); [nra|].
  replace (clamp p / (1 - clamp p) * ((1 - clamp p) * (1 - clamp q)))
    with (clamp p * (1 - clamp q)) by (field; lra).
  replace (clamp q / (1 - clamp q) * ((1 - clamp p) * (1 - clamp q)))
    with (clamp q * (1 - clamp p)) by (field; lra).
  nra.
Qed.

Lemma aggregate_between a b ps ws :
  ps <> [] -> List.length ps = List.length ws ->
  Forall (fun w => 0 <= w) ws -> sumR ws <> 0 ->
  1 / 10000 <= a -> b <= 9999 / 10000 ->
  Forall (fun p => a <= p <= b) ps ->
  exists r, aggregate_logit_space ps ws = Ok r /\ a <= r <= b.
Proof.
  intros Hne Hlen Hws Hsum Ha Hb Hps; unfold aggregate_logit_space.
  destruct (@weighted_average_between (logit a) (logit b) (map logit ps) ws)
    as (l & Hl & Hl1 & Hl2).
  - destruct ps; [contradiction | discriminate].
  - now rewrite length_map.
  - exact Hws.
  - exact Hsum.
  - apply Forall_forall; intros l Hl; apply in_map_iff in Hl as (p & <- & Hp).
    rewrite Forall_forall in Hps; destruct (Hps p Hp).
    split; now apply logit_monotone.
  - rewrite Hl; cbn [Py.bind]; eexists; split; [reflexivity|].
    assert (Hab : a <= b).
    { destruct ps as [|p ps]; [contradiction|].
      inversion Hps as [|? ? [H1 H2] _]; lra. }
    split.
    + rewrite <- (clamp_inside (p := a)) at 1 by lra.
      rewrite <- inv_logit_logit; now apply inv_logit_monotone.
    + rewrite <- (clamp_inside (p := b)) at 1 by lra.
      rewrite <- inv_logit_logit; now apply inv_logit_monotone.
Qed.

End LogOddsFacts.

Section CommitteeAggregate.

Import Schemas Utils Forecaster Means.
Local Open Scope R_scope.

Lemma aggregate_forecasts_value (forecasts : list AgentForecast) :
  exists l,
    weighted_average (map logit (map (fun f => Q2R (final_probability f)) forecasts))
                     (map (fun f => Q2R (weight f)) forecasts) = Ok l
    /\ _aggregate_forecasts forecasts = Ok (inv_logit l).
Proof.
  unfold _aggregate_forecasts, aggregate_logit_space.
  destruct forecasts as [|f fs]; [eexists; split; reflexivity|].
  rewrite weighted_average_nonempty by discriminate.
  rewrite !length_map, Nat.eqb_refl; cbn [negb].
  destruct (Req_dec_T _ 0); eexists; split; reflexivity.
Qed.

(** X8: the binary aggregation of a committee never raises, whatever
    the forecasts (the probabilities and the weights it hands to the
    weighted mean always have the same length), and its result is
    strictly between 0 and 1. *)
Theorem aggregate_forecasts_total :
  forall forecasts : list AgentForecast,
    exists r, _aggregate_forecasts forecasts = Ok r /\ 0 < r < 1.
Proof.
  intros forecasts.
  destruct (aggregate_forecasts_value forecasts) as (l & _ & H).
  exists (inv_logit l); split; [exact H | apply inv_logit_open].
Qed.

Lemma inv_logit_half_range : 1 / 100 <= inv_logit (1 / 2) <= 99 / 100.
Proof.
  pose proof inv_logit_half_above_half.
  split; [lra|].
  rewrite <- (clamp_inside (p := 99 / 100)) by lra.
  rewrite <- inv_logit_logit; apply inv_logit_monotone.
  rewrite logit_clamp, clamp_inside by lra.
  replace (99 / 100 / (1 - 99 / 100)) with 99 by lra.
  assert (ln 1 < ln 99) by (apply ln_increasing; lra).
  rewrite ln_1 in *.
  assert (1 < 99 / exp 1).
  { pose proof exp_le_3; pose proof (exp_pos 1).
    apply Rmult_lt_reg_r with (exp 1); [lra|].
    unfold Rdiv; rewrite Rmult_assoc, Rinv_l by lra; lra. }
  assert (E : ln (exp 1 * (99 / exp 1)) = ln (exp 1) + ln (99 / exp 1))
    by (apply ln_mult; [apply exp_pos | lra]).
  replace (exp 1 * (99 / exp 1)) with 99 in E
    by (pose proof (exp_pos 1); field; lra).
  rewrite ln_exp in E.
  assert (ln 1 < ln (99 / exp 1)) by (apply ln_increasing; lra).
  rewrite ln_1 in *; lra.
Qed.

Lemma Q2R_hundredth : Q2R (1 # 100) = 1 / 100.
Proof. unfold Q2R; simpl; lra. Qed.

Lemma Q2R_ninety_nine : Q2R (99 # 100) = 99 / 100.
Proof. unfold Q2R; simpl; lra. Qed.

Lemma aggregate_forecasts_in_range (forecasts : list AgentForecast) :
  Forall (fun f => (0 <= weight f)%Q) forecasts ->
  Forall (fun f => (1 # 100 <= final_probability f <= 99 # 100)%Q) forecasts ->
  exists r, _aggregate_forecasts forecasts = Ok r /\ 1 / 100 <= r <= 99 / 100.
Proof.
  intros Hw Hp; unfold _aggregate_forecasts.
  set (ps := map (fun f => Q2R (final_probability f)) forecasts).
  set (ws := map (fun f => Q2R (weight f)) forecasts).
  assert (Hws : Forall (fun w => 0 <= w) ws).
  { apply Forall_forall; intros w Hin; apply in_map_iff in Hin as (f & <- & Hf).
    rewrite Forall_forall in Hw; rewrite <- RMicromega.Q2R_0.
    apply Qle_Rle, (Hw f Hf). }
  assert (Hps : Forall (fun p => 1 / 100 <= p <= 99 / 100) ps).
  { apply Forall_forall; intros p Hin; apply in_map_iff in Hin as (f & <- & Hf).
    rewrite Forall_forall in Hp; destruct (Hp f Hf) as [H1 H2].
    rewrite <- Q2R_hundredth, <- Q2R_ninety_nine; split; now apply Qle_Rle. }
  destruct forecasts as [|f fs].
  - exists (inv_logit (1 / 2)); split; [reflexivity | apply inv_logit_half_range].
  - destruct (Req_dec_T (sumR ws) 0) as [E|E].
    + exists (inv_logit (1 / 2)); split; [|apply inv_logit_half_range].
      unfold aggregate_logit_space.
      rewrite weighted_average_nonempty by discriminate.
      unfold ps, ws; rewrite !length_map, Nat.eqb_refl; cbn [negb].
      fold ws; destruct (Req_dec_T (sumR ws) 0); [reflexivity | contradiction].
    + apply aggregate_between; auto; try lra.
      * discriminate.
      * unfold ps, ws; now rewrite !length_map.
Qed.

End CommitteeAggregate.

(* ================================================================== *)
(** * Further properties: agents and the committee *)
(* ================================================================== *)

Section Retry.

Import Schemas Agents Roster.
Local Open Scope nat_scope.

Variable post : Transport.
Variable retries : nat.
Variable payload : Payload.

Lemma call_loop_all_fail n :
  forall start,
    start + n = retries -> 0 < n ->
    (forall j, start <= j < retries -> post payload j = None) ->
    _call_llm_loop post retries payload (seq start n) = Raise RuntimeError.
Proof.
  induction n as [|n IH]; intros start Hs Hn Hall; [lia|].
  simpl; rewrite (Hall start) by lia.
  destruct (Nat.eqb start (retries - 1)) eqn:E; [reflexivity|].
  apply Nat.eqb_neq in E.
  apply IH; [lia | lia | intros j Hj; apply Hall; lia].
Qed.

Lemma call_loop_first_success n :
  forall start k text,
    start + n = retries -> start <= k < retries ->
    post payload k = Some text ->
    (forall j, start <= j < k -> post payload j = None) ->
    _call_llm_loop post retries payload (seq start n) = Ok text.
Proof.
  induction n as [|n IH]; intros start k text Hs Hk Hpost Hbefore; [lia|].
  simpl; destruct (Nat.eq_dec start k) as [->|Hne].
  - now rewrite Hpost.
  - rewrite (Hbefore start) by lia.
    destruct (Nat.eqb start (retries - 1)) eqn:E;
      [apply Nat.eqb_eq in E; lia|].
    apply (IH (S start) k text); [lia | lia | exact Hpost|].
    intros j Hj; apply Hbefore; lia.
Qed.

End Retry.

Section RetryClaim.

Import Schemas Agents Roster.
Local Open Scope nat_scope.

(** X9: [_call_llm] makes at most [agent_max_retries] attempts and
    returns the reply of the first attempt that succeeds; it raises
    [RuntimeError] exactly when every one of the attempts fails, and
    with no attempt allowed it returns the empty text without calling
    the service. *)
Theorem call_llm_retries :
  forall (post : Transport) (retries : nat) (self : LLMAgent.t)
         (messages : list Message) (model : string),
    (forall k text,
        k < retries ->
        post (payload_of self messages model) k = Some text ->
        (forall j, j < k -> post (payload_of self messages model) j = None) ->
        _call_llm post retries self messages model = Ok text)
    /\ (0 < retries ->
        (forall j, j < retries ->
                   post (payload_of self messages model) j = None) ->
        _call_llm post retries self messages model = Raise RuntimeError)
    /\ (retries = 0 ->
        _call_llm post retries self messages model = Ok EmptyString).
Proof.
  intros post retries self messages model; unfold _call_llm.
  fold (payload_of self messages model).
  split; [|split].
  - intros k text Hk Hpost Hbefore.
    apply (@call_loop_first_success post retries _ retries 0 k text);
      [lia | lia | exact Hpost | intros j Hj; apply Hbefore; lia].
  - intros Hr Hall.
    apply call_loop_all_fail; [lia | exact Hr | intros j Hj; apply Hall; lia].
  - intros ->; reflexivity.
Qed.

Lemma call_llm_retries_witness :
  _call_llm (fun _ attempt => if Nat.eqb attempt 2 then Some "late"%string
                              else None)
            3 Examples.analyst [] Examples.sonnet = Ok "late"%string.
Proof.
  apply (proj1 (call_llm_retries _ 3 Examples.analyst [] Examples.sonnet)
               2 "late"%string).
  - lia.
  - reflexivity.
  - intros j Hj; destruct j as [|[|j]]; [reflexivity | reflexivity | lia].
Defined.

End RetryClaim.

Section Committee.

Import Schemas Utils Agents Roster.

Lemma dict_get_configured name c :
  dict_get name AGENT_CONFIGS = Some c ->
  AgentConfig.name c = name
  /\ (AgentConfig.weight c = 1 \/ AgentConfig.weight c = 3 # 2).
Proof.
  unfold AGENT_CONFIGS; simpl.
  repeat match goal with
         | |- context [String.eqb name ?k] =>
             let E := fresh "E" in
             destruct (String.eqb name k) eqn:E;
             [apply String.eqb_eq in E; subst name;
              intros H; inversion H; subst c; simpl; auto |]
         end.
  discriminate.
Qed.

Lemma create_committee_loop_names names :
  map LLMAgent.name (create_committee_loop names) = filter configured names.
Proof.
  induction names as [|name names IH]; [reflexivity|].
  cbn [create_committee_loop filter]; unfold configured at 1.
  destruct (dict_get name AGENT_CONFIGS) as [c|] eqn:E; [|exact IH].
  cbn [map new_agent LLMAgent.name].
  now rewrite (proj1 (dict_get_configured _ E)), IH.
Qed.

Lemma create_committee_loop_weights names :
  Forall (fun a => 1 <= LLMAgent.weight a) (create_committee_loop names).
Proof.
  induction names as [|name names IH]; [constructor|].
  cbn [create_committee_loop].
  destruct (dict_get name AGENT_CONFIGS) as [c|] eqn:E; [|exact IH].
  constructor; [|exact IH]; cbn [new_agent LLMAgent.weight].
  destruct (proj2 (dict_get_configured _ E)) as [-> | ->]; discriminate.
Qed.

(** X10: [create_committee] keeps, in the order given and with their
    repetitions, exactly the requested names that are configured, and
    drops the others silently; without names it builds the five
    configured agents; every agent it builds has a weight of at least
    1. *)
Theorem create_committee_roster :
  forall names : list string,
    map LLMAgent.name (create_committee (Some names))
    = filter configured names
    /\ Forall (fun a => 1 <= LLMAgent.weight a)
              (create_committee (Some names))
    /\ map LLMAgent.name (create_committee None)
       = [ "base_rate_analyst"; "market_prior"; "status_quo_anchor";
           "devils_advocate"; "synthesizer" ]%string
    /\ Forall (fun a => 1 <= LLMAgent.weight a) (create_committee None).
Proof.
  intros names; unfold create_committee.
  split; [apply create_committee_loop_names|].
  split; [apply create_committee_loop_weights|].
  split; [reflexivity | apply create_committee_loop_weights].
Qed.

End Committee.

Section Forecasts.

Import Schemas Prompts Utils Agents Roster.

Variable post : Transport.
Variable retries : nat.

Lemma half_in_range : 1 # 100 <= 1 # 2 <= 99 # 100.
Proof. split; discriminate. Qed.

Lemma or_else_range parsed text :
  parse_probability text = Ok parsed ->
  1 # 100 <= Py.or_else parsed (1 # 2) <= 99 # 100.
Proof.
  intros H; destruct parsed as [v|]; simpl; [|apply half_in_range].
  destruct (Qeq_bool v 0); [apply half_in_range|].
  now apply (parse_probability_range text).
Qed.

Lemma forecast_shape self question criteria research model f :
  forecast post retries self question criteria research model = Ok f ->
  forecast_of self f
  /\ initial_probability f = Some (final_probability f)
  /\ initial_reasoning f = final_reasoning f
  /\ peer_critique f = EmptyString.
Proof.
  unfold forecast; intros H.
  apply bind_ok in H as (response & _ & H).
  apply bind_ok in H as (parsed & Hparsed & H).
  inversion H; subst f; clear H; unfold forecast_of; simpl.
  repeat split; try reflexivity; apply (or_else_range _ Hparsed).
Qed.

(** X11: a forecast that [forecast] returns carries the name and the
    weight of its agent, an empty peer critique, a final reasoning equal
    to the initial one, and a final probability that equals the initial
    one and lies in [0.01, 0.99], whatever the service replied. *)
Theorem forecast_well_formed :
  forall (self : LLMAgent.t) (question criteria : string)
         (research : ResearchContext) (model : string) (f : AgentForecast),
    forecast post retries self question criteria research model = Ok f ->
    agent_name f = LLMAgent.name self
    /\ weight f = LLMAgent.weight self
    /\ 1 # 100 <= final_probability f <= 99 # 100
    /\ initial_probability f = Some (final_probability f)
    /\ initial_reasoning f = final_reasoning f
    /\ peer_critique f = EmptyString.
Proof.
  intros self question criteria research model f H.
  destruct (forecast_shape _ _ _ _ _ H) as ((H1 & H2 & H3) & H4 & H5 & H6).
  auto 10.
Qed.

Lemma revise_shape self question initial critique model f :
  revise_forecast post retries self question initial critique model = Ok f ->
  agent_name f = LLMAgent.name self
  /\ weight f = LLMAgent.weight self
  /\ initial_reasoning f = initial_reasoning initial
  /\ initial_probability f = initial_probability initial
  /\ peer_critique f = critique
  /\ (1 # 100 <= final_probability f <= 99 # 100
      \/ initial_probability initial = Some (final_probability f)).
Proof.
  unfold revise_forecast; intros H.
  apply bind_ok in H as (rendered & _ & H).
  apply bind_ok in H as (response & _ & H).
  apply bind_ok in H as (parsed & Hparsed & H).
  destruct (Py.or_else_opt parsed (initial_probability initial)) as [p|] eqn:E;
    [|discriminate].
  inversion H; subst f; clear H; simpl.
  repeat split; try reflexivity.
  unfold Py.or_else_opt in E.
  destruct (Py.truthy parsed) eqn:T; [|right; exact E].
  left; subst parsed; now apply (parse_probability_range response).
Qed.

(** X12: a forecast that [revise_forecast] returns carries the name and
    the weight of the revising agent, the initial reasoning and the
    initial probability of the forecast under revision, and the
    critique it was given; its final probability is either a parsed
    value in [0.01, 0.99] or the initial probability.  When the
    forecast under revision has no initial probability, the operation
    raises [TypeError] whatever the service would reply. *)
Theorem revise_forecast_carries_forward :
  forall (self : LLMAgent.t) (question : string) (initial : AgentForecast)
         (critique model : string),
    (forall f,
        revise_forecast post retries self question initial critique model
        = Ok f ->
        agent_name f = LLMAgent.name self
        /\ weight f = LLMAgent.weight self
        /\ initial_reasoning f = initial_reasoning initial
        /\ initial_probability f = initial_probability initial
        /\ peer_critique f = critique
        /\ (1 # 100 <= final_probability f <= 99 # 100
            \/ initial_probability initial = Some (final_probability f)))
    /\ (initial_probability initial = None ->
        revise_forecast post retries self question initial critique model
        = Raise TypeError).
Proof.
  intros self question initial critique model; split.
  - intros f; apply revise_shape.
  - intros H; unfold revise_forecast; now rewrite H.
Qed.

End Forecasts.

Section ForecastWitnesses.

Import Schemas Utils Agents Examples.

Lemma forecast_well_formed_witness :
  exists f,
    forecast (always "PROBABILITY: 0.75") 3 analyst rain rain_criteria
             no_research sonnet = Ok f
    /\ 1 # 100 <= final_probability f <= 99 # 100.
Proof.
  eexists; split; [vm_compute; reflexivity|].
  refine (proj1 (proj2 (proj2
            (forecast_well_formed (always "PROBABILITY: 0.75") 3 analyst rain
               rain_criteria no_research sonnet _)))).
  vm_compute; reflexivity.
Defined.

Lemma revise_forecast_carries_forward_witness :
  exists f,
    revise_forecast (always undecided) 3 analyst rain seventy
                    "Too confident." sonnet = Ok f
    /\ peer_critique f = "Too confident."%string
    /\ initial_probability f = Some (7 # 10).
Proof.
  eexists; split; [vm_compute; reflexivity|].
  destruct (proj1 (revise_forecast_carries_forward (always undecided) 3
                     analyst rain seventy "Too confident." sonnet)
                  _ eq_refl) as (_ & _ & _ & H4 & H5 & _).
  split; [exact H5 | exact H4].
Defined.

End ForecastWitnesses.

Section Rounds.

Import Schemas Prompts Utils Agents Forecaster Roster.

Variable post : Transport.
Variable retries : nat.

Lemma mapM_Forall2 {X Y : Type} (g : X -> Err Y) xs ys :
  mapM g xs = Ok ys -> Forall2 (fun x y => g x = Ok y) xs ys.
Proof.
  revert ys; induction xs as [|x xs IH]; simpl; intros ys H.
  - inversion H; constructor.
  - apply bind_ok in H as (y & Hy & H).
    apply bind_ok in H as (ys' & Hys & H).
    inversion H; subst; constructor; auto.
Qed.

Lemma gather_map {X Y : Type} (g : X -> Err Y) xs :
  gather (map g xs) = mapM g xs.
Proof.
  unfold gather; induction xs as [|x xs IH]; simpl; [reflexivity|].
  now rewrite IH.
Qed.

Lemma initial_forecasts_shape agents question criteria research model fs :
  run_initial_forecasts post retries agents question criteria research model
  = Ok fs ->
  Forall2 (fun a f => forecast_of a f
                      /\ initial_probability f = Some (final_probability f))
          agents fs.
Proof.
  unfold run_initial_forecasts; rewrite gather_map; intros H.
  apply mapM_Forall2 in H.
  eapply Forall2_impl; [|exact H].
  intros a f Hf; simpl in Hf.
  destruct (forecast_shape _ _ _ _ _ _ _ Hf) as (H1 & H2 & _); auto.
Qed.

(** X13: the first round returns one forecast per agent, in committee
    order: the forecast at each position carries the name and the
    weight of the agent at that position and a probability in
    [0.01, 0.99]. *)
Theorem initial_forecasts_positional :
  forall (agents : list LLMAgent.t) (question criteria : string)
         (research : ResearchContext) (model : string)
         (forecasts : list AgentForecast),
    run_initial_forecasts post retries agents question criteria research
                          model = Ok forecasts ->
    List.length forecasts = List.length agents
    /\ Forall2 forecast_of agents forecasts.
Proof.
  intros agents question criteria research model forecasts H.
  apply initial_forecasts_shape in H.
  split; [symmetry; eapply Forall2_length; exact H|].
  eapply Forall2_impl; [|exact H]; intros a f [Hf _]; exact Hf.
Qed.

Lemma revisions_shape agents :
  forall forecasts critiques question model results,
    Forall2 (fun a f => forecast_of a f
                        /\ initial_probability f = Some (final_probability f))
            agents forecasts ->
    List.length critiques = List.length agents ->
    run_revisions post retries agents forecasts critiques question model
    = Ok results ->
    Forall2 forecast_of agents results.
Proof.
  unfold run_revisions, revision_calls; intros forecasts critiques question
                                               model results H.
  rewrite gather_map.
  revert critiques results.
  induction H as [|a f agents forecasts [Hf Hinit] _ IH];
    intros critiques results Hlen Hrun.
  - simpl in Hrun; inversion Hrun; constructor.
  - destruct critiques as [|c critiques]; [discriminate|].
    cbn [zip3 mapM] in Hrun.
    apply bind_ok in Hrun as (r & Hr & Hrun).
    apply bind_ok in Hrun as (rs & Hrs & Hrun).
    inversion Hrun; subst results; clear Hrun.
    constructor; [|apply (IH critiques rs); [simpl in Hlen; lia | exact Hrs]].
    destruct (revise_shape _ _ _ _ _ _ _ Hr) as (H1 & H2 & _ & _ & _ & H6).
    split; [exact H1|]; split; [exact H2|].
    destruct H6 as [H6|H6]; [exact H6|].
    assert (E : final_probability r = final_probability f) by congruence.
    rewrite E; apply Hf.
Qed.

Lemma peer_reviews_length agents forecasts question model critiques :
  run_peer_reviews post retries agents forecasts question model
  = Ok critiques ->
  List.length critiques = List.length agents.
Proof.
  rewrite run_peer_reviews_mapM; intros H.
  apply mapM_length in H; rewrite H.
  apply enumerate_from_length.
Qed.

Variable integrated_research : string -> bool -> bool -> string.

Lemma forecast_binary_shape (self : Forecaster.t) qid question criteria
      use_asknews use_perplexity result :
  forecast_binary post retries integrated_research self qid question
                  criteria use_asknews use_perplexity = Ok result ->
  Forall2 forecast_of (agents self) (agent_forecasts result)
  /\ _aggregate_forecasts (agent_forecasts result)
     = Ok (cr_final_probability result)
  /\ question_type result = binary
  /\ question_id result = qid.
Proof.
  unfold forecast_binary; intros H.
  apply bind_ok in H as (fs & Hfs & H).
  apply bind_ok in H as (fs' & Hfs' & H).
  apply bind_ok in H as (p & Hp & H).
  inversion H; subst result; clear H; simpl.
  split; [|auto].
  apply initial_forecasts_shape in Hfs.
  destruct (use_peer_review self).
  - apply bind_ok in Hfs' as (critiques & Hc & Hrev).
    apply peer_reviews_length in Hc.
    eapply revisions_shape; eauto.
  - inversion Hfs'; subst fs'.
    eapply Forall2_impl; [|exact Hfs]; intros a f [Hf _]; exact Hf.
Qed.

(** X14: whenever [forecast_binary] returns, with or without peer
    review, its result holds one final forecast per agent, in committee
    order, each with the name and the weight of its agent and a
    probability in [0.01, 0.99]; and for a committee that
    [create_committee] built, the final probability lies within 0.001
    of the interval [0.01, 0.99]: the pooled value of the clamped
    forecasts lies in that interval, and nothing clamps it again after
    rounding. *)
Theorem forecast_binary_well_formed :
  forall (self : Forecaster.t) (qid : Z) (question criteria : string)
         (use_asknews use_perplexity : bool) (result : CommitteeResult),
    forecast_binary post retries integrated_research self qid
                    question criteria use_asknews use_perplexity = Ok result ->
    List.length (agent_forecasts result) = List.length (agents self)
    /\ Forall2 forecast_of (agents self) (agent_forecasts result)
    /\ question_type result = binary
    /\ (forall agent_names,
           agents self = create_committee agent_names ->
           (9 / 1000 <= cr_final_probability result <= 991 / 1000)%R).
Proof.
  intros self qid question criteria use_asknews use_perplexity result H.
  destruct (forecast_binary_shape _ _ _ _ _ _ H) as (HF & Hagg & Hty & _).
  split; [symmetry; eapply Forall2_length; exact HF|].
  split; [exact HF|]; split; [exact Hty|].
  intros agent_names Hbuilt.
  assert (Hw : Forall (fun a => 0 <= LLMAgent.weight a) (agents self)).
  { rewrite Hbuilt; unfold create_committee.
    eapply Forall_impl; [|apply create_committee_loop_weights].
    intros a Ha; simpl in Ha.
    apply Qle_trans with 1; [discriminate | exact Ha]. }
  destruct (@aggregate_forecasts_in_range (agent_forecasts result))
    as (r & Hr & Hrange).
  - clear Hagg H Hbuilt; induction HF as [|a f l l' (_ & Hwf & _) _ IH];
      [constructor|].
    inversion Hw; subst; constructor; [rewrite Hwf; assumption | auto].
  - clear Hagg H Hw Hbuilt; induction HF as [|a f l l' (_ & _ & Hp) _ IH];
      constructor; auto.
  - rewrite Hagg in Hr; inversion Hr; subst; lra.
Qed.

End Rounds.

Section RoundWitnesses.

Import Schemas Utils Agents Forecaster Roster Examples Samples.

Lemma initial_forecasts_positional_witness :
  List.length pair_forecasts = List.length pair
  /\ Forall2 forecast_of pair pair_forecasts.
Proof.
  apply (initial_forecasts_positional echo 3 pair rain rain_criteria
                                      no_research sonnet).
  vm_compute; reflexivity.
Defined.

Lemma pair_committee_runs :
  exists result,
    forecast_binary echo 3 no_search pair_committee 7 rain rain_criteria
                    true true = Ok result.
Proof.
  unfold forecast_binary.
  assert (H1 : run_initial_forecasts echo 3 (agents pair_committee) rain
                 rain_criteria (research_of no_search rain true true)
                 (Forecaster.model pair_committee) = Ok pair_forecasts)
    by (vm_compute; reflexivity).
  rewrite H1; cbn [Py.bind].
  assert (H2 : use_peer_review pair_committee = true) by reflexivity.
  rewrite H2.
  assert (H3 : run_peer_reviews echo 3 (agents pair_committee) pair_forecasts
                 rain (Forecaster.model pair_committee) = Ok pair_critiques)
    by (vm_compute; reflexivity).
  rewrite H3; cbn [Py.bind].
  assert (H4 : run_revisions echo 3 (agents pair_committee) pair_forecasts
                 pair_critiques rain (Forecaster.model pair_committee)
               = Ok pair_revised)
    by (vm_compute; reflexivity).
  rewrite H4; cbn [Py.bind].
  destruct (aggregate_forecasts_value pair_revised) as (l & _ & ->).
  cbn [Py.bind]; eexists; reflexivity.
Qed.

Lemma forecast_binary_well_formed_witness :
  exists result,
    forecast_binary echo 3 no_search pair_committee 7 rain rain_criteria
                    true true = Ok result
    /\ List.length (agent_forecasts result) = 2%nat
    /\ (9 / 1000 <= cr_final_probability result <= 991 / 1000)%R.
Proof.
  destruct pair_committee_runs as (result & H).
  exists result; split; [exact H|].
  destruct (forecast_binary_well_formed echo 3 no_search pair_committee 7
              rain rain_criteria true true H) as (Hlen & _ & _ & Hrange).
  split; [exact Hlen|].
  apply (Hrange (Some ["base_rate_analyst"; "market_prior"]%string)).
  reflexivity.
Defined.

End RoundWitnesses.
(* ================================================================== *)
(** * Properties: the response cache as a store *)
(* ================================================================== *)

Section CacheStore.

Import Utils ResponseCache CacheOps.
Local Open Scope nat_scope.

Variable V : Type.

Lemma lookup_dict_set_same k (e : entry V) (d : dict string (entry V)) :
  lookup k (dict_set String.eqb k e d) = Some e.
Proof.
  induction d as [|[k' e'] d IH]; simpl.
  - now rewrite String.eqb_refl.
  - destruct (String.eqb k k') eqn:E; simpl.
    + now rewrite String.eqb_refl.
    + now rewrite E.
Qed.

Lemma lookup_dict_set_other k k0 (e : entry V) (d : dict string (entry V)) :
  k0 <> k -> lookup k0 (dict_set String.eqb k e d) = lookup k0 d.
Proof.
  intros Hne; induction d as [|[k' e'] d IH]; simpl.
  - destruct (String.eqb k0 k) eqn:E; [apply String.eqb_eq in E; tauto|].
    reflexivity.
  - destruct (String.eqb k k') eqn:E; simpl.
    + apply String.eqb_eq in E; subst k'.
      destruct (String.eqb k0 k) eqn:E0;
        [apply String.eqb_eq in E0; tauto | reflexivity].
    + now rewrite IH.
Qed.

Lemma lookup_none_not_in k (d : dict string (entry V)) :
  ~ In k (keys d) -> lookup k d = None.
Proof.
  induction d as [|[k' e'] d IH]; simpl; intros H; [reflexivity|].
  destruct (String.eqb k k') eqn:E.
  - apply String.eqb_eq in E; subst; tauto.
  - apply IH; tauto.
Qed.

Lemma lookup_some_in k (e : entry V) (d : dict string (entry V)) :
  lookup k d = Some e -> In (k, e) d.
Proof.
  induction d as [|[k' e'] d IH]; simpl; [discriminate|].
  destruct (String.eqb k k') eqn:E.
  - apply String.eqb_eq in E; subst; intros [= ->]; now left.
  - intros H; right; now apply IH.
Qed.

Lemma lookup_dict_del_same k (d : dict string (entry V)) :
  NoDup (keys d) -> lookup k (dict_del k d) = None.
Proof.
  induction d as [|[k' e'] d IH]; simpl; intros Hnd; [reflexivity|].
  inversion Hnd as [|? ? Hnot Hnd']; subst.
  destruct (String.eqb k k') eqn:E; simpl.
  - apply String.eqb_eq in E; subst; now apply lookup_none_not_in.
  - rewrite E; now apply IH.
Qed.

Lemma lookup_dict_del_other k k0 (d : dict string (entry V)) :
  k0 <> k -> lookup k0 (dict_del k d) = lookup k0 d.
Proof.
  intros Hne; induction d as [|[k' e'] d IH]; simpl; [reflexivity|].
  destruct (String.eqb k k') eqn:E; simpl.
  - apply String.eqb_eq in E; subst k'.
    destruct (String.eqb k0 k) eqn:E0;
      [apply String.eqb_eq in E0; tauto | reflexivity].
  - now rewrite IH.
Qed.

Lemma lookup_in_keys k (e : entry V) (d : dict string (entry V)) :
  lookup k d = Some e -> In k (keys d).
Proof.
  intros H; apply lookup_some_in in H.
  unfold keys; now apply (in_map fst) in H.
Qed.

Lemma get_within_bound (self : t V) key now :
  within_bound self -> within_bound (snd (get self key now)).
Proof.
  intros [Hnd Hsz]; unfold get.
  destruct (lookup (_hash key) (cache self)) as [e|] eqn:E;
    [|now split].
  destruct (Qlt_le_dec (now - timestamp e) (ttl self)); [now split|].
  unfold within_bound, size in *; simpl; split.
  - now apply dict_del_nodup.
  - pose proof (dict_del_length (_hash key) (cache self)
                  (lookup_in_keys _ _ E)).
    lia.
Qed.

Lemma apply_within_bound (self : t V) (o : op V) :
  (4 <= max_size self)%Z ->
  within_bound self ->
  within_bound (apply self o) /\ max_size (apply self o) = max_size self.
Proof.
  intros H4 Hb; destruct o as [key value now|key now|]; simpl.
  - split; [now apply set_within_bound | reflexivity].
  - split; [now apply get_within_bound|].
    unfold get.
    destruct (lookup (_hash key) (cache self)) as [e|]; [|reflexivity].
    now destruct (Qlt_le_dec (now - timestamp e) (ttl self)).
  - split; [|reflexivity].
    split; [constructor | unfold size; simpl; lia].
Qed.

(** X15: from an empty cache whose [max_size] is at least 4, no run of
    [set], [get] and [clear] calls, whatever the keys and the clock
    readings, leaves more than [max_size] entries in the store or a key
    stored twice. *)
Theorem cache_never_exceeds_max_size :
  forall (ttl_seconds : Q) (size_limit : Z) (ops : list (op V)),
    (4 <= size_limit)%Z ->
    within_bound (run (new V ttl_seconds size_limit) ops).
Proof.
  intros ttl_seconds size_limit ops H4.
  assert (G : forall self : t V,
             max_size self = size_limit -> within_bound self ->
             within_bound (run self ops)).
  { unfold run; induction ops as [|o ops IH]; intros self Hm Hb; simpl;
      [exact Hb|].
    destruct (@apply_within_bound self o) as (Hb' & Hm');
      [rewrite Hm; exact H4 | exact Hb |].
    apply IH; [now rewrite Hm' | exact Hb']. }
  apply G; [reflexivity|].
  split; [constructor | unfold size; simpl; lia].
Qed.

(** X16: a value stored with [set] is what [get] returns for the same
    key as long as less than [ttl] seconds have passed, and that [get]
    leaves the cache as it is; once [ttl] seconds or more have passed,
    [get] returns nothing and the entry is gone from the store, all
    other entries staying as they were. *)
Theorem set_then_get_round_trip :
  forall (self : t V) (key : string) (value : V) (stored read : Q),
    NoDup (keys (cache self)) ->
    let after := set self key value stored in
    ((read - stored < ttl self)%Q ->
     get after key read = (Some value, after))
    /\ ((ttl self <= read - stored)%Q ->
        fst (get after key read) = None
        /\ lookup (_hash key) (cache (snd (get after key read))) = None
        /\ forall k, k <> _hash key ->
                     lookup k (cache (snd (get after key read)))
                     = lookup k (cache after)).
Proof.
  intros self key value stored read Hnd after.
  assert (Hl : lookup (_hash key) (cache after)
               = Some {| data := value; timestamp := stored |})
    by (unfold after, set; simpl; apply lookup_dict_set_same).
  assert (Hnd' : NoDup (keys (cache after))).
  { unfold after, set; simpl.
    destruct (max_size self <=? Z.of_nat (List.length (cache self)))%Z;
      [apply dict_set_nodup, delete_all_nodup, Hnd
      | now apply dict_set_nodup]. }
  split; intros Ht; unfold get; rewrite Hl; simpl;
    change (ttl after) with (ttl self);
    destruct (Qlt_le_dec (read - stored) (ttl self)) as [Hlt|Hle].
  - reflexivity.
  - exfalso; apply (Qlt_irrefl (ttl self)).
    eapply Qle_lt_trans; eassumption.
  - exfalso; apply (Qlt_irrefl (ttl self)).
    eapply Qle_lt_trans; eassumption.
  - simpl; split; [reflexivity|]; split.
    + now apply lookup_dict_del_same.
    + intros k Hk; now apply lookup_dict_del_other.
Qed.

(** ** Eviction *)

Lemma by_timestamp_perm (d : dict string (entry V)) :
  Permutation (by_timestamp d) d.
Proof.
  unfold by_timestamp.
  assert (G : forall acc,
             Permutation
               (fold_left (fun acc a => insert_by_timestamp a acc) d acc)
               (acc ++ d)).
  { induction d as [|a d IH]; intros acc; simpl; [now rewrite app_nil_r|].
    rewrite IH, insert_by_timestamp_perm.
    apply Permutation_middle with (l1 := acc). }
  apply (G []).
Qed.

Lemma insert_by_timestamp_sorted (a : string * entry V) xs :
  @oldest_first V xs ->
  @oldest_first V (insert_by_timestamp a xs).
Proof.
  induction xs as [|b xs IH]; simpl; intros Hs.
  - split; [constructor | exact I].
  - destruct Hs as [Hall Hs'].
    destruct (Qlt_le_dec (timestamp (snd a)) (timestamp (snd b)))
      as [Hlt|Hle].
    + split; [|split; assumption].
      constructor; [now apply Qlt_le_weak|].
      eapply Forall_impl; [|exact Hall].
      intros c Hc; unfold not_newer in *.
      apply Qle_trans with (timestamp (snd b));
        [now apply Qlt_le_weak | exact Hc].
    + split; [|now apply IH].
      apply (Permutation_Forall
               (Permutation_sym (insert_by_timestamp_perm a xs))).
      constructor; assumption.
Qed.

Lemma by_timestamp_sorted (d : dict string (entry V)) :
  @oldest_first V (by_timestamp d).
Proof.
  unfold by_timestamp.
  assert (G : forall acc,
             @oldest_first V acc ->
             @oldest_first V
               (fold_left (fun acc a => insert_by_timestamp a acc) d acc)).
  { induction d as [|a d IH]; intros acc Hs; simpl; [exact Hs|].
    now apply IH, insert_by_timestamp_sorted. }
  apply G; exact I.
Qed.

Lemma sorted_split (n : nat) (s : list (string * entry V)) :
  @oldest_first V s ->
  forall a b, In a (firstn n s) -> In b (skipn n s) -> not_newer a b.
Proof.
  revert s; induction n as [|n IH]; intros s Hs a b Ha Hb;
    [destruct Ha|].
  destruct s as [|c s]; [destruct Ha|].
  destruct Hs as [Hall Hs']; simpl in Ha, Hb.
  destruct Ha as [<-|Ha].
  - rewrite Forall_forall in Hall; apply Hall.
    rewrite <- (firstn_skipn n s); apply in_or_app; now right.
  - now apply (IH s).
Qed.

Lemma dict_del_sub k (d : dict string (entry V)) a :
  In a (dict_del k d) -> In a d.
Proof.
  induction d as [|[k' e'] d IH]; simpl; [tauto|].
  destruct (String.eqb k k'); simpl; [tauto|].
  intros [H|H]; [now left | right; now apply IH].
Qed.

Lemma dict_del_gone k (d : dict string (entry V)) :
  NoDup (keys d) -> ~ In k (keys (dict_del k d)).
Proof.
  induction d as [|[k' e'] d IH]; simpl; intros Hnd; [tauto|].
  inversion Hnd as [|? ? Hnot Hnd']; subst.
  destruct (String.eqb k k') eqn:E; simpl.
  - apply String.eqb_eq in E; now subst.
  - intros [H|H]; [subst; now rewrite String.eqb_refl in E|].
    now apply IH.
Qed.

Lemma delete_all_sub ks :
  forall (d : dict string (entry V)) a, In a (delete_all ks d) -> In a d.
Proof.
  unfold delete_all.
  induction ks as [|k ks IH]; intros d a; simpl; [tauto|].
  intros H; apply IH in H; now apply dict_del_sub in H.
Qed.

Lemma delete_all_gone ks :
  forall (d : dict string (entry V)) k,
    NoDup (keys d) -> In k ks -> ~ In k (keys (delete_all ks d)).
Proof.
  unfold delete_all.
  induction ks as [|k0 ks IH]; intros d k Hnd Hin; simpl; [destruct Hin|].
  destruct (in_dec string_dec k ks) as [Hk|Hk].
  - apply IH; [now apply dict_del_nodup | exact Hk].
  - destruct Hin as [->|Hin]; [|tauto].
    intros H.
    assert (G : forall (c : dict string (entry V)) x,
               In x (keys (delete_all ks c)) -> In x (keys c)).
    { clear; unfold delete_all.
      induction ks as [|k1 ks IH]; intros c x; simpl; [tauto|].
      intros H; apply IH in H; now apply dict_del_in in H. }
    apply G in H; now apply (@dict_del_gone k d Hnd) in H.
Qed.

Lemma delete_all_kept ks :
  forall (d : dict string (entry V)) k,
    In k (keys d) -> ~ In k ks -> In k (keys (delete_all ks d)).
Proof.
  unfold delete_all.
  induction ks as [|k0 ks IH]; intros d k Hin Hnot; simpl; [exact Hin|].
  apply IH; [|intros H; apply Hnot; now right].
  apply dict_del_other; [|exact Hin].
  intros ->; apply Hnot; now left.
Qed.

Lemma nodup_keys_value (d : dict string (entry V)) k e e' :
  NoDup (keys d) -> In (k, e) d -> In (k, e') d -> e = e'.
Proof.
  induction d as [|[k0 e0] d IH]; simpl; intros Hnd H1 H2; [destruct H1|].
  inversion Hnd as [|? ? Hnot Hnd']; subst.
  destruct H1 as [H1|H1], H2 as [H2|H2].
  - congruence.
  - exfalso; apply Hnot; injection H1 as -> _.
    unfold keys; now apply (in_map fst) in H2.
  - exfalso; apply Hnot; injection H2 as -> _.
    unfold keys; now apply (in_map fst) in H1.
  - now apply IH.
Qed.

(** X17: the eviction of [set] keeps entries as they are, drops exactly
    a quarter of them (rounded down), and drops oldest first: every
    entry it drops has a timestamp no later than that of every entry it
    keeps. *)
Theorem evict_drops_oldest_quarter :
  forall d : dict string (entry V),
    NoDup (keys d) ->
    List.length (evict d) = List.length d - List.length d / 4
    /\ (forall a, In a (evict d) -> In a d)
    /\ (forall k e k' e',
           In (k, e) (evict d) ->
           In (k', e') d -> ~ In k' (keys (evict d)) ->
           (timestamp e' <= timestamp e)%Q).
Proof.
  intros d Hnd.
  split; [pose proof (evict_length d Hnd); lia|].
  split; [intros a; unfold evict; apply delete_all_sub|].
  intros k e k' e' Hkept Hin' Hdropped.
  set (n := List.length d / 4) in *.
  assert (Hs : sorted_keys d = map fst (by_timestamp d)) by reflexivity.
  assert (Hfirst : In k' (firstn n (sorted_keys d))).
  { destruct (in_dec string_dec k' (firstn n (sorted_keys d))) as [H|H];
      [exact H|].
    exfalso; apply Hdropped; unfold evict; apply delete_all_kept; [|exact H].
    unfold keys; now apply (in_map fst) in Hin'. }
  rewrite Hs, firstn_map in Hfirst.
  apply in_map_iff in Hfirst; destruct Hfirst as ([k0 e0] & Hk0 & Hin0).
  simpl in Hk0; subst k0.
  assert (e0 = e').
  { apply (@nodup_keys_value d k' e0 e' Hnd); [|exact Hin'].
    apply (Permutation_in _ (by_timestamp_perm d)).
    rewrite <- (firstn_skipn n (by_timestamp d)); apply in_or_app; now left. }
  subst e0.
  assert (Hin : In (k, e) d) by (revert Hkept; apply delete_all_sub).
  assert (Hnotfirst : ~ In k (firstn n (sorted_keys d))).
  { intros H; revert Hkept; intros Hkept.
    apply (@delete_all_gone (firstn n (sorted_keys d)) d k Hnd H).
    unfold keys; now apply (in_map fst) in Hkept. }
  assert (Hlast : In (k, e) (skipn n (by_timestamp d))).
  { apply (Permutation_in _ (Permutation_sym (by_timestamp_perm d))) in Hin.
    rewrite <- (firstn_skipn n (by_timestamp d)) in Hin.
    apply in_app_or in Hin; destruct Hin as [Hin|Hin]; [|exact Hin].
    exfalso; apply Hnotfirst; rewrite Hs, firstn_map.
    now apply (in_map fst) in Hin. }
  apply (@sorted_split n (by_timestamp d) (by_timestamp_sorted d)
                       (k', e') (k, e) Hin0 Hlast).
Qed.

End CacheStore.

Section CacheStoreWitnesses.

Import Utils ResponseCache CacheOps.
Local Open Scope string_scope.

Lemma cache_never_exceeds_max_size_witness :
  within_bound
    (run (new string 300 4)
         [ op_set "GET:/markets:None:None" "markets" 0;
           op_set "GET:/events:None:None" "events" 1;
           op_get "GET:/markets:None:None" 2;
           op_set "GET:/indices:None:None" "indices" 3;
           op_set "GET:/rates:None:None" "rates" 4;
           op_set "GET:/search:None:None" "search" 5;
           op_get "GET:/events:None:None" 400;
           op_clear;
           op_set "GET:/markets:None:None" "markets" 401 ]).
Proof.
  apply (@cache_never_exceeds_max_size string 300 4); lia.
Defined.

Lemma set_then_get_round_trip_witness :
  let after := set (new string 300 1000) "GET:/markets:None:None" "markets" 10 in
  get after "GET:/markets:None:None" 309 = (Some "markets", after)
  /\ fst (get after "GET:/markets:None:None" 310) = None.
Proof.
  destruct (@set_then_get_round_trip string (new string 300 1000)
              "GET:/markets:None:None" "markets" 10 309 (NoDup_nil _))
    as [Hfresh _].
  destruct (@set_then_get_round_trip string (new string 300 1000)
              "GET:/markets:None:None" "markets" 10 310 (NoDup_nil _))
    as [_ Hstale].
  split.
  - apply Hfresh; reflexivity.
  - apply Hstale; simpl; discriminate.
Defined.

Lemma evict_drops_oldest_quarter_witness :
  let d := [ ("a", {| data := "first"; timestamp := 3 |});
             ("b", {| data := "second"; timestamp := 1 |});
             ("c", {| data := "third"; timestamp := 2 |});
             ("d", {| data := "fourth"; timestamp := 4 |}) ] in
  List.length (evict d) = 3%nat
  /\ forall k e, In (k, e) (evict d) -> (1 <= timestamp e)%Q.
Proof.
  intros d.
  assert (Hnd : NoDup (keys d)).
  { unfold d, keys; simpl.
    repeat (constructor; [simpl; intuition discriminate|]); constructor. }
  destruct (@evict_drops_oldest_quarter string d Hnd) as (Hlen & _ & Hold).
  split; [exact Hlen|].
  intros k e Hin.
  apply (Hold k e "b" {| data := "second"; timestamp := 1 |} Hin).
  - right; left; reflexivity.
  - vm_compute; intuition discriminate.
Defined.

End CacheStoreWitnesses.
(* ================================================================== *)
(** * Properties: requests through the cache *)
(* ================================================================== *)

Section ClientCache.

Import Utils ResponseCache AdjClient.
Local Open Scope string_scope.

Variable J : Type.

Lemma get_set_fresh (self : t (option J)) key data (stored read : Q) :
  read - stored < ttl self ->
  get (set self key data stored) key read
  = (Some data, set self key data stored).
Proof.
  intros Ht; unfold get.
  assert (Hl : lookup (_hash key) (cache (set self key data stored))
               = Some {| ResponseCache.data := data; timestamp := stored |})
    by (unfold set; simpl; apply lookup_dict_set_same).
  rewrite Hl; simpl.
  change (ttl (set self key data stored)) with (ttl self).
  destruct (Qlt_le_dec (read - stored) (ttl self)) as [Hlt|Hle];
    [reflexivity|].
  exfalso; apply (Qlt_irrefl (ttl self)).
  eapply Qle_lt_trans; eassumption.
Qed.

Lemma get_ttl (self : t (option J)) key now :
  ttl (snd (get self key now)) = ttl self.
Proof.
  unfold get.
  destruct (lookup (_hash key) (cache self)) as [e|]; [|reflexivity].
  now destruct (Qlt_le_dec (now - timestamp e) (ttl self)).
Qed.

(** X18: when a cached request misses the cache and the service answers
    200 with a body other than [null], the body is returned, and the
    same request repeated less than [ttl] seconds after the write is
    answered with that body from the cache: whatever the service would
    reply then, it is not asked, and the cache stays as it is. *)
Theorem request_served_from_cache :
  forall (send : request -> reply J) (self : t (option J)) (r : request)
         (body : J) (text : string) (checked stored again : Q),
    (forall data, fst (get self (cache_key r) checked) <> Some (Some data)) ->
    send r = response 200 (Some (Some body)) text ->
    again - stored < ttl self ->
    let first := _request send self r true checked stored in
    fst first = returned (Some body)
    /\ forall (send' : request -> reply J) (stored' : Q),
         _request send' (snd first) r true again stored'
         = (returned (Some body), snd first).
Proof.
  intros send self r body text checked stored again Hmiss Hsend Ht first.
  assert (Hfirst : first
                   = (returned (Some body),
                      set (snd (get self (cache_key r) checked))
                          (cache_key r) (Some body) stored)).
  { unfold first, _request.
    destruct (get self (cache_key r) checked) as [cached c] eqn:E;
      simpl in Hmiss |- *.
    destruct cached as [[data|]|];
      [exfalso; now apply (Hmiss data) | |]; now rewrite Hsend. }
  rewrite Hfirst; simpl; split; [reflexivity|].
  intros send' stored'; unfold _request.
  rewrite get_set_fresh; [reflexivity|].
  now rewrite get_ttl.
Qed.

(** X19: a 200 answer whose body is [null] is written to the cache but
    never served from it: the next identical request, however soon,
    gives what the same request would give with the cache switched
    off. *)
Theorem null_body_is_not_served :
  forall (send send' : request -> reply J) (self : t (option J))
         (r : request) (text : string) (checked stored again stored' : Q),
    (forall data, fst (get self (cache_key r) checked) <> Some (Some data)) ->
    send r = response 200 (Some None) text ->
    let first := _request send self r true checked stored in
    fst first = returned None
    /\ lookup (_hash (cache_key r)) (cache (snd first))
       = Some {| data := None; timestamp := stored |}
    /\ fst (_request send' (snd first) r true again stored')
       = fst (_request send' (snd first) r false again stored').
Proof.
  intros send send' self r text checked stored again stored' Hmiss Hsend
         first.
  assert (Hfirst : first
                   = (returned None,
                      set (snd (get self (cache_key r) checked))
                          (cache_key r) None stored)).
  { unfold first, _request.
    destruct (get self (cache_key r) checked) as [cached c] eqn:E;
      simpl in Hmiss |- *.
    destruct cached as [[data|]|];
      [exfalso; now apply (Hmiss data) | |]; now rewrite Hsend. }
  rewrite Hfirst; simpl; split; [reflexivity|].
  split; [apply lookup_dict_set_same|].
  set (c := set (snd (get self (cache_key r) checked)) (cache_key r) None
                stored).
  assert (Hget : forall data,
             fst (get c (cache_key r) again) <> Some (Some data)).
  { intros data; unfold get, c at 1.
    unfold set at 1; simpl; rewrite lookup_dict_set_same; simpl.
    now destruct (Qlt_le_dec (again - stored) _). }
  unfold _request.
  destruct (get c (cache_key r) again) as [cached c'] eqn:E.
  simpl in Hget.
  destruct cached as [[data|]|]; [exfalso; now apply (Hget data) | |];
    (destruct (send' r) as [status [data|] body| |]; try reflexivity;
     now destruct (status =? 200)%Z, (status =? 404)%Z).
Qed.

End ClientCache.

Section ClientCacheWitnesses.

Import Utils ResponseCache AdjClient Samples.
Local Open Scope string_scope.

Lemma empty_cache_misses :
  forall (key : string) (now : Q) (data : string),
    fst (get empty_cache key now) <> Some (Some data).
Proof. intros key now data; discriminate. Qed.

Lemma request_served_from_cache_witness :
  let first :=
    _request (answers (Some "[market]")) empty_cache markets_request true
             0 1 in
  fst first = returned (Some "[market]")
  /\ _request down (snd first) markets_request true 300 301
     = (returned (Some "[market]"), snd first).
Proof.
  destruct (@request_served_from_cache string (answers (Some "[market]"))
              empty_cache markets_request "[market]" "" 0 1 300
              (@empty_cache_misses (cache_key markets_request) 0)
              eq_refl eq_refl)
    as [Hfirst Hagain].
  split; [exact Hfirst | apply Hagain].
Defined.

Lemma null_body_is_not_served_witness :
  let first :=
    _request (answers None) empty_cache markets_request true 0 1 in
  fst first = returned None
  /\ fst (_request down (snd first) markets_request true 2 3)
     = fst (_request down (snd first) markets_request false 2 3).
Proof.
  destruct (@null_body_is_not_served string (answers None) down
              empty_cache markets_request "" 0 1 2 3
              (@empty_cache_misses (cache_key markets_request) 0) eq_refl)
    as (Hfirst & _ & Hagain).
  split; [exact Hfirst | exact Hagain].
Defined.

End ClientCacheWitnesses.
(* ================================================================== *)
(** * Properties: dictionaries filled by the parsers *)
(* ================================================================== *)

Section DictFacts.

Import Utils.

Variables K V : Type.
Variable eqb : K -> K -> bool.
Hypothesis eqb_spec : forall a b, eqb a b = true <-> a = b.

Lemma dict_set_fresh k (v : V) (d : dict K V) :
  ~ In k (map fst d) -> dict_set eqb k v d = d ++ [(k, v)].
Proof.
  induction d as [|[k' v'] d IH]; simpl; intros Hnot; [reflexivity|].
  destruct (eqb k k') eqn:E.
  - apply eqb_spec in E; subst; tauto.
  - rewrite IH; [reflexivity | tauto].
Qed.

Lemma dict_set_keys k (v : V) (d : dict K V) k0 :
  In k0 (map fst (dict_set eqb k v d)) <-> k0 = k \/ In k0 (map fst d).
Proof.
  induction d as [|[k' v'] d IH]; simpl; [intuition|].
  destruct (eqb k k') eqn:E; simpl.
  - apply eqb_spec in E; subst; intuition.
  - rewrite IH; intuition.
Qed.

Lemma dict_set_keys_nodup k (v : V) (d : dict K V) :
  NoDup (map fst d) -> NoDup (map fst (dict_set eqb k v d)).
Proof.
  induction d as [|[k' v'] d IH]; simpl; intros Hnd.
  - constructor; [intros [] | constructor].
  - inversion Hnd as [|? ? Hnot Hnd']; subst.
    destruct (eqb k k') eqn:E; simpl.
    + apply eqb_spec in E; subst; now constructor.
    + constructor; [|now apply IH].
      rewrite dict_set_keys; intros [->|H]; [|tauto].
      assert (eqb k k = true) by now apply eqb_spec.
      congruence.
Qed.

Lemma dict_set_values (P : V -> Prop) k (v : V) (d : dict K V) :
  P v -> Forall (fun kv => P (snd kv)) d ->
  Forall (fun kv => P (snd kv)) (dict_set eqb k v d).
Proof.
  intros Hv; induction d as [|[k' v'] d IH]; simpl; intros Hd.
  - now constructor.
  - inversion Hd; subst.
    destruct (eqb k k'); constructor; auto.
Qed.

End DictFacts.

(* ================================================================== *)
(** * Properties: the numeric and multiple-choice parsers *)
(* ================================================================== *)

Section NumericParsers.

Import Re Utils Design Labels.
Local Open Scope Q_scope.

Lemma float_nonneg s q : float s = Ok q -> 0 <= q.
Proof.
  unfold float.
  destruct (split_dot (list_ascii_of_string s)) as [ip fp].
  match goal with |- context [if ?c then _ else _] => destruct c end;
    [|discriminate].
  intros [= <-]; apply Qred_nonneg; lia.
Qed.

Lemma Z_eqb_spec a b : (a =? b)%Z = true <-> a = b.
Proof. apply Z.eqb_eq. Qed.

Lemma parse_percentiles_loop_keys text ps :
  forall acc d,
    NoDup ps ->
    (forall p, In p ps -> ~ In (Z.of_N p) (map fst acc)) ->
    parse_percentiles_loop text ps acc = Ok d ->
    map fst d
    = (map fst acc
       ++ map Z.of_N (filter (fun p => found (level_label p) text) ps))%list
    /\ (Forall (fun kv => 0 <= snd kv) acc ->
        Forall (fun kv => 0 <= snd kv) d).
Proof.
  induction ps as [|p ps IH]; intros acc d Hnd Hfresh; simpl.
  - intros [= <-]; now rewrite app_nil_r.
  - inversion Hnd as [|? ? Hnot Hnd']; subst.
    unfold found, level_label.
    destruct (search (re_labelled (String "p" (str_N p))) text) as [m|].
    + destruct (float (group_str 1 m)) as [v|e] eqn:Ev; cbn [Py.bind];
        [|discriminate].
      intros Hd; apply IH in Hd; [|exact Hnd'|].
      * destruct Hd as [Hk Hv]; split.
        -- rewrite Hk, (@dict_set_fresh Z Q Z.eqb Z_eqb_spec);
             [|apply Hfresh; now left].
           rewrite map_app; simpl; now rewrite <- app_assoc.
        -- intros Hacc; apply Hv.
           apply (@dict_set_values Z Q Z.eqb (fun v => 0 <= v));
             [now apply float_nonneg in Ev | exact Hacc].
      * intros q Hq; rewrite (@dict_set_keys Z Q Z.eqb Z_eqb_spec).
        intros [H|H].
        -- apply N2Z.inj in H; now subst.
        -- revert H; apply Hfresh; now right.
    + intros Hd; apply IH in Hd; [exact Hd | exact Hnd'|].
      intros q Hq; apply Hfresh; now right.
Qed.

Lemma parse_percentiles_shape text d :
  parse_percentiles text = Ok d ->
  map fst d = map Z.of_N (stated_levels text)
  /\ Forall (fun kv => is_percentile (fst kv)) d
  /\ Forall (fun kv => 0 <= snd kv) d.
Proof.
  intros Hd; unfold parse_percentiles in Hd.
  apply parse_percentiles_loop_keys in Hd.
  - destruct Hd as [Hk Hv].
    change (map fst d = map Z.of_N (stated_levels text)) in Hk.
    split; [exact Hk|]; split; [|apply Hv; constructor].
    assert (Hall : Forall is_percentile (map fst d)).
    { rewrite Hk; apply Forall_forall; intros k Hin.
      apply in_map_iff in Hin; destruct Hin as (p & <- & Hp).
      unfold stated_levels in Hp.
      apply filter_In in Hp; destruct Hp as [Hp _].
      unfold percentile_levels in Hp; simpl in Hp.
      unfold is_percentile.
      repeat (destruct Hp as [<-|Hp]; [simpl; lia|]); destruct Hp. }
    rewrite Forall_map in Hall; exact Hall.
  - unfold percentile_levels.
    repeat (constructor; [simpl; intuition discriminate|]); constructor.
  - intros p _ [].
Qed.

(** X20: the percentiles that [parse_percentiles] returns are keyed by
    exactly the levels among 10, 20, ..., 90 whose label the text
    states, in increasing order and each once; no value is negative
    (a sign before a number is not read). *)
Theorem parse_percentiles_levels :
  forall (text : string) (d : dict Z Q),
    parse_percentiles text = Ok d ->
    map fst d = map Z.of_N (stated_levels text)
    /\ Forall (fun kv => is_percentile (fst kv)) d
    /\ Forall (fun kv => 0 <= snd kv) d.
Proof. intros text d; apply parse_percentiles_shape. Qed.

Lemma String_eqb_spec a b : String.eqb a b = true <-> a = b.
Proof. apply String.eqb_eq. Qed.

Lemma parse_option_probabilities_loop_keys text options :
  forall acc d,
    parse_option_probabilities_loop text options acc = Ok d ->
    (NoDup (map fst acc) -> NoDup (map fst d))
    /\ (forall o, In o (map fst d)
                  <-> In o (map fst acc)
                      \/ (In o options /\ found o text = true))
    /\ (Forall (fun kv => 0 <= snd kv) acc ->
        Forall (fun kv => 0 <= snd kv) d).
Proof.
  induction options as [|opt options IH]; intros acc d; simpl.
  - intros [= <-]; split; [auto|]; split; [intuition | auto].
  - destruct (search (re_labelled opt) text) as [m|] eqn:Em.
    + destruct (float (group_str 1 m)) as [v|e] eqn:Ev; cbn [Py.bind];
        [|discriminate].
      intros Hd; apply IH in Hd; destruct Hd as (Hnd & Hk & Hv).
      split; [|split].
      * intros H; apply Hnd.
        now apply (@dict_set_keys_nodup string Q String.eqb String_eqb_spec).
      * intros o; rewrite Hk.
        rewrite (@dict_set_keys string Q String.eqb String_eqb_spec).
        split.
        -- intros [[->|H]|[H1 H2]]; auto.
           right; split; [now left|]; unfold found; now rewrite Em.
        -- intros [H|[[<-|H1] H2]]; auto.
      * intros Hacc; apply Hv.
        apply (@dict_set_values string Q String.eqb (fun v => 0 <= v));
          [now apply float_nonneg in Ev | exact Hacc].
    + intros Hd; apply IH in Hd; destruct Hd as (Hnd & Hk & Hv).
      split; [exact Hnd|]; split; [|exact Hv].
      intros o; rewrite Hk; split.
      * intros [H|[H1 H2]]; auto.
      * intros [H|[[<-|H1] H2]]; auto.
        unfold found in H2; rewrite Em in H2; discriminate.
Qed.

(** X21: the map that [parse_option_probabilities] returns holds each
    key once; its keys are exactly the options whose label the text
    states, so a repeated option is one key and an option the text does
    not state is missing; no value is negative. *)
Theorem parse_option_probabilities_keys :
  forall (text : string) (options : list string) (d : dict string Q),
    parse_option_probabilities text options = Ok d ->
    NoDup (map fst d)
    /\ (forall o, In o (map fst d) <-> In o options /\ found o text = true)
    /\ Forall (fun kv => 0 <= snd kv) d.
Proof.
  intros text options d Hd; unfold parse_option_probabilities in Hd.
  apply parse_option_probabilities_loop_keys in Hd.
  destruct Hd as (Hnd & Hk & Hv).
  split; [apply Hnd; constructor|]; split; [|apply Hv; constructor].
  intros o; rewrite Hk; simpl; tauto.
Qed.

(** ** The CDF, whatever the percentiles *)

Lemma max_ge_first a b : a <= Py.max a b.
Proof.
  unfold Py.max; destruct (Qlt_le_dec a b);
    [now apply Qlt_le_weak | apply Qle_refl].
Qed.

Lemma max_scan_ge rest :
  forall prev i,
    (i < List.length rest)%nat ->
    nth i rest 0 <= nth i (max_scan prev rest) 0.
Proof.
  induction rest as [|c rest IH]; intros prev i Hi; simpl in Hi; [lia|].
  destruct i as [|i]; simpl; [apply max_ge_first | apply IH; lia].
Qed.

Lemma cdf_from_percentiles_unfold percentiles lower upper :
  cdf_from_percentiles percentiles lower upper
  = 0 :: max_scan 0
           (map (fun i => cdf_at (grid_point lower upper i) lower None
                                 (sorted percentiles))
                (seq 1 199) ++ [1]).
Proof.
  unfold cdf_from_percentiles.
  change (seq 0 201) with ([0%nat] ++ seq 1 199 ++ [200%nat]).
  rewrite !map_app; cbn [map app assign].
  rewrite app_comm_cons.
  rewrite assign_last; reflexivity.
Qed.

Lemma cdf_shape percentiles lower upper :
  let cdf := cdf_from_percentiles percentiles lower upper in
  List.length cdf = 201%nat
  /\ (forall i, (i < 200)%nat -> nth i cdf 0 <= nth (S i) cdf 0)
  /\ nth 0 cdf 0 = 0
  /\ 1 <= nth 200 cdf 0
  /\ (forall i, 0 <= nth i cdf 0).
Proof.
  intros cdf; subst cdf; rewrite cdf_from_percentiles_unfold.
  set (xs := map _ (seq 1 199)).
  assert (Hxs : List.length (xs ++ [1]) = 200%nat)
    by (unfold xs; rewrite length_app, length_map, length_seq; reflexivity).
  assert (Hlen : List.length (0 :: max_scan 0 (xs ++ [1])) = 201%nat)
    by (rewrite length_cons, max_scan_length, Hxs; reflexivity).
  assert (Hmono : forall i, (i < 200)%nat ->
                            nth i (0 :: max_scan 0 (xs ++ [1])) 0
                            <= nth (S i) (0 :: max_scan 0 (xs ++ [1])) 0)
    by (intros i Hi; apply max_scan_nondecreasing; rewrite Hlen; lia).
  split; [exact Hlen|]; split; [exact Hmono|]; split; [reflexivity|].
  split.
  - change (nth 200 (0 :: max_scan 0 (xs ++ [1])) 0)
      with (nth 199 (max_scan 0 (xs ++ [1])) 0).
    apply Qle_trans with (nth 199 (xs ++ [1]) 0);
      [|apply max_scan_ge; rewrite Hxs; lia].
    rewrite app_nth2; unfold xs; rewrite length_map, length_seq;
      [|lia].
    apply Qle_refl.
  - intros i; destruct (Nat.lt_ge_cases i 201) as [Hi|Hi].
    + induction i as [|i IH]; [apply Qle_refl|].
      apply Qle_trans with (nth i (0 :: max_scan 0 (xs ++ [1])) 0);
        [apply IH; lia | apply Hmono; lia].
    + rewrite nth_overflow; [apply Qle_refl | rewrite Hlen; lia].
Qed.

(** X22: whatever the percentiles and the bounds (no percentile at all,
    levels above 100, a lower bound at or above the upper one),
    [cdf_from_percentiles] returns 201 values that never decrease,
    start at exactly 0, end at 1 or more, and are never negative. *)
Theorem cdf_from_percentiles_always_monotone :
  forall (percentiles : dict Z Q) (lower upper : Q),
    let cdf := cdf_from_percentiles percentiles lower upper in
    List.length cdf = 201%nat
    /\ (forall i, (i < 200)%nat -> nth i cdf 0 <= nth (S i) cdf 0)
    /\ nth 0 cdf 0 = 0
    /\ 1 <= nth 200 cdf 0
    /\ (forall i, 0 <= nth i cdf 0).
Proof. intros percentiles lower upper; apply cdf_shape. Qed.

Lemma cdf_ends_at_one percentiles lower upper :
  Forall (fun kv => is_percentile (fst kv)) percentiles ->
  lower < upper ->
  nth 200 (cdf_from_percentiles percentiles lower upper) 0 = 1.
Proof.
  intros Hkeys Hlt; rewrite cdf_from_percentiles_unfold.
  set (f := fun i => cdf_at (grid_point lower upper i) lower None
                            (sorted percentiles)).
  assert (Hmid : Forall (fun c => c <= 1) (map f (seq 1 199))).
  { apply Forall_forall; intros c Hc.
    apply in_map_iff in Hc; destruct Hc as (i & <- & _).
    unfold f; apply cdf_at_le_1;
      [now apply grid_point_ge_lower | | exact I].
    apply Forall_forall; intros kv Hin; apply sorted_in in Hin.
    rewrite Forall_forall in Hkeys; apply (Hkeys kv Hin). }
  rewrite max_scan_snoc; [|discriminate|assumption].
  change (nth 200 (0 :: max_scan 0 (map f (seq 1 199)) ++ [1]) 0)
    with (nth 199 (max_scan 0 (map f (seq 1 199)) ++ [1]) 0).
  rewrite app_nth2; rewrite max_scan_length, length_map, length_seq;
    [reflexivity | lia].
Qed.

(** X23: the percentiles read from any response give a well-formed
    CDF over any range with [lower < upper]: whenever
    [parse_percentiles] returns, [cdf_from_percentiles] of its result
    has 201 values that never decrease, from exactly 0 to exactly 1,
    also when the response states no percentile at all. *)
Theorem parsed_percentiles_give_cdf :
  forall (text : string) (d : dict Z Q) (lower upper : Q),
    parse_percentiles text = Ok d ->
    lower < upper ->
    well_formed_cdf (cdf_from_percentiles d lower upper).
Proof.
  intros text d lower upper Hd Hlt.
  destruct (parse_percentiles_shape text Hd) as (_ & Hkeys & _).
  destruct (cdf_shape d lower upper) as (Hlen & Hmono & Hzero & _).
  repeat split; try assumption.
  now apply cdf_ends_at_one.
Qed.

End NumericParsers.

Section NumericParserWitnesses.

Import Re Utils Design Labels Examples Samples.
Local Open Scope string_scope.

Lemma parse_percentiles_levels_witness :
  map fst numeric_percentiles = map Z.of_N (stated_levels numeric_reply)
  /\ Forall (fun kv => is_percentile (fst kv)) numeric_percentiles
  /\ Forall (fun kv => 0 <= snd kv) numeric_percentiles.
Proof.
  apply (@parse_percentiles_levels numeric_reply).
  vm_compute; reflexivity.
Defined.

Lemma parse_option_probabilities_keys_witness :
  NoDup (map fst choice_probs)
  /\ (forall o, In o (map fst choice_probs)
                <-> In o ["Yes"; "No"; "Yes"]
                    /\ found o choice_reply = true)
  /\ Forall (fun kv => 0 <= snd kv) choice_probs.
Proof.
  apply (@parse_option_probabilities_keys choice_reply ["Yes"; "No"; "Yes"]).
  vm_compute; reflexivity.
Defined.

Lemma parsed_percentiles_give_cdf_witness :
  well_formed_cdf (cdf_from_percentiles numeric_percentiles 0 10).
Proof.
  apply (@parsed_percentiles_give_cdf numeric_reply numeric_percentiles 0 10).
  - vm_compute; reflexivity.
  - reflexivity.
Defined.

End NumericParserWitnesses.
(* ================================================================== *)
(** * Properties: the single-agent forecaster *)
(* ================================================================== *)

Section SimpleBot.

Import Re Utils SimpleVoxForecaster.
Local Open Scope Q_scope.

Lemma percent_clamp_range (prob : Q) :
  1 # 100 <= Py.max (1 # 100) (Py.min (99 # 100) prob) <= 99 # 100.
Proof. apply (normalize_probability_range prob). Qed.

(** X24: whatever the model replies, a prediction that the single-agent
    [_run_forecast_on_binary] returns lies in [0.01, 0.99] and comes
    with the reply unchanged as its reasoning; a reply without
    [Probability: ...%] gives 0.5. *)
Theorem simple_binary_prediction_in_range :
  forall (reasoning : string) (prob : Q) (kept : string),
    _run_forecast_on_binary reasoning = Ok (prob, kept) ->
    1 # 100 <= prob <= 99 # 100
    /\ kept = reasoning
    /\ (search re_probability_percent reasoning = None -> prob = 1 # 2).
Proof.
  intros reasoning prob kept; unfold _run_forecast_on_binary.
  destruct (search re_probability_percent reasoning) as [m|].
  - destruct (float (group_str 1 m)) as [g|e]; cbn [Py.bind];
      [|discriminate].
    intros [= <- <-]; split; [apply percent_clamp_range|].
    split; [reflexivity | discriminate].
  - cbn [Py.bind]; intros [= <- <-].
    split; [split; discriminate|]; split; reflexivity.
Qed.

(** ** Sums *)

Lemma sum_acc (xs : list Q) :
  forall a, fold_left Qplus xs a == a + Py.sum xs.
Proof.
  unfold Py.sum; induction xs as [|x xs IH]; intros a; simpl.
  - ring.
  - rewrite IH, (IH (0 + x)); ring.
Qed.

Lemma sum_cons x (xs : list Q) : Py.sum (x :: xs) == x + Py.sum xs.
Proof. unfold Py.sum; simpl; rewrite sum_acc; unfold Py.sum; ring. Qed.

Lemma sum_scaled (total : Q) (d : dict string Q) :
  Py.sum (map snd (map (fun kv => (fst kv, snd kv / total)) d))
  == Py.sum (map snd d) / total.
Proof.
  induction d as [|[k v] d IH]; simpl.
  - unfold Py.sum; simpl; unfold Qdiv; ring.
  - rewrite !sum_cons, IH; simpl; unfold Qdiv; ring.
Qed.

Lemma sum_nonneg (xs : list Q) :
  Forall (fun x => 0 <= x) xs -> 0 <= Py.sum xs.
Proof.
  induction 1 as [|x xs Hx _ IH]; [discriminate|].
  rewrite sum_cons.
  replace 0 with (0 + 0) by reflexivity.
  now apply Qplus_le_compat.
Qed.

Lemma sum_app (xs ys : list Q) :
  Py.sum (xs ++ ys) == Py.sum xs + Py.sum ys.
Proof.
  induction xs as [|x xs IH]; simpl.
  - unfold Py.sum at 2; simpl; ring.
  - rewrite !sum_cons, IH; ring.
Qed.

(** ** The uniform fallback *)

Lemma uniform_loop (p : Q) (options : list string) :
  forall acc : dict string Q,
    NoDup options ->
    (forall o, In o options -> ~ In o (map fst acc)) ->
    fold_left (fun d opt => dict_set String.eqb opt p d) options acc
    = (acc ++ map (fun o => (o, p)) options)%list.
Proof.
  induction options as [|o options IH]; intros acc Hnd Hfresh; simpl.
  - now rewrite app_nil_r.
  - inversion Hnd as [|? ? Hnot Hnd']; subst.
    rewrite (@dict_set_fresh string Q String.eqb String_eqb_spec);
      [|apply Hfresh; now left].
    rewrite IH; [now rewrite <- app_assoc | exact Hnd'|].
    intros o' Ho'; rewrite map_app, in_app_iff; simpl.
    intros [H|[H|[]]].
    + revert H; apply Hfresh; now right.
    + now subst.
Qed.

Lemma uniform_nodup (options : list string) :
  NoDup options ->
  uniform options
  = map (fun o => (o, 1 / inject_Z (Z.of_nat (List.length options))))
        options.
Proof.
  intros Hnd; unfold uniform; rewrite uniform_loop; auto.
Qed.

Lemma sum_constant (p : Q) (options : list string) :
  Py.sum (map snd (map (fun o => (o, p)) options))
  == inject_Z (Z.of_nat (List.length options)) * p.
Proof.
  induction options as [|o options IH].
  - unfold Py.sum; simpl; ring.
  - cbn [map snd]; rewrite sum_cons, IH.
    cbn [List.length]; rewrite Nat2Z.inj_succ.
    unfold Z.succ; rewrite inject_Z_plus; ring.
Qed.

Lemma option_percents_shape reasoning options :
  forall acc d,
    option_percents reasoning options acc = Ok d ->
    (forall o, In o (map fst d) -> In o (map fst acc) \/ In o options)
    /\ (Forall (fun kv => 0 <= snd kv) acc ->
        Forall (fun kv => 0 <= snd kv) d).
Proof.
  induction options as [|opt options IH]; intros acc d; simpl.
  - intros [= <-]; split; auto.
  - destruct (search (re_option_percent opt) reasoning) as [m|].
    + destruct (float (group_str 1 m)) as [g|e] eqn:Eg; cbn [Py.bind];
        [|discriminate].
      intros Hd; apply IH in Hd; destruct Hd as [Hk Hv]; split.
      * intros o Ho; apply Hk in Ho.
        rewrite (@dict_set_keys string Q String.eqb String_eqb_spec) in Ho.
        destruct Ho as [[->|H]|H]; simpl; auto.
      * intros Hacc; apply Hv.
        apply (@dict_set_values string Q String.eqb (fun v => 0 <= v));
          [|exact Hacc].
        apply float_nonneg in Eg.
        apply Qle_shift_div_l; [reflexivity|].
        now rewrite Qmult_0_l.
    + intros Hd; apply IH in Hd; destruct Hd as [Hk Hv]; split; [|exact Hv].
      intros o Ho; apply Hk in Ho; simpl; tauto.
Qed.

Lemma multiple_choice_probs options reasoning kept probs :
  options <> [] ->
  NoDup options ->
  _run_forecast_on_multiple_choice options reasoning = Ok (probs, kept) ->
  Py.sum (map snd probs) == 1
  /\ Forall (fun kv => 0 <= snd kv) probs
  /\ (forall o, In o (map fst probs) -> In o options).
Proof.
  intros Hne Hnd.
  unfold _run_forecast_on_multiple_choice.
  destruct (option_percents reasoning options []) as [d|e] eqn:Ed;
    cbn [Py.bind]; [|discriminate].
  destruct (option_percents_shape _ _ _ Ed) as [Hk Hv].
  specialize (Hv (Forall_nil _)).
  destruct (Qlt_le_dec 0 (Py.sum (map snd d))) as [Hpos|Hzero];
    intros [= <- <-].
  - split; [|split].
    + rewrite sum_scaled; field.
      intros H; rewrite H in Hpos; discriminate.
    + apply Forall_forall; intros kv Hin.
      apply in_map_iff in Hin; destruct Hin as ([k v] & <- & Hin); simpl.
      rewrite Forall_forall in Hv; specialize (Hv _ Hin); simpl in Hv.
      apply Qle_shift_div_l; [exact Hpos | now rewrite Qmult_0_l].
    + intros o Ho; rewrite map_map in Ho; simpl in Ho.
      destruct (Hk o Ho) as [[]|H]; exact H.
  - rewrite (uniform_nodup Hnd).
    assert (Hn : ~ inject_Z (Z.of_nat (List.length options)) == 0).
    { destruct options as [|o options]; [congruence|].
      cbn [List.length]; unfold Qeq; simpl; lia. }
    split; [|split].
    + rewrite sum_constant; field; exact Hn.
    + apply Forall_forall; intros kv Hin.
      apply in_map_iff in Hin; destruct Hin as (o & <- & _); simpl.
      apply Qle_shift_div_l; [|rewrite Qmult_0_l; discriminate].
      destruct options as [|o' options]; [congruence|].
      cbn [List.length]; unfold Qlt; simpl; lia.
    + intros o Ho; rewrite map_map in Ho; simpl in Ho.
      now rewrite map_id in Ho.
Qed.

(** X25: for a non-empty list of distinct options, whenever the
    single-agent [_run_forecast_on_multiple_choice] gets as far as its
    map [probs] (it raises [ValueError] on a reply such as
    [Yes: 1.2.3%]), the probabilities in that map are non-negative,
    every key is one of the options, and the values sum to 1 within
    1e-9: to exactly 1 in exact arithmetic, the margin covering the
    rounding of the division and of the sum. *)
Theorem simple_multiple_choice_is_distribution :
  forall (options : list string) (reasoning kept : string)
         (probs : dict string Q),
    options <> [] ->
    NoDup options ->
    _run_forecast_on_multiple_choice options reasoning = Ok (probs, kept) ->
    Qabs (Py.sum (map snd probs) - 1) <= 1 # 1000000000
    /\ Forall (fun kv => 0 <= snd kv) probs
    /\ (forall o, In o (map fst probs) -> In o options).
Proof.
  intros options reasoning kept probs Hne Hnd Hrun.
  destruct (@multiple_choice_probs options reasoning kept probs Hne Hnd Hrun)
    as (Hsum & Hpos & Hkeys).
  split; [|split; assumption].
  rewrite Hsum; discriminate.
Qed.

(** X26: the single-agent [_run_forecast_on_numeric] reads the median
    with the pattern of [parse_median] and keeps whatever value is
    stated, zero included; without a stated median it takes the
    midpoint of the range.  It therefore agrees with the committee's
    [median or midpoint] except on a stated median of zero, which the
    committee replaces by the midpoint. *)
Theorem simple_median_keeps_zero :
  forall (lower_bound upper_bound : Q) (reasoning : string)
         (median : option Q),
    parse_median reasoning = Ok median ->
    exists v,
      _run_forecast_on_numeric lower_bound upper_bound reasoning = Ok v
      /\ (forall m, median = Some m -> v = m)
      /\ (median = None -> v = (lower_bound + upper_bound) / 2)
      /\ ((forall m, median = Some m -> ~ m == 0) ->
          v = Py.or_else median ((lower_bound + upper_bound) / 2)).
Proof.
  intros lower_bound upper_bound reasoning median.
  unfold parse_median, _run_forecast_on_numeric.
  destruct (search re_median reasoning) as [m|].
  - destruct (float (group_str 1 m)) as [v|e]; cbn [Py.bind];
      [|discriminate].
    intros [= <-]; exists v; split; [reflexivity|].
    split; [now intros m' [= <-]|]; split; [discriminate|].
    intros Hnz; simpl.
    destruct (Qeq_bool v 0) eqn:E; [|reflexivity].
    apply Qeq_bool_eq in E; exfalso; now apply (Hnz v).
  - intros [= <-]; eexists; split; [reflexivity|].
    split; [discriminate|]; split; reflexivity.
Qed.

End SimpleBot.

Section SimpleBotWitnesses.

Import Re Utils SimpleVoxForecaster Examples Samples.
Local Open Scope string_scope.

Lemma simple_binary_prediction_in_range_witness :
  1 # 100 <= 70 # 100 <= 99 # 100
  /\ "Rain is likely. Probability: 70%" = "Rain is likely. Probability: 70%"
  /\ (search re_probability_percent "Rain is likely. Probability: 70%" = None
      -> 70 # 100 = 1 # 2).
Proof.
  apply (@simple_binary_prediction_in_range
           "Rain is likely. Probability: 70%").
  vm_compute; reflexivity.
Defined.

Lemma simple_multiple_choice_is_distribution_witness :
  Qabs (Py.sum (map snd percent_probs) - 1) <= 1 # 1000000000
  /\ Forall (fun kv => 0 <= snd kv) percent_probs
  /\ (forall o, In o (map fst percent_probs) -> In o yes_no).
Proof.
  apply (@simple_multiple_choice_is_distribution yes_no percent_reply
           percent_reply percent_probs).
  - discriminate.
  - unfold yes_no.
    repeat (constructor; [simpl; intuition discriminate|]); constructor.
  - vm_compute; reflexivity.
Defined.

Lemma simple_median_keeps_zero_witness :
  exists v,
    _run_forecast_on_numeric 0 100 "Median: 0" = Ok v
    /\ (forall m, Some 0 = Some m -> v = m)
    /\ (Some 0 = None -> v = (0 + 100) / 2)
    /\ ((forall m, Some 0 = Some m -> ~ m == 0) ->
        v = Py.or_else (Some 0) ((0 + 100) / 2)).
Proof.
  apply (@simple_median_keeps_zero 0 100 "Median: 0" (Some 0)).
  vm_compute; reflexivity.
Defined.

End SimpleBotWitnesses.
(* ================================================================== *)
(** * Properties: committees that fail or are empty *)
(* ================================================================== *)

Section CommitteeEdges.

Import Schemas Utils Agents Forecaster Roster.

Variable post : Transport.
Variable retries : nat.
Variable integrated_research : string -> bool -> bool -> string.

Lemma mapM_raises {X Y : Type} (g : X -> Err Y) xs x e :
  In x xs -> g x = Raise e -> exists e', mapM g xs = Raise e'.
Proof.
  induction xs as [|y xs IH]; intros Hin Hx; [destruct Hin|].
  simpl; destruct Hin as [->|Hin].
  - rewrite Hx; eexists; reflexivity.
  - destruct (g y) as [v|e0]; [|eexists; reflexivity].
    destruct (IH Hin Hx) as (e' & ->); eexists; reflexivity.
Qed.

(** X27: a binary forecast has no partial result: if the first-round
    forecast of any one agent of the committee raises, whatever the
    other agents return, [forecast_binary] raises as well. *)
Theorem one_failing_agent_fails_the_committee :
  forall (self : Forecaster.t) (qid : Z) (question criteria : string)
         (use_asknews use_perplexity : bool) (agent : LLMAgent.t) (e : exn),
    In agent (agents self) ->
    forecast post retries agent question criteria
             (research_of integrated_research question use_asknews
                          use_perplexity)
             (Forecaster.model self) = Raise e ->
    exists e',
      forecast_binary post retries integrated_research self qid question
                      criteria use_asknews use_perplexity = Raise e'.
Proof.
  intros self qid question criteria use_asknews use_perplexity agent e
         Hin Hraise.
  unfold forecast_binary, run_initial_forecasts.
  rewrite gather_map.
  destruct (@mapM_raises _ _
              (fun agent =>
                 forecast post retries agent question criteria
                          (research_of integrated_research question
                                       use_asknews use_perplexity)
                          (Forecaster.model self))
              (agents self) agent e Hin Hraise) as (e' & ->).
  eexists; reflexivity.
Qed.

Lemma unknown_names_empty names :
  (forall n, In n names -> configured n = false) ->
  create_committee (Some names) = [].
Proof.
  intros Hn.
  assert (H : map LLMAgent.name (create_committee (Some names)) = []).
  { unfold create_committee; rewrite create_committee_loop_names.
    induction names as [|n names IH]; [reflexivity|].
    simpl; rewrite (Hn n) by now left.
    apply IH; intros n' Hn'; apply Hn; now right. }
  now destruct (create_committee (Some names)).
Qed.

(** X28: a committee asked for by names none of which is configured is
    empty, and [forecast_binary] then answers without calling the
    service: it returns no agent forecast and the final probability
    [1 / (1 + exp (-0.5))], about 0.62, the logistic image of the 0.5
    that the weighted mean returns for empty input. *)
Theorem unknown_names_forecast_constant :
  forall (names : list string) (model : string) (use_peer_review : bool)
         (qid : Z) (question criteria : string)
         (use_asknews use_perplexity : bool),
    (forall n, In n names -> configured n = false) ->
    exists result,
      forecast_binary post retries integrated_research
                      (Forecaster.new (Some names) model use_peer_review)
                      qid question criteria use_asknews use_perplexity
      = Ok result
      /\ agent_forecasts result = []
      /\ cr_final_probability result = inv_logit (1 / 2)
      /\ (1 / 2 < cr_final_probability result)%R.
Proof.
  intros names model use_peer_review qid question criteria use_asknews
         use_perplexity Hn.
  unfold forecast_binary, Forecaster.new; cbn [agents Forecaster.model
                                               Forecaster.use_peer_review].
  rewrite (@unknown_names_empty names Hn).
  destruct use_peer_review; eexists;
    (split; [reflexivity|]); cbn [agent_forecasts cr_final_probability];
    (split; [reflexivity|]); (split; [reflexivity|]);
    apply inv_logit_half_above_half.
Qed.

End CommitteeEdges.

Section CommitteeEdgeWitnesses.

Import Schemas Utils Agents Forecaster Roster Examples Samples.
Local Open Scope string_scope.

Lemma one_failing_agent_fails_the_committee_witness :
  exists e',
    forecast_binary (fun _ _ => None) 3 no_search pair_committee 7 rain
                    rain_criteria true true = Raise e'.
Proof.
  apply (@one_failing_agent_fails_the_committee
           (fun _ _ => None) 3 no_search pair_committee 7 rain rain_criteria
           true true (nth 1 pair analyst) RuntimeError).
  - right; left; reflexivity.
  - vm_compute; reflexivity.
Defined.

Lemma unknown_names_forecast_constant_witness :
  exists result,
    forecast_binary echo 3 no_search
                    (Forecaster.new (Some ["optimist"; "pessimist"]) sonnet
                                    true)
                    7 rain rain_criteria true true
    = Ok result
    /\ agent_forecasts result = []
    /\ cr_final_probability result = inv_logit (1 / 2)
    /\ (1 / 2 < cr_final_probability result)%R.
Proof.
  apply (@unknown_names_forecast_constant echo 3 no_search
           ["optimist"; "pessimist"] sonnet true 7 rain rain_criteria
           true true).
  intros n [<-|[<-|[]]]; reflexivity.
Defined.

End CommitteeEdgeWitnesses.
(* ================================================================== *)
(** * Properties: the reasoning cut out of a response *)
(* ================================================================== *)

Section Reasoning.

Import Re Utils ReSem Occurs.
Local Open Scope list_scope.

(** ** Stripping *)

Lemma lstrip_suffix t : exists a, t = a ++ lstrip t.
Proof.
  induction t as [|c t [a IH]]; [now exists []|].
  simpl; destruct (is_space c).
  - exists (c :: a); simpl; now rewrite <- IH.
  - now exists [].
Qed.

Lemma lstrip_head t c r : lstrip t = c :: r -> is_space c = false.
Proof.
  induction t as [|d t IH]; simpl; [discriminate|].
  destruct (is_space d) eqn:E; [exact IH|].
  now intros [= <- _].
Qed.

Lemma lstrip_fixed t :
  (forall c r, t = c :: r -> is_space c = false) -> lstrip t = t.
Proof.
  destruct t as [|c r]; [reflexivity|].
  intros H; simpl; now rewrite (H c r eq_refl).
Qed.

Lemma lstrip_idempotent t : lstrip (lstrip t) = lstrip t.
Proof.
  apply lstrip_fixed; intros c r H; now apply lstrip_head in H.
Qed.

Lemma strip_text_stripped t : stripped (strip_text t).
Proof.
  unfold stripped, strip_text; split.
  - apply lstrip_fixed; intros c r H.
    destruct (lstrip_suffix (rev (lstrip t))) as [a Ha].
    apply (f_equal (@rev ascii)) in Ha.
    rewrite rev_involutive, rev_app_distr, H in Ha.
    simpl in Ha; now apply lstrip_head in Ha.
  - rewrite rev_involutive; apply lstrip_idempotent.
Qed.

Lemma strip_text_factor t : exists a b, t = a ++ strip_text t ++ b.
Proof.
  unfold strip_text.
  destruct (lstrip_suffix t) as [a Ha].
  destruct (lstrip_suffix (rev (lstrip t))) as [b Hb].
  apply (f_equal (@rev ascii)) in Hb.
  rewrite rev_involutive, rev_app_distr in Hb.
  exists a, (rev b); now rewrite <- Hb.
Qed.

Lemma strip_list s :
  list_ascii_of_string (strip s) = strip_text (list_ascii_of_string s).
Proof. unfold strip; apply list_ascii_of_string_of_list_ascii. Qed.

(** ** Literals and the lazy run *)

Lemma rmatch_lit_i (A : Type) label :
  forall s cs (k : text -> caps -> option A),
    rmatch (lit_i label) s cs k
    = match skip_label label s with
      | Some rest => k rest cs
      | None => None
      end.
Proof.
  induction label as [|c label IH]; intros s cs k; simpl; [reflexivity|].
  destruct s as [|d s]; [reflexivity|].
  destruct (chr_i c d); [apply IH | reflexivity].
Qed.

Lemma many_lazy_minimal (A : Type) p s (k : text -> option A) a :
  many_lazy p s k = Some a ->
  exists pre s',
    s = pre ++ s' /\ k s' = Some a
    /\ forall p1 p2, pre = p1 ++ p2 -> p2 <> [] -> k (p2 ++ s') = None.
Proof.
  induction s as [|c s IH].
  - simpl; destruct (k []) as [a'|] eqn:E; [|discriminate].
    intros [= <-]; exists [], []; split; [reflexivity|]; split; [exact E|].
    intros p1 p2 H Hne; destruct p1, p2; try discriminate; congruence.
  - cbn [many_lazy]; destruct (k (c :: s)) as [a'|] eqn:E.
    + intros [= <-]; exists [], (c :: s); split; [reflexivity|].
      split; [exact E|].
      intros p1 p2 H Hne; destruct p1, p2; try discriminate; congruence.
    + destruct (p c); [|discriminate].
      intros H; apply IH in H; destruct H as (pre & s' & -> & Hk & Hmin).
      exists (c :: pre), s'; split; [reflexivity|]; split; [exact Hk|].
      intros p1 p2 Hsplit Hne.
      destruct p1 as [|d p1]; simpl in Hsplit.
      * subst p2; exact E.
      * injection Hsplit as _ Hsplit; now apply Hmin with p1.
Qed.

Lemma rmatch_constant (A : Type) r s cs (x a : A) :
  rmatch r s cs (fun _ _ => Some x) = Some a -> a = x.
Proof.
  intros H.
  assert (Hg : forall r0, groups_ok (fun _ _ => True) r0)
    by (induction r0; simpl; auto).
  destruct (@rmatch_sound (fun _ _ => True) A r (Hg r) s cs
              (fun _ _ => Some x) a (fun _ => False))
    as (pre & s' & cs' & _ & _ & _ & Hk);
    [split; [intros n [] | auto] | exact H | congruence].
Qed.

Lemma search_from_hit r s m :
  search_from r s = Some m ->
  exists s0, rmatch r s0 [] (fun _ cs => Some cs) = Some m.
Proof.
  induction s as [|c s IH]; cbn [search_from].
  - destruct (rmatch r [] [] (fun _ cs => Some cs)) as [cs|] eqn:E;
      [|discriminate].
    intros [= <-]; now exists [].
  - destruct (rmatch r (c :: s) [] (fun _ cs => Some cs)) as [cs|] eqn:E.
    + intros [= <-]; now exists (c :: s).
    + exact IH.
Qed.

(** The lookahead of the reasoning pattern succeeds wherever one of the
    three labels starts. *)
Lemma lookahead_at_label (A : Type) label s cs (x : A) :
  label = "PROBABILITY:"%string \/ label = "MEDIAN:"%string
  \/ label = "PROBABILITIES:"%string ->
  skip_label label s <> None ->
  rmatch (Alt (lit_i "PROBABILITY:")
              (Alt (lit_i "MEDIAN:") (Alt (lit_i "PROBABILITIES:") Eos)))
         s cs (fun _ _ => Some x)
  <> None.
Proof.
  intros Hl Hs; cbn [rmatch]; rewrite !rmatch_lit_i.
  destruct (skip_label "PROBABILITY:" s) eqn:E1; [discriminate|].
  destruct (skip_label "MEDIAN:" s) eqn:E2; [discriminate|].
  destruct (skip_label "PROBABILITIES:" s) eqn:E3; [discriminate|].
  destruct Hl as [-> | [-> | ->]]; congruence.
Qed.

Lemma reasoning_capture text m :
  search re_reasoning text = Some m ->
  exists g rest,
    group 1 m = Some g
    /\ forall label p1 p2,
         label = "PROBABILITY:"%string \/ label = "MEDIAN:"%string
         \/ label = "PROBABILITIES:"%string ->
         g = p1 ++ p2 -> p2 <> [] ->
         skip_label label (p2 ++ rest) = None.
Proof.
  unfold search; intros H; apply search_from_hit in H.
  destruct H as (s0 & H).
  unfold re_reasoning in H.
  set (L := Alt (lit_i "PROBABILITY:") _) in H.
  cbn [rmatch] in H.
  rewrite rmatch_lit_i in H.
  destruct (skip_label "REASONING:" s0) as [s1|]; [|discriminate].
  apply many_greedy_sound in H; destruct H as (ws & s2 & _ & _ & H).
  apply many_lazy_minimal in H; destruct H as (g & rest & Hs2 & Hk & Hmin).
  apply rmatch_constant in Hk.
  exists g, rest; split.
  - subst m s2; simpl.
    now rewrite firstn_consumed.
  - intros label p1 p2 Hl Hsplit Hne.
    specialize (Hmin p1 p2 Hsplit Hne).
    destruct (skip_label label (p2 ++ rest)) eqn:E; [|reflexivity].
    exfalso; revert Hmin; unfold L; apply lookahead_at_label with label;
      [exact Hl | congruence].
Qed.

Lemma skip_label_nonempty label s :
  label <> EmptyString -> skip_label label s <> None -> s <> [].
Proof.
  destruct label; [congruence|]; destruct s; simpl; congruence.
Qed.

Lemma skip_label_app label :
  forall s z, skip_label label s <> None -> skip_label label (s ++ z) <> None.
Proof.
  induction label as [|c label IH]; intros s z; simpl; [discriminate|].
  destruct s as [|d s]; [congruence|]; simpl.
  destruct (chr_i c d); [apply IH | congruence].
Qed.

Lemma extract_reasoning_shape text :
  let r := list_ascii_of_string (extract_reasoning text) in
  stripped r
  /\ (search re_reasoning text <> None ->
      ~ occurs "PROBABILITY:" r /\ ~ occurs "MEDIAN:" r
      /\ ~ occurs "PROBABILITIES:" r).
Proof.
  intros r; subst r; unfold extract_reasoning.
  destruct (search re_reasoning text) as [m|] eqn:E.
  - rewrite strip_list; split; [apply strip_text_stripped|].
    intros _.
    destruct (reasoning_capture _ E) as (g & rest & Hg & Hmin).
    unfold group_str; rewrite Hg, list_ascii_of_string_of_list_ascii.
    destruct (strip_text_factor g) as (a & b & Hfac).
    assert (Hno : forall label,
               label = "PROBABILITY:"%string \/ label = "MEDIAN:"%string
               \/ label = "PROBABILITIES:"%string ->
               ~ occurs label (strip_text g)).
    { intros label Hl (x & y & Hy & Hxy).
      assert (Hlabel : label <> EmptyString)
        by (destruct Hl as [-> | [-> | ->]]; discriminate).
      pose proof (@skip_label_nonempty label y Hlabel Hy) as Hne.
      apply (@skip_label_app label y (b ++ rest)) in Hy.
      apply Hy; rewrite app_assoc.
      apply (Hmin label (a ++ x) (y ++ b) Hl).
      - rewrite Hfac at 1; rewrite Hxy, <- !app_assoc; reflexivity.
      - destruct y; [congruence | discriminate]. }
    repeat split; apply Hno; auto.
  - rewrite strip_list; split; [apply strip_text_stripped|].
    intros H; now contradiction H.
Qed.

(** X29: the reasoning that [extract_reasoning] returns never starts or
    ends with white space; and when the response has a [REASONING:]
    label, the text returned stops before the answer: it holds no
    occurrence of [PROBABILITY:], [MEDIAN:] or [PROBABILITIES:], in any
    letter case. *)
Theorem extracted_reasoning_is_clean :
  forall text : string,
    let r := list_ascii_of_string (extract_reasoning text) in
    stripped r
    /\ (search re_reasoning text <> None ->
        ~ occurs "PROBABILITY:" r /\ ~ occurs "MEDIAN:" r
        /\ ~ occurs "PROBABILITIES:" r).
Proof. intros text; apply extract_reasoning_shape. Qed.

Lemma extracted_reasoning_is_clean_witness :
  let r := list_ascii_of_string
             (extract_reasoning
                "REASONING:  wet season.  Probability: 70%") in
  stripped r /\ ~ occurs "PROBABILITY:" r.
Proof.
  destruct (extracted_reasoning_is_clean
              "REASONING:  wet season.  Probability: 70%") as [Hs Hl].
  split; [exact Hs|].
  apply Hl; vm_compute; discriminate.
Defined.

End Reasoning.
